(** * TrueVision TGA codec of plug-ins/common/file-tga.c

    A shallow embedding of the loader and exporter of the TGA plug-in:
    the header parser and its sub-format checks, the run-length coder,
    the sample converters and the row loops of [ReadImage] and
    [save_image], followed by the properties established about them.

    Conventions.  A [guchar] is a [Z] in [0, 256); arithmetic that the C
    code stores back into a [guchar] is reduced with [uchar].  A C array
    is a [list Z]; every access goes through [Mem.load] and [Mem.store],
    which answer [None] when the access leaves the array.  Loop counters
    and sizes that are unsigned in the source are [nat]. *)

From Stdlib Require Import ZArith List Bool Lia.
Import ListNotations.
Open Scope Z_scope.

(** ** The option monad: [None] is an access outside an array *)

Definition obind {A B} (m : option A) (k : A -> option B) : option B :=
  match m with
  | Some a => k a
  | None => None
  end.

Notation "x <- m ;; k" := (obind m (fun x => k))
  (at level 61, m at next level, right associativity).

(** Conversion of an [int] to [unsigned char]. *)
Definition uchar (z : Z) : Z := z mod 256.

(** ** Arrays of [guchar] *)

Module Mem.

(** [len] cells starting at cell [off]. *)
Definition load (m : list Z) (off len : nat) : option (list Z) :=
  if (off + len <=? length m)%nat
  then Some (firstn len (skipn off m))
  else None.

(** Overwrite the cells starting at [off] with [v]. *)
Definition store (m : list Z) (off : nat) (v : list Z) : option (list Z) :=
  if (off + length v <=? length m)%nat
  then Some (firstn off m ++ v ++ skipn (off + length v) m)
  else None.

(** One cell at a signed index, as the colormap lookups compute it. *)
Definition get (m : list Z) (i : Z) : option Z :=
  if i <? 0 then None else nth_error m (Z.to_nat i).

(** C's [memcmp] on two blocks of the same size: zero exactly when the
    blocks agree, otherwise the difference of the first bytes that
    differ. *)
Fixpoint memcmp (a b : list Z) : Z :=
  match a, b with
  | x :: a', y :: b' => if x =? y then memcmp a' b' else x - y
  | _, _ => 0
  end.

End Mem.

(** ** Streams *)

Module Stdio.

Definition EOF : Z := -1.

(** A file opened for reading: its bytes and the read position. *)
Record FILE : Type := mkFILE { content : list Z; pos : nat }.

Definition fopen (bytes : list Z) : FILE := mkFILE bytes 0.

Definition size (fp : FILE) : nat := length (content fp).

(** [getc]: the next byte, or [EOF]. *)
Definition getc (fp : FILE) : Z * FILE :=
  match nth_error (content fp) (pos fp) with
  | Some c => (c, mkFILE (content fp) (S (pos fp)))
  | None => (EOF, fp)
  end.

(** [fread (ptr, sz, nmemb, fp)]: the bytes obtained (at most
    [sz * nmemb], fewer at end of file), the number of complete items
    among them, and the stream after the read. *)
Definition fread (sz nmemb : nat) (fp : FILE) : list Z * nat * FILE :=
  let got := firstn (sz * nmemb) (skipn (pos fp) (content fp)) in
  (got, if (sz =? 0)%nat then 0%nat else (length got / sz)%nat,
   mkFILE (content fp) (pos fp + length got)).

(** [fseek (fp, off, SEEK_SET)], [SEEK_CUR] and [SEEK_END]: a position
    before the start of the file is refused (non-zero result, stream
    unchanged); a position past the end is accepted. *)
Definition fseek_to (fp : FILE) (target : Z) : Z * FILE :=
  if target <? 0 then (-1, fp)
  else (0, mkFILE (content fp) (Z.to_nat target)).

Definition fseek_set (fp : FILE) (off : Z) : Z * FILE :=
  fseek_to fp off.

Definition fseek_cur (fp : FILE) (off : Z) : Z * FILE :=
  fseek_to fp (Z.of_nat (pos fp) + off).

Definition fseek_end (fp : FILE) (off : Z) : Z * FILE :=
  fseek_to fp (Z.of_nat (size fp) + off).

(** A file opened for writing is the list of bytes written so far. *)
Definition putc (c : Z) (out : list Z) : list Z := out ++ [uchar c].

(** [fwrite (ptr + off, sz, nmemb, fp)]. *)
Definition fwrite (m : list Z) (off sz nmemb : nat) (out : list Z)
  : option (list Z) :=
  blk <- Mem.load m off (sz * nmemb) ;;
  Some (out ++ blk).

End Stdio.

Import Stdio.

(** ** The header record *)

Definition TGA_TYPE_MAPPED : Z := 1.
Definition TGA_TYPE_COLOR : Z := 2.
Definition TGA_TYPE_GRAY : Z := 3.

Definition TGA_COMP_NONE : Z := 0.
Definition TGA_COMP_RLE : Z := 1.

Record tga_info : Type := mk_tga_info {
  idLength : Z;
  colorMapType : Z;
  imageType : Z;
  imageCompression : Z;
  colorMapIndex : Z;
  colorMapLength : Z;
  colorMapSize : Z;
  xOrigin : Z;
  yOrigin : Z;
  width : Z;
  height : Z;
  bpp : Z;
  bytes : Z;
  alphaBits : Z;
  flipHoriz : Z;
  flipVert : Z
}.

(** ** Run-length encoder *)

(** The locals of [rle_write]: [from] and [buf] are offsets into the row,
    [out] is the file written so far. *)
Record rle_wstate : Type := mk_rle_wstate {
  w_repeat : Z;
  w_direct : Z;
  w_from : nat;
  w_buf : nat;
  w_out : list Z
}.

(** One turn of the [for (x = 1; x < width; ++x)] loop. *)
Definition rle_write_body (data : list Z) (nbytes : nat) (s : rle_wstate)
  : option rle_wstate :=
  a <- Mem.load data (w_buf s) nbytes ;;
  b <- Mem.load data (w_buf s + nbytes) nbytes ;;
  s1 <- (if negb (Mem.memcmp a b =? 0) then
           (* next pixel is different *)
           if negb (w_repeat s =? 0) then
             o <- fwrite data (w_from s) nbytes 1
                         (putc (128 + w_repeat s) (w_out s)) ;;
             Some (mk_rle_wstate 0 0 (w_buf s + nbytes) (w_buf s) o)
           else
             Some (mk_rle_wstate (w_repeat s) (w_direct s + 1)
                                 (w_from s) (w_buf s) (w_out s))
         else
           (* next pixel is the same *)
           if negb (w_direct s =? 0) then
             o <- fwrite data (w_from s) nbytes (Z.to_nat (w_direct s))
                         (putc (w_direct s - 1) (w_out s)) ;;
             Some (mk_rle_wstate 1 0 (w_buf s) (w_buf s) o)
           else
             Some (mk_rle_wstate (w_repeat s + 1) (w_direct s)
                                 (w_from s) (w_buf s) (w_out s))) ;;
  s2 <- (if w_repeat s1 =? 128 then
           o <- fwrite data (w_from s1) nbytes 1 (putc 255 (w_out s1)) ;;
           Some (mk_rle_wstate 0 0 (w_buf s1 + nbytes) (w_buf s1) o)
         else if w_direct s1 =? 128 then
           o <- fwrite data (w_from s1) nbytes (Z.to_nat (w_direct s1))
                       (putc 127 (w_out s1)) ;;
           Some (mk_rle_wstate 0 0 (w_buf s1 + nbytes) (w_buf s1) o)
         else Some s1) ;;
  Some (mk_rle_wstate (w_repeat s2) (w_direct s2) (w_from s2)
                      (w_buf s2 + nbytes) (w_out s2)).

Fixpoint rle_write_loop (n : nat) (data : list Z) (nbytes : nat)
  (s : rle_wstate) : option rle_wstate :=
  match n with
  | O => Some s
  | S n' =>
      s' <- rle_write_body data nbytes s ;;
      rle_write_loop n' data nbytes s'
  end.

(** [rle_write (fp, buf, width, bytes)]: the file after the row [data] has
    been written to it. *)
Definition rle_write (fp : list Z) (data : list Z) (w nbytes : nat)
  : option (list Z) :=
  s <- rle_write_loop (w - 1) data nbytes (mk_rle_wstate 0 0 0 0 fp) ;;
  if 0 <? w_repeat s then
    fwrite data (w_from s) nbytes 1 (putc (128 + w_repeat s) (w_out s))
  else
    fwrite data (w_from s) nbytes (Z.to_nat (w_direct s + 1))
           (putc (w_direct s) (w_out s)).

(** ** Run-length decoder *)

(** The function-static variables of [rle_read]. *)
Record rle_static : Type := mk_rle_static {
  s_repeat : Z;
  s_direct : Z;
  s_sample : list Z
}.

(** Their values when the program starts. *)
Definition rle_static_init : rle_static := mk_rle_static 0 0 [0; 0; 0; 0].

Record rle_rstate : Type := mk_rle_rstate {
  r_static : rle_static;
  r_fp : FILE;
  r_mem : list Z;
  r_buf : nat
}.

(** A loop body either falls through to the next turn or returns. *)
Inductive flow (S : Type) : Type :=
| Next (s : S)
| Return (v : Z) (s : S).

Arguments Next {S} s.
Arguments Return {S} v s.

(** The second half of a turn of the loop of [rle_read]: one pixel is
    produced, from the sample when a repeat run is open and from the
    stream otherwise. *)
Definition rle_read_pixel (nbytes : nat) (st : rle_static) (fp : FILE)
  (mem : list Z) (buf : nat) : option (flow rle_rstate) :=
  if 0 <? s_repeat st then
    smp <- Mem.load (s_sample st) 0 nbytes ;;
    m <- Mem.store mem buf smp ;;
    Some (Next (mk_rle_rstate
                  (mk_rle_static (s_repeat st - 1) (s_direct st)
                                 (s_sample st))
                  fp m (buf + nbytes)))
  else
    let '(got, items, fp') := fread nbytes 1 fp in
    m <- Mem.store mem buf got ;;
    if (items <? 1)%nat then
      Some (Return EOF (mk_rle_rstate st fp' m buf))
    else
      Some (Next (mk_rle_rstate
                    (mk_rle_static (s_repeat st) (s_direct st - 1)
                                   (s_sample st))
                    fp' m (buf + nbytes))).

(** One turn of the [for (x = 0; x < info->width; x++)] loop: a control
    byte is read when both counters are zero, then the pixel. *)
Definition rle_read_body (nbytes : nat) (s : rle_rstate)
  : option (flow rle_rstate) :=
  let st := r_static s in
  if (s_repeat st =? 0) && (s_direct st =? 0) then
    let '(head, fp1) := getc (r_fp s) in
    if head =? EOF then
      Some (Return EOF (mk_rle_rstate st fp1 (r_mem s) (r_buf s)))
    else if 128 <=? head then
      let '(got, items, fp2) := fread nbytes 1 fp1 in
      smp <- Mem.store (s_sample st) 0 got ;;
      let st' := mk_rle_static (head - 127) (s_direct st) smp in
      if (items <? 1)%nat then
        Some (Return EOF (mk_rle_rstate st' fp2 (r_mem s) (r_buf s)))
      else rle_read_pixel nbytes st' fp2 (r_mem s) (r_buf s)
    else
      rle_read_pixel nbytes
        (mk_rle_static (s_repeat st) (head + 1) (s_sample st)) fp1
        (r_mem s) (r_buf s)
  else rle_read_pixel nbytes st (r_fp s) (r_mem s) (r_buf s).

Fixpoint rle_read_loop (n : nat) (nbytes : nat) (s : rle_rstate)
  : option (Z * rle_rstate) :=
  match n with
  | O => Some (0, s)
  | S n' =>
      f <- rle_read_body nbytes s ;;
      match f with
      | Return v s' => Some (v, s')
      | Next s' => rle_read_loop n' nbytes s'
      end
  end.

(** [rle_read (fp, buf, info)]: the value returned together with the
    static variables, the stream and the row buffer as the call leaves
    them. *)
Definition rle_read (st : rle_static) (fp : FILE) (buf : list Z)
  (info : tga_info) : option (Z * rle_static * FILE * list Z) :=
  r <- rle_read_loop (Z.to_nat (width info)) (Z.to_nat (bytes info))
                     (mk_rle_rstate st fp buf 0) ;;
  let '(v, s) := r in
  Some (v, r_static s, r_fp s, r_mem s).

(** ** Sample converters *)

(** A counted loop whose body may leave defined behaviour. *)
Fixpoint for_loop {S : Type} (n : nat) (body : S -> option S) (s : S)
  : option S :=
  match n with
  | O => Some s
  | S n' => s' <- body s ;; for_loop n' body s'
  end.

(** [flip_line]: [buf] walks up from the first record and [alt] walks
    down from the last one, swapping records, while [x * 2 < width]. *)
Definition flip_line_body (nbytes : nat) (s : list Z * nat * Z)
  : option (list Z * nat * Z) :=
  let '(mem, buf, alt) := s in
  if alt <? 0 then None
  else
    a <- Mem.load mem buf nbytes ;;
    c <- Mem.load mem (Z.to_nat alt) nbytes ;;
    m1 <- Mem.store mem buf c ;;
    m2 <- Mem.store m1 (Z.to_nat alt) a ;;
    Some (m2, (buf + nbytes)%nat, alt - Z.of_nat nbytes).

Definition flip_line (buf : list Z) (info : tga_info) : option (list Z) :=
  s <- for_loop (Z.to_nat ((width info + 1) / 2))
                (flip_line_body (Z.to_nat (bytes info)))
                (buf, 0%nat, bytes info * (width info - 1)) ;;
  Some (fst (fst s)).

(** The three colour channels of one 15/16-bit pixel, and its alpha byte
    when [alpha] is non-zero. *)
Definition upsample_pixel (src0 src1 alpha : Z) : list Z :=
  let d0 := uchar (Z.land (Z.shiftl src1 1) 248) in
  let d0 := uchar (d0 + Z.shiftr d0 5) in
  let d1 := uchar (Z.shiftr (Z.land src0 224) 2
                   + Z.shiftl (Z.land src1 3) 6) in
  let d1 := uchar (d1 + Z.shiftr d1 5) in
  let d2 := uchar (Z.land (Z.shiftl src0 3) 248) in
  let d2 := uchar (d2 + Z.shiftr d2 5) in
  if alpha =? 0 then [d0; d1; d2]
  else [d0; d1; d2; if Z.land src1 128 =? 0 then 0 else 255].

(** The converters share their loop state: the destination array and the
    offsets reached in the destination and in the source. *)
Definition upsample_body (src : list Z) (nbytes : nat) (alpha : Z)
  (s : list Z * nat * nat) : option (list Z * nat * nat) :=
  let '(dest, d, i) := s in
  src0 <- nth_error src i ;;
  src1 <- nth_error src (i + 1) ;;
  dest' <- Mem.store dest d (upsample_pixel src0 src1 alpha) ;;
  Some (dest', (d + (if (alpha =? 0)%Z then 3 else 4))%nat, (i + nbytes)%nat).

Definition upsample (dest : list Z) (doff : nat) (src : list Z)
  (w nbytes : nat) (alpha : Z) : option (list Z) :=
  s <- for_loop w (upsample_body src nbytes alpha) (dest, doff, 0%nat) ;;
  Some (fst (fst s)).

Definition bgr2rgb_body (src : list Z) (nbytes : nat) (alpha : Z)
  (s : list Z * nat * nat) : option (list Z * nat * nat) :=
  let '(dest, d, i) := s in
  src0 <- nth_error src i ;;
  src1 <- nth_error src (i + 1) ;;
  src2 <- nth_error src (i + 2) ;;
  if alpha =? 0 then
    dest' <- Mem.store dest d [src2; src1; src0] ;;
    Some (dest', (d + 3)%nat, (i + nbytes)%nat)
  else
    src3 <- nth_error src (i + 3) ;;
    dest' <- Mem.store dest d [src2; src1; src0; src3] ;;
    Some (dest', (d + 4)%nat, (i + nbytes)%nat).

Definition bgr2rgb (dest : list Z) (doff : nat) (src : list Z)
  (w nbytes : nat) (alpha : Z) : option (list Z) :=
  s <- for_loop w (bgr2rgb_body src nbytes alpha) (dest, doff, 0%nat) ;;
  Some (fst (fst s)).

(** [apply_colormap]: each index byte, less [index], selects an entry of
    3 or 4 bytes of [cmap]; the entry is read wherever that lands. *)
Definition apply_colormap_body (src cmap : list Z) (alpha : bool)
  (index : Z) (s : list Z * nat * nat) : option (list Z * nat * nat) :=
  let '(dest, d, i) := s in
  v <- nth_error src i ;;
  if alpha then
    c0 <- Mem.get cmap ((v - index) * 4) ;;
    c1 <- Mem.get cmap ((v - index) * 4 + 1) ;;
    c2 <- Mem.get cmap ((v - index) * 4 + 2) ;;
    c3 <- Mem.get cmap ((v - index) * 4 + 3) ;;
    dest' <- Mem.store dest d [c0; c1; c2; c3] ;;
    Some (dest', (d + 4)%nat, (i + 1)%nat)
  else
    c0 <- Mem.get cmap ((v - index) * 3) ;;
    c1 <- Mem.get cmap ((v - index) * 3 + 1) ;;
    c2 <- Mem.get cmap ((v - index) * 3 + 2) ;;
    dest' <- Mem.store dest d [c0; c1; c2] ;;
    Some (dest', (d + 3)%nat, (i + 1)%nat).

Definition apply_colormap (dest : list Z) (doff : nat) (src : list Z)
  (w : nat) (cmap : list Z) (alpha : bool) (index : Z) : option (list Z) :=
  s <- for_loop w (apply_colormap_body src cmap alpha index)
                (dest, doff, 0%nat) ;;
  Some (fst (fst s)).

Definition apply_index_body (src : list Z) (index : Z)
  (s : list Z * nat * nat) : option (list Z * nat * nat) :=
  let '(dest, d, i) := s in
  v <- nth_error src i ;;
  dest' <- Mem.store dest d [uchar (v - index)] ;;
  Some (dest', (d + 1)%nat, (i + 1)%nat).

Definition apply_index (dest : list Z) (doff : nat) (src : list Z)
  (w : nat) (index : Z) : option (list Z) :=
  s <- for_loop w (apply_index_body src index) (dest, doff, 0%nat) ;;
  Some (fst (fst s)).

(** ** Reading one row *)

(** What a row read leaves behind: the static variables of [rle_read],
    the stream, the tile buffer [data] and the row buffer [buf]. *)
Record line_state : Type := mk_line_state {
  l_static : rle_static;
  l_fp : FILE;
  l_data : list Z;
  l_buf : list Z
}.

(** [read_line (fp, row, buf, info, bpp, convert_cmap)], with [row] the
    offset of the row in [data] and [layer_bpp] the argument [bpp].  The
    values returned by [rle_read] and by [fread] are not looked at. *)
Definition read_line (s : line_state) (row : nat) (info : tga_info)
  (layer_bpp : nat) (convert_cmap : option (list Z)) : option line_state :=
  r <- (if imageCompression info =? TGA_COMP_RLE then
          r <- rle_read (l_static s) (l_fp s) (l_buf s) info ;;
          let '(_, st, fp, buf) := r in
          Some (st, fp, buf)
        else
          let '(got, _, fp) :=
            fread (Z.to_nat (bytes info)) (Z.to_nat (width info)) (l_fp s) in
          buf <- Mem.store (l_buf s) 0 got ;;
          Some (l_static s, fp, buf)) ;;
  let '(st, fp, buf) := r in
  buf <- (if negb (flipHoriz info =? 0) then flip_line buf info
          else Some buf) ;;
  let w := Z.to_nat (width info) in
  let nbytes := Z.to_nat (bytes info) in
  data <- (if imageType info =? TGA_TYPE_COLOR then
             if (bpp info =? 16) || (bpp info =? 15) then
               upsample (l_data s) row buf w nbytes (alphaBits info)
             else
               bgr2rgb (l_data s) row buf w nbytes (alphaBits info)
           else
             match convert_cmap with
             | Some cmap =>
                 apply_colormap (l_data s) row buf w cmap
                                (0 <? alphaBits info) (colorMapIndex info)
             | None =>
                 if imageType info =? TGA_TYPE_MAPPED then
                   (* g_assert (bpp == 1) *)
                   if (layer_bpp =? 1)%nat then
                     apply_index (l_data s) row buf w (colorMapIndex info)
                   else None
                 else
                   blk <- Mem.load buf 0 (w * layer_bpp) ;;
                   Mem.store (l_data s) row blk
             end) ;;
  Some (mk_line_state st fp data buf).

(** ** The host application *)

Inductive GimpImageBaseType : Type := GIMP_RGB | GIMP_GRAY | GIMP_INDEXED.

Inductive GimpImageType : Type :=
| GIMP_RGB_IMAGE
| GIMP_RGBA_IMAGE
| GIMP_GRAY_IMAGE
| GIMP_GRAYA_IMAGE
| GIMP_INDEXED_IMAGE
| GIMP_INDEXEDA_IMAGE.

(** What the plug-in obtains from libgimp and glib and does not define
    itself: the tile height, the bytes per pixel of a layer of a given
    type, and the byte found in cell [i] of a block that [g_new] has just
    handed out, which the allocator does not initialise. *)
Record host : Type := mk_host {
  gimp_tile_height : nat;
  gimp_drawable_get_bpp : GimpImageType -> nat;
  g_new_cell : nat -> Z
}.

Definition g_new (h : host) (n : nat) : list Z :=
  map (g_new_cell h) (seq 0 n).

(** The image handed back to the host: its size and types, the palette
    given to [gimp_image_set_colormap], and the calls of
    [gegl_buffer_set] in order, each with the first row of its rectangle,
    the number of rows and the bytes passed. *)
Record gimp_image : Type := mk_gimp_image {
  img_width : Z;
  img_height : Z;
  img_base_type : GimpImageBaseType;
  img_layer_type : GimpImageType;
  img_colormap : option (list Z * Z);
  img_pixels : list (Z * nat * list Z)
}.

(** The messages with which the loader gives up. *)
Inductive message : Type :=
| Cannot_read_footer
| Cannot_read_extension
| Cannot_read_header
| Unhandled_sub_format
| Unknown_image_type
| Invalid_color_map_type
| Truncated_or_corrupted
| Unsupported_colormap_depth.

(** The outcome of a load: an image, [NULL] after a message, or a run
    that leaves defined behaviour (an access outside an array, a failed
    assertion, a division by zero or a loop that does not end). *)
Inductive loaded (A : Type) : Type :=
| Image (a : A)
| Failed (m : message)
| Undefined.

Arguments Image {A} a.
Arguments Failed {A} m.
Arguments Undefined {A}.

(** ** [ReadImage] *)

(** The first [switch] of [ReadImage]: the base type of the image, the
    type of its layer, and the sizes of [convert_cmap] and [gimp_cmap]
    where they are allocated. *)
Definition image_types (info : tga_info)
  : GimpImageBaseType * GimpImageType * option nat * option nat :=
  let len := Z.to_nat (colorMapLength info) in
  if imageType info =? TGA_TYPE_MAPPED then
    if 24 <? colorMapSize info then
      (GIMP_RGB, GIMP_RGBA_IMAGE, Some (len * 4)%nat, None)
    else if 256 <? colorMapIndex info + colorMapLength info then
      (GIMP_RGB, GIMP_RGB_IMAGE, Some (len * 3)%nat, None)
    else if 0 <? alphaBits info then
      (GIMP_RGB, GIMP_RGBA_IMAGE, Some (len * 4)%nat, None)
    else
      (GIMP_INDEXED, GIMP_INDEXED_IMAGE, None, Some (len * 3)%nat)
  else if imageType info =? TGA_TYPE_GRAY then
    (GIMP_GRAY,
     if negb (alphaBits info =? 0) then GIMP_GRAYA_IMAGE else GIMP_GRAY_IMAGE,
     None, None)
  else if imageType info =? TGA_TYPE_COLOR then
    (GIMP_RGB,
     if negb (alphaBits info =? 0) then GIMP_RGBA_IMAGE else GIMP_RGB_IMAGE,
     None, None)
  else (GIMP_RGB, GIMP_RGB_IMAGE, None, None).

(** The block "Handle colormap": the stream after the colormap, then
    [convert_cmap] and [gimp_cmap]. *)
Definition read_colormap (h : host) (info : tga_info) (fp : FILE)
  (convert_size gimp_size : option nat)
  : loaded (FILE * option (list Z) * option (list Z)) :=
  if imageType info =? TGA_TYPE_MAPPED then
    let cmap_bytes := Z.to_nat ((colorMapSize info + 7) / 8) in
    let len := Z.to_nat (colorMapLength info) in
    if (cmap_bytes <=? 4)%nat then
      let '(tga_cmap, items, fp') := fread (len * cmap_bytes) 1 fp in
      if (items =? 1)%nat then
        match convert_size, gimp_size with
        | Some n, _ =>
            let convert_cmap := g_new h n in
            if colorMapSize info =? 32 then
              match bgr2rgb convert_cmap 0 tga_cmap len cmap_bytes 1 with
              | Some c => Image (fp', Some c, None)
              | None => Undefined
              end
            else if colorMapSize info =? 24 then
              match bgr2rgb convert_cmap 0 tga_cmap len cmap_bytes 0 with
              | Some c => Image (fp', Some c, None)
              | None => Undefined
              end
            else if (colorMapSize info =? 16) || (colorMapSize info =? 15)
            then
              match upsample convert_cmap 0 tga_cmap len cmap_bytes
                             (alphaBits info) with
              | Some c => Image (fp', Some c, None)
              | None => Undefined
              end
            else Failed Unsupported_colormap_depth
        | None, Some n =>
            let gimp_cmap := g_new h n in
            if colorMapSize info =? 24 then
              match bgr2rgb gimp_cmap 0 tga_cmap len cmap_bytes 0 with
              | Some c => Image (fp', None, Some c)
              | None => Undefined
              end
            else if (colorMapSize info =? 16) || (colorMapSize info =? 15)
            then
              match upsample gimp_cmap 0 tga_cmap len cmap_bytes
                             (alphaBits info) with
              | Some c => Image (fp', None, Some c)
              | None => Undefined
              end
            else Failed Unsupported_colormap_depth
        | None, None => Undefined
        end
      else Failed Truncated_or_corrupted
    else Failed Truncated_or_corrupted
  else Image (fp, None, None).

(** The rows of one tile, read in the order of [offsets]. *)
Fixpoint read_rows (info : tga_info) (layer_bpp : nat)
  (convert_cmap : option (list Z)) (offsets : list nat) (s : line_state)
  : option line_state :=
  match offsets with
  | [] => Some s
  | row :: rest =>
      s' <- read_line s row info layer_bpp convert_cmap ;;
      read_rows info layer_bpp convert_cmap rest s'
  end.

(** The loop over tiles of an image stored bottom-up.  [fuel] bounds the
    number of turns. *)
Fixpoint tiles_flipped (fuel : nat) (max_tileheight : nat) (info : tga_info)
  (layer_bpp : nat) (convert_cmap : option (list Z)) (i : nat)
  (s : line_state) (sets : list (Z * nat * list Z))
  : option (line_state * list (Z * nat * list Z)) :=
  let w := Z.to_nat (width info) in
  let ht := Z.to_nat (height info) in
  if (i <? ht)%nat then
    match fuel with
    | O => None
    | S fuel' =>
        th <- (if negb (i =? 0)%nat then Some max_tileheight
               else if (max_tileheight =? 0)%nat then None
                    else Some (ht mod max_tileheight)%nat) ;;
        let th := if (th =? 0)%nat then max_tileheight else th in
        s' <- read_rows info layer_bpp convert_cmap
                (map (fun y => w * layer_bpp * (th - y))%nat (seq 1 th)) s ;;
        blk <- Mem.load (l_data s') 0 (w * th * layer_bpp) ;;
        tiles_flipped fuel' max_tileheight info layer_bpp convert_cmap
          (i + th) s'
          (sets ++ [(height info - Z.of_nat i - Z.of_nat th, th, blk)])
    end
  else Some (s, sets).

(** The loop over tiles of an image stored top-down. *)
Fixpoint tiles_plain (fuel : nat) (max_tileheight : nat) (info : tga_info)
  (layer_bpp : nat) (convert_cmap : option (list Z)) (i : nat)
  (s : line_state) (sets : list (Z * nat * list Z))
  : option (line_state * list (Z * nat * list Z)) :=
  let w := Z.to_nat (width info) in
  let ht := Z.to_nat (height info) in
  if (i <? ht)%nat then
    match fuel with
    | O => None
    | S fuel' =>
        let th := Nat.min max_tileheight (ht - i) in
        s' <- read_rows info layer_bpp convert_cmap
                (map (fun y => w * layer_bpp * y)%nat (seq 0 th)) s ;;
        blk <- Mem.load (l_data s') 0 (w * th * layer_bpp) ;;
        tiles_plain fuel' max_tileheight info layer_bpp convert_cmap
          (i + max_tileheight) s'
          (sets ++ [(Z.of_nat i, th, blk)])
    end
  else Some (s, sets).

(** [ReadImage (fp, info, file)], entered with the static variables of
    [rle_read] as [st] holds them. *)
Definition ReadImage (h : host) (st : rle_static) (fp : FILE)
  (info : tga_info) : loaded gimp_image :=
  let '(itype, dtype, convert_size, gimp_size) := image_types info in
  match read_colormap h info fp convert_size gimp_size with
  | Failed m => Failed m
  | Undefined => Undefined
  | Image (fp', convert_cmap, gimp_cmap) =>
      let layer_bpp := gimp_drawable_get_bpp h dtype in
      let w := Z.to_nat (width info) in
      let data := g_new h (w * gimp_tile_height h * layer_bpp) in
      let buf := g_new h (w * Z.to_nat (bytes info)) in
      let s := mk_line_state st fp' data buf in
      match
        (if negb (flipVert info =? 0) then
           tiles_flipped (Z.to_nat (height info)) (gimp_tile_height h) info
                         layer_bpp convert_cmap 0 s []
         else
           tiles_plain (Z.to_nat (height info)) (gimp_tile_height h) info
                       layer_bpp convert_cmap 0 s [])
      with
      | None => Undefined
      | Some (_, sets) =>
          Image (mk_gimp_image (width info) (height info) itype dtype
                   (option_map (fun c => (c, colorMapLength info)) gimp_cmap)
                   sets)
      end
  end.

(** ** [load_image] *)

(** TRUEVISION-XFILE magic signature string *)
Definition magic : list Z :=
  [0x54; 0x52; 0x55; 0x45; 0x56; 0x49; 0x53; 0x49; 0x4f;
   0x4e; 0x2d; 0x58; 0x46; 0x49; 0x4c; 0x45; 0x2e; 0x0].

Definition byte_at (a : list Z) (i : nat) : Z := nth i a 0.

(** The block "Is file big enough for a footer?": the stream as the
    block leaves it, or the message with which the load is given up.
    [offset] is a [long], taken to be 64 bits wide. *)
Definition read_footer (fp : FILE) : loaded FILE :=
  let '(r, fp1) := fseek_end fp (-26) in
  if r =? 0 then
    let '(footer, items, fp2) := fread 26 1 fp1 in
    if negb (items =? 1)%nat then Failed Cannot_read_footer
    else if Mem.memcmp (skipn 8 footer) magic =? 0 then
      let offset := byte_at footer 0 + byte_at footer 1 * 256
                    + byte_at footer 2 * 65536
                    + byte_at footer 3 * 16777216 in
      if negb (offset =? 0) then
        let '(r3, fp3) := fseek_set fp2 offset in
        if negb (r3 =? 0) then Failed Cannot_read_extension
        else
          let '(_, items4, fp4) := fread 495 1 fp3 in
          if negb (items4 =? 1)%nat then Failed Cannot_read_extension
          else Image fp4
      else Image fp2
    else Image fp2
  else Image fp1.

(** The fields of the 18-byte header.  An unknown type code leaves
    [imageCompression] unset; it is not used afterwards. *)
Definition parse_header (header : list Z) : tga_info :=
  let code := byte_at header 2 in
  let '(ty, comp) :=
    if code =? 1 then (TGA_TYPE_MAPPED, TGA_COMP_NONE)
    else if code =? 2 then (TGA_TYPE_COLOR, TGA_COMP_NONE)
    else if code =? 3 then (TGA_TYPE_GRAY, TGA_COMP_NONE)
    else if code =? 9 then (TGA_TYPE_MAPPED, TGA_COMP_RLE)
    else if code =? 10 then (TGA_TYPE_COLOR, TGA_COMP_RLE)
    else if code =? 11 then (TGA_TYPE_GRAY, TGA_COMP_RLE)
    else (0, TGA_COMP_NONE) in
  mk_tga_info
    (byte_at header 0)
    (byte_at header 1)
    ty comp
    (byte_at header 3 + byte_at header 4 * 256)
    (byte_at header 5 + byte_at header 6 * 256)
    (byte_at header 7)
    (byte_at header 8 + byte_at header 9 * 256)
    (byte_at header 10 + byte_at header 11 * 256)
    (byte_at header 12 + byte_at header 13 * 256)
    (byte_at header 14 + byte_at header 15 * 256)
    (byte_at header 16)
    (uchar ((byte_at header 16 + 7) / 8))
    (Z.land (byte_at header 17) 15)
    (if negb (Z.land (byte_at header 17) 16 =? 0) then 1 else 0)
    (if negb (Z.land (byte_at header 17) 32 =? 0) then 0 else 1).

Definition set_alphaBits (info : tga_info) (a : Z) : tga_info :=
  mk_tga_info (idLength info) (colorMapType info) (imageType info)
    (imageCompression info) (colorMapIndex info) (colorMapLength info)
    (colorMapSize info) (xOrigin info) (yOrigin info) (width info)
    (height info) (bpp info) (bytes info) a (flipHoriz info)
    (flipVert info).

(** The two hacks for files with incorrect headers. *)
Definition fix_alphaBits (info : tga_info) : tga_info :=
  let info := if alphaBits info =? bpp info then set_alphaBits info 0
              else info in
  if alphaBits info =? 0 then
    let info := if (imageType info =? TGA_TYPE_MAPPED)
                   && (colorMapSize info =? 32)
                then set_alphaBits info 8 else info in
    let info := if (imageType info =? TGA_TYPE_COLOR) && (bpp info =? 32)
                then set_alphaBits info 8 else info in
    let info := if (imageType info =? TGA_TYPE_GRAY) && (bpp info =? 16)
                then set_alphaBits info 8 else info in
    info
  else info.

(** The [switch] on the image type and the check for "plausible but
    unhandled formats": the message of the check that refuses the
    header, if one does. *)
Definition check_sub_format (info : tga_info) : option message :=
  let by_type :=
    if imageType info =? TGA_TYPE_MAPPED then
      if negb (bpp info =? 8) then Some Unhandled_sub_format else None
    else if imageType info =? TGA_TYPE_COLOR then
      if (negb (bpp info =? 15) && negb (bpp info =? 16) &&
          negb (bpp info =? 24) && negb (bpp info =? 32))
         || (((bpp info =? 15) || (bpp info =? 24))
             && negb (alphaBits info =? 0))
         || ((bpp info =? 16) && negb (alphaBits info =? 1)
             && negb (alphaBits info =? 0))
         || ((bpp info =? 32) && negb (alphaBits info =? 8))
      then Some Unhandled_sub_format else None
    else if imageType info =? TGA_TYPE_GRAY then
      if negb (bpp info =? 8)
         && (negb (alphaBits info =? 8)
             || (negb (bpp info =? 16) && negb (bpp info =? 15)))
      then Some Unhandled_sub_format else None
    else Some Unknown_image_type in
  match by_type with
  | Some m => Some m
  | None =>
      if negb (bytes info * 8 =? bpp info) && negb (bpp info =? 15)
      then Some Unhandled_sub_format else None
  end.

(** "Check that we have a color map only when we need it." *)
Definition check_color_map_type (info : tga_info) : option message :=
  if (imageType info =? TGA_TYPE_MAPPED) && negb (colorMapType info =? 1)
  then Some Invalid_color_map_type
  else if negb (imageType info =? TGA_TYPE_MAPPED)
          && negb (colorMapType info =? 0)
  then Some Invalid_color_map_type
  else None.

(** The load from the re-seek to offset 0 on. *)
Definition load_from_start (h : host) (st : rle_static) (fp : FILE)
  : loaded gimp_image :=
  let '(r, fp1) := fseek_set fp 0 in
  if negb (r =? 0) then Failed Cannot_read_header
  else
    let '(header, items, fp2) := fread 18 1 fp1 in
    if negb (items =? 1)%nat then Failed Cannot_read_header
    else
      let info := fix_alphaBits (parse_header header) in
      match check_sub_format info with
      | Some m => Failed m
      | None =>
          match check_color_map_type info with
          | Some m => Failed m
          | None =>
              (* Skip the image ID field. *)
              let '(r3, fp3) :=
                if negb (idLength info =? 0)
                then fseek_cur fp2 (idLength info) else (0, fp2) in
              if negb (r3 =? 0) then Failed Truncated_or_corrupted
              else ReadImage h st fp3 info
          end
      end.

(** [load_image] on a file with the bytes [file]. *)
Definition load_image (h : host) (st : rle_static) (file : list Z)
  : loaded gimp_image :=
  match read_footer (fopen file) with
  | Failed m => Failed m
  | Undefined => Undefined
  | Image fp => load_from_start h st fp
  end.

(** ** [save_image] *)

Inductive TgaOrigin : Type := ORIGIN_TOP_LEFT | ORIGIN_BOTTOM_LEFT.

(** [origin] used as a condition: [ORIGIN_TOP_LEFT] is 0. *)
Definition origin_set (o : TgaOrigin) : bool :=
  match o with
  | ORIGIN_TOP_LEFT => false
  | ORIGIN_BOTTOM_LEFT => true
  end.

(** The drawable to export as the host presents it: its type and size,
    the palette of the image with its number of colours, and for each row
    the bytes that [gegl_buffer_get] delivers in [pixels] (index and
    alpha for each pixel of an indexed drawable with alpha). *)
Record drawable : Type := mk_drawable {
  d_type : GimpImageType;
  d_width : Z;
  d_height : Z;
  d_num_colors : Z;
  d_cmap : list Z;
  d_row : Z -> list Z
}.

Definition is_type (a b : GimpImageType) : bool :=
  match a, b with
  | GIMP_RGB_IMAGE, GIMP_RGB_IMAGE
  | GIMP_RGBA_IMAGE, GIMP_RGBA_IMAGE
  | GIMP_GRAY_IMAGE, GIMP_GRAY_IMAGE
  | GIMP_GRAYA_IMAGE, GIMP_GRAYA_IMAGE
  | GIMP_INDEXED_IMAGE, GIMP_INDEXED_IMAGE
  | GIMP_INDEXEDA_IMAGE, GIMP_INDEXEDA_IMAGE => true
  | _, _ => false
  end.

(** [out_bpp] as the [switch] on the drawable type sets it. *)
Definition out_bpp (dtype : GimpImageType) : nat :=
  match dtype with
  | GIMP_INDEXED_IMAGE | GIMP_INDEXEDA_IMAGE | GIMP_GRAY_IMAGE => 1
  | GIMP_GRAYA_IMAGE => 2
  | GIMP_RGB_IMAGE => 3
  | GIMP_RGBA_IMAGE => 4
  end.

(** The 18 bytes of the header; [%] and [/] are those of C on [gint],
    and each value is stored in a [guchar]. *)
Definition save_header (d : drawable) (rle : bool) (origin : TgaOrigin)
  : list Z :=
  let num_colors := d_num_colors d in
  let h1_7 :=
    if is_type (d_type d) GIMP_INDEXED_IMAGE then
      [1; if rle then 9 else 1; 0; 0;
       Z.rem num_colors 256; Z.quot num_colors 256; 24]
    else if is_type (d_type d) GIMP_INDEXEDA_IMAGE then
      [1; if rle then 9 else 1; 0; 0;
       Z.rem (num_colors + 1) 256; Z.quot (num_colors + 1) 256; 32]
    else
      [0;
       if is_type (d_type d) GIMP_RGB_IMAGE
          || is_type (d_type d) GIMP_RGBA_IMAGE
       then (if rle then 10 else 2) else (if rle then 11 else 3);
       0; 0; 0; 0; 0] in
  let h16_17 :=
    match d_type d with
    | GIMP_INDEXED_IMAGE | GIMP_INDEXEDA_IMAGE | GIMP_GRAY_IMAGE =>
        [8; if origin_set origin then 0 else 0x20]
    | GIMP_GRAYA_IMAGE => [16; if origin_set origin then 8 else 0x28]
    | GIMP_RGB_IMAGE => [24; if origin_set origin then 0 else 0x20]
    | GIMP_RGBA_IMAGE => [32; if origin_set origin then 8 else 0x28]
    end in
  map uchar
    ([0] ++ h1_7
     ++ [0; 0;
         if origin_set origin then 0 else Z.rem (d_height d) 256;
         if origin_set origin then 0 else Z.quot (d_height d) 256;
         Z.rem (d_width d) 256; Z.quot (d_width d) 256;
         Z.rem (d_height d) 256; Z.quot (d_height d) 256]
     ++ h16_17).

(** One turn of "write out palette"; [alpha] tells whether the byte 255
    follows the three colour bytes. *)
Definition save_palette_body (gimp_cmap : list Z) (alpha : bool)
  (s : list Z * Z) : option (list Z * Z) :=
  let '(fp, i) := s in
  c2 <- Mem.get gimp_cmap (i * 3 + 2) ;;
  c1 <- Mem.get gimp_cmap (i * 3 + 1) ;;
  c0 <- Mem.get gimp_cmap (i * 3 + 0) ;;
  let fp := putc c0 (putc c1 (putc c2 fp)) in
  Some (if alpha then putc 255 fp else fp, i + 1).

Definition save_palette (d : drawable) (fp : list Z) : option (list Z) :=
  if is_type (d_type d) GIMP_INDEXED_IMAGE then
    s <- for_loop (Z.to_nat (d_num_colors d))
                  (save_palette_body (d_cmap d) false) (fp, 0) ;;
    Some (fst s)
  else if is_type (d_type d) GIMP_INDEXEDA_IMAGE then
    s <- for_loop (Z.to_nat (d_num_colors d))
                  (save_palette_body (d_cmap d) true) (fp, 0) ;;
    Some (putc 0 (putc 0 (putc 0 (putc 0 (fst s)))))
  else Some fp.

(** One turn of the loop that turns index and alpha into an index. *)
Definition save_indexeda_body (pixels : list Z) (num_colors : Z)
  (s : list Z * nat) : option (list Z * nat) :=
  let '(data, i) := s in
  a <- nth_error pixels (i * 2 + 1) ;;
  data' <- (if 127 <? a then
              v <- nth_error pixels (i * 2) ;;
              Mem.store data i [v]
            else Mem.store data i [uchar num_colors]) ;;
  Some (data', S i).

(** The conversion of one row of [pixels] into [data]. *)
Definition save_convert (d : drawable) (pixels data : list Z)
  : option (list Z) :=
  let w := Z.to_nat (d_width d) in
  let bpp := out_bpp (d_type d) in
  if is_type (d_type d) GIMP_RGB_IMAGE then
    bgr2rgb data 0 pixels w bpp 0
  else if is_type (d_type d) GIMP_RGBA_IMAGE then
    bgr2rgb data 0 pixels w bpp 1
  else if is_type (d_type d) GIMP_INDEXEDA_IMAGE then
    s <- for_loop w (save_indexeda_body pixels (d_num_colors d))
                  (data, 0%nat) ;;
    Some (fst s)
  else
    blk <- Mem.load pixels 0 (w * bpp) ;;
    Mem.store data 0 blk.

(** [gegl_buffer_get (buffer, GEGL_RECTANGLE (0, y, width, 1), 1.0,
    format, pixels, ...)]: the bytes of row [y] of the drawable are
    written to the start of the block [pixels]. *)
Definition gegl_buffer_get (d : drawable) (y : Z) (pixels : list Z)
  : option (list Z) :=
  Mem.store pixels 0 (d_row d y).

(** One turn of the loop over rows: the file, the blocks [pixels] and
    [data], and the row counter. *)
Definition save_row_body (d : drawable) (rle : bool) (origin : TgaOrigin)
  (s : list Z * list Z * list Z * Z)
  : option (list Z * list Z * list Z * Z) :=
  let '(fp, pixels, data, row) := s in
  pixels' <- gegl_buffer_get d (if origin_set origin
                                then d_height d - (row + 1)
                                else row) pixels ;;
  data' <- save_convert d pixels' data ;;
  fp' <- (if rle then
            rle_write fp data' (Z.to_nat (d_width d)) (out_bpp (d_type d))
          else
            fwrite data' 0
                   (Z.to_nat (d_width d) * out_bpp (d_type d)) 1 fp) ;;
  Some (fp', pixels', data', row + 1).

(** The loop over rows.  When a turn reads or writes outside an array
    the loop stops with the bytes that the turns before it have
    written. *)
Fixpoint save_rows (n : nat) (d : drawable) (rle : bool)
  (origin : TgaOrigin) (s : list Z * list Z * list Z * Z)
  : list Z * list Z * list Z * Z + list Z :=
  match n with
  | O => inl s
  | S n' =>
      match save_row_body d rle origin s with
      | Some s' => save_rows n' d rle origin s'
      | None => inr (fst (fst (fst s)))
      end
  end.

(** What an export leaves behind: the file as [fclose] leaves it, or,
    when the palette loop or a turn of the row loop accesses an array
    outside its bounds (which leaves defined behaviour), the bytes that
    the steps completed before it have written. *)
Inductive saved : Type :=
| Saved (file : list Z)
| Overrun (written : list Z).

(** [save_image]: the header, the palette, the blocks [pixels] and
    [data] of [width * out_bpp] bytes each, the rows and the footer. *)
Definition save_image (h : host) (d : drawable) (rle : bool)
  (origin : TgaOrigin) : saved :=
  let header := save_header d rle origin in
  match save_palette d header with
  | None => Overrun header
  | Some fp =>
      let pixels := g_new h (Z.to_nat (d_width d) * out_bpp (d_type d)) in
      let data := g_new h (Z.to_nat (d_width d) * out_bpp (d_type d)) in
      match save_rows (Z.to_nat (d_height d)) d rle origin
                      (fp, pixels, data, 0) with
      | inl (fp', _, _, _) => Saved (fp' ++ repeat 0 8 ++ magic)
      | inr written => Overrun written
      end
  end.

(** * Notions used in the statements *)

(** ** Records of a row and packets *)

(** [seg data b f n]: the [n] records of [b] bytes that start at record
    [f] of the row [data]. *)
Definition seg (data : list Z) (b f n : nat) : list Z :=
  firstn (n * b) (skipn (f * b) data).

(** A run-length packet as the file format defines it: a repeat packet
    carries one record and a count, a direct packet carries its records
    literally. *)
Inductive packet : Type :=
| Repeat (n : nat) (rec : list Z)
| Direct (n : nat) (payload : list Z).

Definition declared_count (p : packet) : nat :=
  match p with Repeat n _ | Direct n _ => n end.

Definition control_byte (p : packet) : Z :=
  match p with
  | Repeat n _ => 127 + Z.of_nat n
  | Direct n _ => Z.of_nat n - 1
  end.

Definition packet_payload (p : packet) : list Z :=
  match p with Repeat _ pl | Direct _ pl => pl end.

(** The bytes of a packet in the file. *)
Definition packet_bytes (p : packet) : list Z :=
  control_byte p :: packet_payload p.

(** The pixels a packet stands for. *)
Definition packet_pixels (p : packet) : list Z :=
  match p with
  | Repeat n rec => concat (repeat rec n)
  | Direct _ pl => pl
  end.

(** A packet of whole records: between 1 and 128 pixels, and a payload of
    exactly one record (repeat) or exactly [n] records (direct). *)
Definition whole_packet (b : nat) (p : packet) : Prop :=
  (1 <= declared_count p <= 128)%nat /\
  length (packet_payload p) =
    match p with Repeat _ _ => b | Direct n _ => (n * b)%nat end.

Definition total_count (ps : list packet) : nat :=
  list_sum (map declared_count ps).

(** ** Loop invariants of the run-length coder *)

(** What has been written after [k] turns of the loop of [rle_write]:
    packets for the records before [from], and an open run from [from]
    up to record [k]. *)
Definition write_inv (data : list Z) (b : nat) (out0 : list Z) (k : nat)
  (s : rle_wstate) : Prop :=
  w_buf s = (k * b)%nat /\
  exists (f : nat) (ps : list packet),
    w_from s = (f * b)%nat /\ (f <= k)%nat /\
    w_out s = out0 ++ flat_map packet_bytes ps /\
    Forall (whole_packet b) ps /\
    flat_map packet_pixels ps = firstn (f * b) data /\
    total_count ps = f /\
    0 <= w_repeat s /\ 0 <= w_direct s /\
    w_repeat s + w_direct s = Z.of_nat (k - f) /\
    (k - f < 128)%nat /\
    (w_repeat s = 0 \/ w_direct s = 0) /\
    (w_direct s = 0 ->
     forall i, (i <= k - f)%nat -> seg data b (f + i) 1 = seg data b f 1).

(** [n] turns of the loop of [rle_read], none of which returns. *)
Fixpoint rle_read_steps (n b : nat) (s : rle_rstate) : option rle_rstate :=
  match n with
  | O => Some s
  | S n' =>
      match rle_read_body b s with
      | Some (Next s') => rle_read_steps n' b s'
      | _ => None
      end
  end.

(** ** Channels, tables and ranges *)

(** The 5-bit field number [c] of the 16-bit little-endian pixel
    [src0 + 256 * src1]: field 0 is red (bits 10-14), field 1 green
    (bits 5-9), field 2 blue (bits 0-4). *)
Definition channel (c : nat) (src0 src1 : Z) : Z :=
  Z.land (Z.shiftr (src0 + 256 * src1) (5 * (2 - Z.of_nat c))) 31.

(** A 5-bit value in the top five bits of a byte, its top three bits
    repeated in the low three. *)
Definition bit_spread (v : Z) : Z := Z.shiftl v 3 + Z.shiftr v 2.

Definition upsample_channel_ok (src0 src1 : Z) : bool :=
  forallb (fun alpha =>
    forallb (fun c =>
      nth c (upsample_pixel src0 src1 alpha) (-1)
      =? bit_spread (channel c src0 src1))
    [0; 1; 2]%nat) [0; 1].

Definition bytes_below (n : nat) : list Z := map Z.of_nat (seq 0 n).

(** The combinations of image type, bits per pixel and alpha bits that
    the specification lists as supported. *)
Definition sub_format_table (kind bits alpha : Z) : bool :=
  if kind =? TGA_TYPE_MAPPED then bits =? 8
  else if kind =? TGA_TYPE_COLOR then
    (((bits =? 15) || (bits =? 24)) && (alpha =? 0))
    || ((bits =? 16) && ((alpha =? 0) || (alpha =? 1)))
    || ((bits =? 32) && (alpha =? 8))
  else if kind =? TGA_TYPE_GRAY then
    (bits =? 8) || (((bits =? 15) || (bits =? 16)) && (alpha =? 8))
  else false.

Definition is_byte (z : Z) : Prop := 0 <= z < 256.

(** The last 26 bytes of a file and the extension offset they hold. *)
Definition footer_of (file : list Z) : list Z :=
  skipn (length file - 26) file.

Definition extension_offset (footer : list Z) : Z :=
  byte_at footer 0 + byte_at footer 1 * 256 + byte_at footer 2 * 65536
  + byte_at footer 3 * 16777216.

(** The file ends in a footer with the signature whose extension offset
    is not zero and leaves fewer than 495 bytes before the end of the
    file. *)
Definition extension_unreadable (file : list Z) : Prop :=
  (26 <= length file)%nat /\
  skipn 8 (footer_of file) = magic /\
  extension_offset (footer_of file) <> 0 /\
  Z.of_nat (length file) < extension_offset (footer_of file) + 495.

Definition entry_width (alpha : bool) : nat := if alpha then 4 else 3.

(** Entry [e] of a converted colormap. *)
Definition colormap_entry (cmap : list Z) (alpha : bool) (e : Z) : list Z :=
  map (fun j => nth (Z.to_nat (e * Z.of_nat (entry_width alpha) + j)) cmap 0)
      (bytes_below (entry_width alpha)).

(** The index byte [v] selects one of the [len] entries that start at
    [index]. *)
Definition index_in_range (index len v : Z) : bool :=
  (index <=? v) && (v <? index + len).

(** The bytes that [apply_colormap] reads for the index byte [v] lie
    inside [cmap]. *)
Definition entry_inside (cmap : list Z) (alpha : bool) (index v : Z) : bool :=
  (0 <=? (v - index) * Z.of_nat (entry_width alpha))
  && ((v - index) * Z.of_nat (entry_width alpha)
      + Z.of_nat (entry_width alpha) <=? Z.of_nat (length cmap)).

(** Palette entry [i] as the file stores it: blue, green, red, and the
    byte 255 when [alpha] is set. *)
Definition palette_entry (gimp_cmap : list Z) (alpha : bool) (i : nat)
  : list Z :=
  [uchar (nth (i * 3 + 2) gimp_cmap 0); uchar (nth (i * 3 + 1) gimp_cmap 0);
   uchar (nth (i * 3) gimp_cmap 0)]
  ++ (if alpha then [255] else []).

(** The bytes that an export has written. *)
Definition written (r : saved) : list Z :=
  match r with
  | Saved file => file
  | Overrun w => w
  end.

(** Entry [k] of a palette of 4-byte entries as written to the file. *)
Definition entry_at (palette : list Z) (k : nat) : list Z :=
  firstn 4 (skipn (4 * k) palette).

(** ** Concrete files and drawables *)

(** Modelled from the spec: [gimp_drawable_get_bpp], [gimp_tile_height]
    and [g_new] belong to libgimp and glib and are not part of this
    file.  The host below gives a layer one byte per channel (1 to 4
    channels, as the resolved pixel formats of the specification have),
    works in stripes of 64 rows and hands out zeroed memory. *)
Definition reference_host : host :=
  mk_host 64
    (fun t => match t with
              | GIMP_RGB_IMAGE => 3
              | GIMP_RGBA_IMAGE => 4
              | GIMP_GRAY_IMAGE => 1
              | GIMP_GRAYA_IMAGE => 2
              | GIMP_INDEXED_IMAGE => 1
              | GIMP_INDEXEDA_IMAGE => 2
              end%nat)
    (fun _ => 0).

(** A run-length coded 24-bit image of 1 x 2 pixels whose pixel data
    stop after the packet of the first row. *)
Definition truncated_rle_file : list Z :=
  [0; 0; 10; 0; 0; 0; 0; 0; 0; 0; 0; 0; 1; 0; 2; 0; 24; 32] ++ [0; 1; 2; 3].

(** An uncompressed 24-bit image of 1 x 2 pixels whose pixel data stop
    inside the second row. *)
Definition truncated_raw_file : list Z :=
  [0; 0; 2; 0; 0; 0; 0; 0; 0; 0; 0; 0; 1; 0; 2; 0; 24; 32]
  ++ [1; 2; 3] ++ [9].

(** A colour-mapped image of 1 x 1 pixel with one 32-bit colormap entry
    at index 0 and the pixel index 5. *)
Definition out_of_range_index_file : list Z :=
  [0; 1; 1; 0; 0; 1; 0; 32; 0; 0; 0; 0; 1; 0; 1; 0; 8; 32]
  ++ [9; 8; 7; 6] ++ [5].

(** A 24-bit image of 1 x 1 pixel followed by a footer with the
    signature and the extension offset 1000. *)
Definition unreadable_extension_file : list Z :=
  [0; 0; 2; 0; 0; 0; 0; 0; 0; 0; 0; 0; 1; 0; 1; 0; 24; 32]
  ++ [1; 2; 3] ++ [232; 3; 0; 0; 0; 0; 0; 0] ++ magic.

(** A colour-mapped image of 1 x 1 pixel with 300 colormap entries of 24
    bits. *)
Definition colormap_300_file : list Z :=
  [0; 1; 1; 0; 0; 44; 1; 24; 0; 0; 0; 0; 1; 0; 1; 0; 8; 32]
  ++ repeat 7 900 ++ [2].

(** An indexed drawable with alpha, 2 x 1 pixels: the first pixel has
    index 5 and alpha 0, the second index 7 and alpha 255. *)
Definition indexeda_drawable (num_colors : nat) : drawable :=
  mk_drawable GIMP_INDEXEDA_IMAGE 2 1 (Z.of_nat num_colors)
              (repeat 9 (3 * num_colors)) (fun _ => [5; 0; 7; 255]).

(** ** Notions used in the further properties *)

(** What the decoder still owes after some turns: the stream holds the
    packets [ps] and then [rest]; [pend] is the pixels of the run that
    is open, followed by the pixels of [ps]. *)
Definition read_inv (b : nat) (st : rle_static) (fp : FILE)
  (pend : list Z) (ps : list packet) (rest : list Z) : Prop :=
  length (s_sample st) = 4%nat /\
  Forall (whole_packet b) ps /\
  ((exists r,
      s_repeat st = Z.of_nat r /\ s_direct st = 0 /\
      skipn (pos fp) (content fp) = flat_map packet_bytes ps ++ rest /\
      pend = concat (repeat (firstn b (s_sample st)) r)
             ++ flat_map packet_pixels ps)
   \/
   (exists d payload,
      s_repeat st = 0 /\ s_direct st = Z.of_nat (S d) /\
      length payload = (S d * b)%nat /\
      skipn (pos fp) (content fp)
      = payload ++ flat_map packet_bytes ps ++ rest /\
      pend = payload ++ flat_map packet_pixels ps)).

(** The bytes that [bgr2rgb] writes for one source record. *)
Definition bgr2rgb_pixel (alpha : Z) (rec : list Z) : list Z :=
  match rec with
  | s0 :: s1 :: s2 :: tl =>
      if alpha =? 0 then [s2; s1; s0] else [s2; s1; s0; nth 0 tl 0]
  | _ => []
  end.

(** The number of bytes that [bgr2rgb] writes for one pixel. *)
Definition bgr2rgb_width (alpha : Z) : nat := if alpha =? 0 then 3 else 4.

(** The image type the loader sees for an exported drawable type. *)
Definition tga_type_of (dtype : GimpImageType) : Z :=
  match dtype with
  | GIMP_INDEXED_IMAGE | GIMP_INDEXEDA_IMAGE => TGA_TYPE_MAPPED
  | GIMP_RGB_IMAGE | GIMP_RGBA_IMAGE => TGA_TYPE_COLOR
  | GIMP_GRAY_IMAGE | GIMP_GRAYA_IMAGE => TGA_TYPE_GRAY
  end.

(** The rows of the image that one call of [gegl_buffer_set] covers. *)
Definition stripe_rows (t : Z * nat * list Z) : list nat :=
  seq (Z.to_nat (fst (fst t))) (snd (fst t)).

(** Drawable types that [save_image] writes without a palette. *)
Definition without_palette (t : GimpImageType) : bool :=
  match t with
  | GIMP_INDEXED_IMAGE | GIMP_INDEXEDA_IMAGE => false
  | _ => true
  end.

(** The last argument of the call of [bgr2rgb] in [save_image]. *)
Definition save_alpha (t : GimpImageType) : Z :=
  if is_type t GIMP_RGBA_IMAGE then 1 else 0.

(** The row of the drawable that [save_image] writes in turn [r]. *)
Definition file_row (d : drawable) (origin : TgaOrigin) (r : Z) : list Z :=
  if origin_set origin then d_row d (d_height d - (r + 1)) else d_row d r.

(** The rows that the turns [r] to [r + n - 1] write. *)
Definition file_rows (d : drawable) (origin : TgaOrigin) (r n : nat)
  : list (list Z) :=
  map (fun j => file_row d origin (Z.of_nat j)) (seq r n).

(** [out] is the row [row] as [save_image] converts it for the file. *)
Definition row_image (t : GimpImageType) (row out : list Z) : Prop :=
  if is_type t GIMP_RGB_IMAGE || is_type t GIMP_RGBA_IMAGE then
    exists recs,
      row = concat recs /\
      Forall (fun r => length r = out_bpp t) recs /\
      out = flat_map (bgr2rgb_pixel (save_alpha t)) recs
  else out = row.

(** [enc] is the converted row [out] as it stands in the file. *)
Definition row_code (rle : bool) (w b : nat) (out enc : list Z) : Prop :=
  if rle then
    exists ps,
      enc = flat_map packet_bytes ps /\
      Forall (whole_packet b) ps /\
      flat_map packet_pixels ps = out /\
      total_count ps = w
  else enc = out.

(** [enc] is what [save_image] writes for the row [row] of a drawable of
    type [t] and width [w]. *)
Definition stored_row (t : GimpImageType) (rle : bool) (w : nat)
  (row enc : list Z) : Prop :=
  exists out,
    length row = (w * out_bpp t)%nat /\
    row_image t row out /\
    length out = (w * out_bpp t)%nat /\
    row_code rle w (out_bpp t) out enc /\
    (is_type t GIMP_INDEXED_IMAGE = true -> Forall is_byte row).

(** The stripe [t] holds the rows of the drawable at its place. *)
Definition stripe_of (d : drawable) (t : Z * nat * list Z) : Prop :=
  snd t = concat (map (fun j => d_row d (fst (fst t) + Z.of_nat j))
                      (seq 0 (snd (fst t)))).

(** The fields of the header written for a drawable of type [t] and
    width [w], as the loader reads them and as [read_line] uses them. *)
Definition plain_header (t : GimpImageType) (rle : bool) (w : nat)
  (info : tga_info) : Prop :=
  imageType info = tga_type_of t /\
  imageCompression info = (if rle then TGA_COMP_RLE else TGA_COMP_NONE) /\
  width info = Z.of_nat w /\
  bytes info = Z.of_nat (out_bpp t) /\
  bpp info = 8 * Z.of_nat (out_bpp t) /\
  flipHoriz info = 0 /\
  colorMapIndex info = 0 /\
  (tga_type_of t = TGA_TYPE_COLOR ->
   (alphaBits info =? 0) = (save_alpha t =? 0)).

(** The reader stands between two rows: no run is open, the stream holds
    [stream] and the row buffer has [n] bytes. *)
Definition line_ready (n : nat) (s : line_state) (stream : list Z) : Prop :=
  s_repeat (l_static s) = 0 /\ s_direct (l_static s) = 0 /\
  length (s_sample (l_static s)) = 4%nat /\
  skipn (pos (l_fp s)) (content (l_fp s)) = stream /\
  length (l_buf s) = n.

(** * Properties *)

(** ** Arrays and streams *)

Lemma obind_Some A B (m : option A) (k : A -> option B) (b : B) :
  obind m k = Some b -> exists a, m = Some a /\ k a = Some b.
Proof.
  destruct m as [a|]; simpl; intros H; [exists a; auto | discriminate].
Qed.

Lemma memcmp_refl (a : list Z) : Mem.memcmp a a = 0.
Proof.
  induction a as [|x a IH]; simpl; [reflexivity|].
  rewrite Z.eqb_refl. exact IH.
Qed.

Lemma memcmp_zero (a b : list Z) :
  length a = length b -> Mem.memcmp a b = 0 -> a = b.
Proof.
  revert b; induction a as [|x a IH]; intros [|y b] Hlen H; simpl in *;
    try discriminate; [reflexivity|].
  destruct (Z.eqb_spec x y) as [->|Hne].
  - f_equal. apply IH; [lia | exact H].
  - lia.
Qed.

Lemma load_Some (m : list Z) (off len : nat) :
  (off + len <= length m)%nat ->
  Mem.load m off len = Some (firstn len (skipn off m)).
Proof.
  intros H. unfold Mem.load.
  destruct (Nat.leb_spec (off + len) (length m)); [reflexivity | lia].
Qed.

Lemma store_hole (pre hole post v : list Z) :
  length hole = length v ->
  Mem.store (pre ++ hole ++ post) (length pre) v = Some (pre ++ v ++ post).
Proof.
  intros H. unfold Mem.store. rewrite !length_app.
  destruct (Nat.leb_spec (length pre + length v)
              (length pre + (length hole + length post))) as [_|Hlt]; [|lia].
  f_equal.
  rewrite firstn_app, Nat.sub_diag, firstn_all, app_nil_r.
  f_equal. f_equal.
  rewrite skipn_app, skipn_all2 by lia. simpl.
  replace (length pre + length v - length pre)%nat with (length hole) by lia.
  rewrite skipn_app, Nat.sub_diag, skipn_all. reflexivity.
Qed.

(** ** Rows as sequences of pixel records *)

Lemma firstn_plus (A : Type) (x y : nat) (l : list A) :
  firstn (x + y) l = firstn x l ++ firstn y (skipn x l).
Proof.
  revert l; induction x as [|x IH]; intros l; simpl; [reflexivity|].
  destruct l as [|a l]; simpl.
  - now rewrite firstn_nil.
  - now rewrite IH.
Qed.

Lemma seg_app (data : list Z) (b f n m : nat) :
  seg data b f (n + m) = seg data b f n ++ seg data b (f + n) m.
Proof.
  unfold seg.
  rewrite Nat.mul_add_distr_r, firstn_plus, skipn_skipn.
  do 2 f_equal. f_equal. lia.
Qed.

Lemma seg_length (data : list Z) (b f n : nat) :
  ((f + n) * b <= length data)%nat -> length (seg data b f n) = (n * b)%nat.
Proof.
  intros H. unfold seg. rewrite length_firstn, length_skipn. lia.
Qed.

Lemma seg_prefix (data : list Z) (b f n : nat) :
  firstn (f * b) data ++ seg data b f n = firstn ((f + n) * b) data.
Proof.
  unfold seg. now rewrite Nat.mul_add_distr_r, firstn_plus.
Qed.

Lemma seg_all (data : list Z) (b w : nat) :
  length data = (w * b)%nat -> seg data b 0 w = data.
Proof.
  intros H. unfold seg. simpl. rewrite <- H. apply firstn_all.
Qed.

Lemma load_seg (data : list Z) (b f n : nat) :
  ((f + n) * b <= length data)%nat ->
  Mem.load data (f * b) (b * n) = Some (seg data b f n).
Proof.
  intros H. rewrite load_Some by lia. unfold seg. now rewrite Nat.mul_comm.
Qed.

Lemma load_record (data : list Z) (b f : nat) :
  ((f + 1) * b <= length data)%nat ->
  Mem.load data (f * b) b = Some (seg data b f 1).
Proof.
  intros H. rewrite load_Some by lia. unfold seg. now rewrite Nat.mul_1_l.
Qed.

Lemma seg_const (data : list Z) (b : nat) (rec : list Z) (n f : nat) :
  (forall i, (i < n)%nat -> seg data b (f + i) 1 = rec) ->
  seg data b f n = concat (repeat rec n).
Proof.
  revert f; induction n as [|n IH]; intros f H.
  - reflexivity.
  - change (S n) with (1 + n)%nat. rewrite seg_app. simpl. f_equal.
    + rewrite <- (H 0%nat) by lia. now rewrite Nat.add_0_r.
    + apply IH. intros i Hi. rewrite <- (H (S i)) by lia. f_equal. lia.
Qed.

(** ** Packets *)

Lemma total_count_snoc (ps : list packet) (p : packet) :
  total_count (ps ++ [p]) = (total_count ps + declared_count p)%nat.
Proof.
  unfold total_count. rewrite map_app, list_sum_app. simpl. lia.
Qed.

Lemma packet_pixels_length (b : nat) (p : packet) :
  whole_packet b p -> length (packet_pixels p) = (declared_count p * b)%nat.
Proof.
  intros [_ H]. destruct p as [n rec|n pl]; simpl in *; [|exact H].
  clear -H. induction n as [|n IH]; simpl; [reflexivity|].
  rewrite length_app, IH, H. reflexivity.
Qed.

Lemma pixels_length (b : nat) (ps : list packet) :
  Forall (whole_packet b) ps ->
  length (flat_map packet_pixels ps) = (total_count ps * b)%nat.
Proof.
  induction 1 as [|p ps Hp _ IH]; [reflexivity|].
  simpl. rewrite length_app, IH, (packet_pixels_length b p Hp).
  unfold total_count. simpl. lia.
Qed.

(** ** The encoder emits whole packets that spell the row *)

Lemma emit_repeat (data : list Z) (b f n : nat) (c : Z) (out : list Z) :
  ((f + 1) * b <= length data)%nat ->
  uchar c = 127 + Z.of_nat n ->
  fwrite data (f * b) b 1 (putc c out)
  = Some (out ++ packet_bytes (Repeat n (seg data b f 1))).
Proof.
  intros Hb Hc. unfold fwrite, putc.
  rewrite (load_seg data b f 1 Hb). simpl.
  rewrite Hc, <- app_assoc. reflexivity.
Qed.

Lemma emit_direct (data : list Z) (b f n : nat) (c : Z) (out : list Z) :
  ((f + n) * b <= length data)%nat ->
  uchar c = Z.of_nat n - 1 ->
  fwrite data (f * b) b n (putc c out)
  = Some (out ++ packet_bytes (Direct n (seg data b f n))).
Proof.
  intros Hb Hc. unfold fwrite, putc.
  rewrite (load_seg data b f n Hb). simpl.
  rewrite Hc, <- app_assoc. reflexivity.
Qed.

(** Closing the open run with packet [p], which covers the [n] records
    from [f] on. *)
Lemma packets_snoc (data : list Z) (b f n : nat) (out0 out : list Z)
  (ps : list packet) (p : packet) :
  ((f + n) * b <= length data)%nat ->
  out = out0 ++ flat_map packet_bytes ps ->
  Forall (whole_packet b) ps ->
  flat_map packet_pixels ps = firstn (f * b) data ->
  total_count ps = f ->
  declared_count p = n -> (1 <= n <= 128)%nat ->
  packet_payload p = seg data b f (match p with Repeat _ _ => 1 | _ => n end) ->
  packet_pixels p = seg data b f n ->
  out ++ packet_bytes p = out0 ++ flat_map packet_bytes (ps ++ [p]) /\
  Forall (whole_packet b) (ps ++ [p]) /\
  flat_map packet_pixels (ps ++ [p]) = firstn ((f + n) * b) data /\
  total_count (ps ++ [p]) = (f + n)%nat.
Proof.
  intros Hb Hout Hwf Hpix Htot Hn Hrange Hpl Hpx.
  repeat split.
  - rewrite Hout, flat_map_app, <- app_assoc. simpl.
    now rewrite app_nil_r.
  - apply Forall_app; split; [exact Hwf|].
    constructor; [|constructor]. split; [lia|].
    assert ((f + 1) * b <= (f + n) * b)%nat
      by (apply Nat.mul_le_mono_r; lia).
    rewrite Hpl. destruct p; simpl in *.
    + rewrite seg_length by lia. lia.
    + rewrite seg_length by lia. now rewrite Hn.
  - rewrite flat_map_app, Hpix. simpl. rewrite app_nil_r, Hpx.
    apply seg_prefix.
  - rewrite total_count_snoc. lia.
Qed.

Lemma uchar_small (c : Z) : 0 <= c < 256 -> uchar c = c.
Proof. intros H. unfold uchar. now apply Z.mod_small. Qed.

Ltac wsimpl :=
  cbn [obind w_repeat w_direct w_from w_buf w_out negb] in *.

Lemma write_body_inv (data : list Z) (b : nat) (out0 : list Z) (k : nat)
  (s : rle_wstate) :
  write_inv data b out0 k s ->
  ((k + 2) * b <= length data)%nat ->
  exists s', rle_write_body data b s = Some s' /\
             write_inv data b out0 (k + 1) s'.
Proof.
  intros (Hbuf & f & ps & Hfrom & Hfk & Hout & Hwf & Hpix & Htot & Hr0 & Hd0
          & Hsum & Hlt & Hor & Hsame) Hlen.
  assert (Hk1 : ((k + 1) * b <= length data)%nat) by nia.
  assert (Hk2 : ((k + 1 + 1) * b <= length data)%nat) by nia.
  assert (Hf1 : ((f + 1) * b <= length data)%nat) by nia.
  assert (Hfn : ((f + (k - f)) * b <= length data)%nat) by nia.
  assert (Hfn1 : ((f + (k - f + 1)) * b <= length data)%nat) by nia.
  unfold rle_write_body. rewrite Hbuf, Hfrom.
  rewrite (load_record data b k Hk1).
  replace (k * b + b)%nat with ((k + 1) * b)%nat by lia.
  rewrite (load_record data b (k + 1) Hk2). wsimpl.
  destruct (Z.eqb_spec (Mem.memcmp (seg data b k 1) (seg data b (k + 1) 1)) 0)
    as [Heq|Hne]; wsimpl.
  - (* next pixel is the same *)
    apply memcmp_zero in Heq; [|now rewrite !seg_length by lia].
    destruct (Z.eqb_spec (w_direct s) 0) as [Hd|Hd]; wsimpl.
    + assert (Hrun : forall i, (i <= k + 1 - f)%nat ->
                       seg data b (f + i) 1 = seg data b f 1).
      { intros i Hi. destruct (Nat.eq_dec i (k + 1 - f)) as [->|Hi'].
        - replace (f + (k + 1 - f))%nat with (k + 1)%nat by lia.
          rewrite <- Heq, <- (Hsame Hd (k - f)%nat) by lia.
          f_equal. lia.
        - apply (Hsame Hd). lia. }
      destruct (Z.eqb_spec (w_repeat s + 1) 128) as [H128|H128]; wsimpl.
      * rewrite (@emit_repeat data b f 128 255 (w_out s) Hf1)
          by (now rewrite uchar_small by lia).
        wsimpl. eexists; split; [reflexivity|].
        split; [wsimpl; lia|].
        assert (Hn : (k - f + 1 = 128)%nat) by lia.
        destruct (@packets_snoc data b f 128 out0 (w_out s) ps
                    (Repeat 128 (seg data b f 1))) as (A & B & C & D);
          try assumption; try reflexivity; try lia.
        { cbn [packet_pixels]. symmetry. apply seg_const. intros i Hi. apply Hrun. lia. }
        exists (k + 1)%nat, (ps ++ [Repeat 128 (seg data b f 1)]).
        wsimpl. replace (k + 1)%nat with (f + 128)%nat by lia.
        repeat split; try assumption; try lia.
        intros _ i Hi. f_equal. lia.
      * destruct (Z.eqb_spec (w_direct s) 128) as [Hx|_]; [lia|]. wsimpl.
        eexists; split; [reflexivity|].
        split; [wsimpl; lia|].
        exists f, ps. wsimpl. repeat split; try assumption; try lia.
        intros _. exact Hrun.
    + assert (Hr : w_repeat s = 0) by (destruct Hor; [assumption|contradiction]).
      assert (Hn : Z.to_nat (w_direct s) = (k - f)%nat) by lia.
      rewrite Hn.
      rewrite (@emit_direct data b f (k - f) (w_direct s - 1) (w_out s) Hfn)
        by (rewrite uchar_small by lia; lia).
      wsimpl. eexists; split; [reflexivity|].
      split; [wsimpl; lia|].
      destruct (@packets_snoc data b f (k - f) out0 (w_out s) ps
                  (Direct (k - f) (seg data b f (k - f)))) as (A & B & C & D);
        try assumption; try reflexivity; try lia.
      exists k, (ps ++ [Direct (k - f) (seg data b f (k - f))]).
      wsimpl. replace (f + (k - f))%nat with k in * by lia.
      repeat split; try assumption; try lia.
      intros _ i Hi.
      assert (i = 0 \/ i = 1)%nat as [->| ->] by lia.
      * now rewrite Nat.add_0_r.
      * now rewrite <- Heq.
  - (* next pixel is different *)
    destruct (Z.eqb_spec (w_repeat s) 0) as [Hr|Hr]; wsimpl.
    + destruct (Z.eqb_spec (w_repeat s) 128) as [Hx|_]; [lia|].
      destruct (Z.eqb_spec (w_direct s + 1) 128) as [H128|H128]; wsimpl.
      * assert (Hn : Z.to_nat (w_direct s + 1) = 128%nat) by lia.
        rewrite Hn.
        assert (Hf128 : ((f + 128) * b <= length data)%nat)
          by (replace (f + 128)%nat with (f + (k - f + 1))%nat by lia;
              exact Hfn1).
        rewrite (@emit_direct data b f 128 127 (w_out s) Hf128)
          by (now rewrite uchar_small by lia).
        wsimpl. eexists; split; [reflexivity|].
        split; [wsimpl; lia|].
        destruct (@packets_snoc data b f 128 out0 (w_out s) ps
                    (Direct 128 (seg data b f 128))) as (A & B & C & D);
          try assumption; try reflexivity; try lia.
        exists (k + 1)%nat, (ps ++ [Direct 128 (seg data b f 128)]).
        wsimpl. replace (k + 1)%nat with (f + 128)%nat by lia.
        repeat split; try assumption; try lia.
        intros _ i Hi. f_equal. lia.
      * eexists; split; [reflexivity|].
        split; [wsimpl; lia|].
        exists f, ps. wsimpl. repeat split; try assumption; try lia.
    + assert (Hd : w_direct s = 0) by (destruct Hor; [contradiction|assumption]).
      rewrite (@emit_repeat data b f (k - f + 1) (128 + w_repeat s) (w_out s) Hf1)
        by (rewrite uchar_small by lia; lia).
      wsimpl. eexists; split; [reflexivity|].
      split; [wsimpl; lia|].
      destruct (@packets_snoc data b f (k - f + 1) out0 (w_out s) ps
                  (Repeat (k - f + 1) (seg data b f 1))) as (A & B & C & D);
        try assumption; try reflexivity; try lia.
      { cbn [packet_pixels]. symmetry. apply seg_const. intros i Hi. apply (Hsame Hd). lia. }
      exists (k + 1)%nat, (ps ++ [Repeat (k - f + 1) (seg data b f 1)]).
      wsimpl. replace (f + (k - f + 1))%nat with (k + 1)%nat in * by lia.
      repeat split; try assumption; try lia.
      intros _ i Hi. f_equal. lia.
Qed.

Lemma write_loop_inv (data : list Z) (b : nat) (out0 : list Z) (n k : nat)
  (s : rle_wstate) :
  write_inv data b out0 k s ->
  ((k + n + 1) * b <= length data)%nat ->
  exists s', rle_write_loop n data b s = Some s' /\
             write_inv data b out0 (k + n) s'.
Proof.
  revert k s; induction n as [|n IH]; intros k s Hinv Hlen.
  - exists s. rewrite Nat.add_0_r. split; [reflexivity | exact Hinv].
  - destruct (@write_body_inv data b out0 k s Hinv) as (s1 & Hs1 & Hinv1);
      [nia|].
    destruct (IH (k + 1)%nat s1 Hinv1) as (s' & Hs' & Hinv');
      [replace (k + 1 + n + 1)%nat with (k + S n + 1)%nat by lia; exact Hlen|].
    exists s'. split.
    + simpl. rewrite Hs1. exact Hs'.
    + replace (k + S n)%nat with (k + 1 + n)%nat by lia. exact Hinv'.
Qed.

Lemma write_inv_init (data : list Z) (b : nat) (out0 : list Z) :
  write_inv data b out0 0 (mk_rle_wstate 0 0 0 0 out0).
Proof.
  split; [reflexivity|]. exists 0%nat, []. simpl.
  rewrite app_nil_r. repeat split; try reflexivity; try lia.
  - now left.
  - intros _ i Hi. now replace i with 0%nat by lia.
Qed.

(** The output of [rle_write] is a sequence of whole packets whose pixels
    are the row. *)
Lemma rle_write_packets (out0 data : list Z) (w b : nat) :
  (1 <= w)%nat -> length data = (w * b)%nat ->
  exists ps : list packet,
    rle_write out0 data w b = Some (out0 ++ flat_map packet_bytes ps) /\
    Forall (whole_packet b) ps /\
    flat_map packet_pixels ps = data /\
    total_count ps = w.
Proof.
  intros Hw Hlen.
  destruct (@write_loop_inv data b out0 (w - 1) 0
              (mk_rle_wstate 0 0 0 0 out0) (write_inv_init data b out0))
    as (s & Hs & Hinv).
  { replace (0 + (w - 1) + 1)%nat with w by lia. lia. }
  unfold rle_write. rewrite Hs. cbn [obind].
  simpl in Hinv.
  destruct Hinv as (Hbuf & f & ps & Hfrom & Hfk & Hout & Hwf & Hpix & Htot
                    & Hr0 & Hd0 & Hsum & Hlt & Hor & Hsame).
  set (k := (w - 1)%nat) in *.
  assert (Hfull : ((f + (k - f + 1)) * b <= length data)%nat)
    by (replace (f + (k - f + 1))%nat with w by lia; lia).
  assert (Hf1 : ((f + 1) * b <= length data)%nat) by nia.
  assert (Hend : firstn ((f + (k - f + 1)) * b) data = data).
  { replace (f + (k - f + 1))%nat with w by lia.
    rewrite <- Hlen. apply firstn_all. }
  rewrite Hfrom.
  destruct (Z.ltb_spec 0 (w_repeat s)) as [Hr|Hr].
  - assert (Hd : w_direct s = 0) by (destruct Hor; [lia|assumption]).
    rewrite (@emit_repeat data b f (k - f + 1) (128 + w_repeat s) (w_out s) Hf1)
      by (rewrite uchar_small by lia; lia).
    destruct (@packets_snoc data b f (k - f + 1) out0 (w_out s) ps
                (Repeat (k - f + 1) (seg data b f 1))) as (A & B & C & D);
      try assumption; try reflexivity; try lia.
    { cbn [packet_pixels]. symmetry. apply seg_const.
      intros i Hi. apply (Hsame Hd). lia. }
    exists (ps ++ [Repeat (k - f + 1) (seg data b f 1)]).
    rewrite A, C, D, Hend. repeat split; try assumption. lia.
  - assert (Hn : Z.to_nat (w_direct s + 1) = (k - f + 1)%nat) by lia.
    rewrite Hn.
    rewrite (@emit_direct data b f (k - f + 1) (w_direct s) (w_out s) Hfull)
      by (rewrite uchar_small by lia; lia).
    destruct (@packets_snoc data b f (k - f + 1) out0 (w_out s) ps
                (Direct (k - f + 1) (seg data b f (k - f + 1))))
      as (A & B & C & D);
      try assumption; try reflexivity; try lia.
    exists (ps ++ [Direct (k - f + 1) (seg data b f (k - f + 1))]).
    rewrite A, C, D, Hend. repeat split; try assumption. lia.
Qed.

(** ** The decoder reads packets back *)

Lemma steps_loop (n b : nat) (s s' : rle_rstate) :
  rle_read_steps n b s = Some s' -> rle_read_loop n b s = Some (0, s').
Proof.
  revert s; induction n as [|n IH]; intros s H; simpl in *.
  - now inversion H.
  - destruct (rle_read_body b s) as [[s1|v s1]|]; try discriminate.
    simpl. now apply IH.
Qed.

Lemma steps_app (n m b : nat) (s s1 s2 : rle_rstate) :
  rle_read_steps n b s = Some s1 ->
  rle_read_steps m b s1 = Some s2 ->
  rle_read_steps (n + m) b s = Some s2.
Proof.
  revert s; induction n as [|n IH]; intros s H1 H2; simpl in *.
  - inversion H1; subst. exact H2.
  - destruct (rle_read_body b s) as [[s'|v s']|]; try discriminate.
    now apply IH.
Qed.

Lemma getc_next (fp : FILE) (c : Z) (rest : list Z) :
  skipn (pos fp) (content fp) = c :: rest ->
  getc fp = (c, mkFILE (content fp) (S (pos fp))).
Proof.
  intros H. unfold getc.
  assert (Hn : nth_error (content fp) (pos fp) = Some c).
  { rewrite <- (firstn_skipn (pos fp) (content fp)) at 1.
    assert (Hp : (pos fp <= length (content fp))%nat).
    { destruct (Nat.le_gt_cases (pos fp) (length (content fp))) as [Hle|Hgt];
        [exact Hle|].
      rewrite skipn_all2 in H by lia. discriminate. }
    rewrite nth_error_app2 by (rewrite length_firstn; lia).
    rewrite length_firstn, Nat.min_l, Nat.sub_diag, H by lia. reflexivity. }
  now rewrite Hn.
Qed.

Lemma fread_record (fp : FILE) (b : nat) (rec rest : list Z) :
  skipn (pos fp) (content fp) = rec ++ rest ->
  length rec = b -> (1 <= b)%nat ->
  fread b 1 fp = (rec, 1%nat, mkFILE (content fp) (pos fp + b)).
Proof.
  intros H Hlen Hb. unfold fread.
  rewrite H, Nat.mul_1_r, firstn_app, <- Hlen, Nat.sub_diag, firstn_all.
  simpl firstn. rewrite app_nil_r.
  destruct (Nat.eqb_spec (length rec) 0) as [H0|_]; [lia|].
  rewrite Nat.div_same by lia. reflexivity.
Qed.

Lemma skipn_advance {A : Type} (p : nat) (l a rest : list A) :
  skipn p l = a ++ rest -> skipn (p + length a) l = rest.
Proof.
  intros H. rewrite Nat.add_comm, <- skipn_skipn, H.
  rewrite skipn_app, Nat.sub_diag, skipn_all. reflexivity.
Qed.

(** A turn inside a repeat run copies the sample. *)
Lemma body_repeat (b : nat) (r d : Z) (smp : list Z) (fp : FILE)
  (pre hole post rec : list Z) :
  0 < r -> Mem.load smp 0 b = Some rec -> length hole = length rec ->
  length rec = b ->
  rle_read_body b (mk_rle_rstate (mk_rle_static r d smp) fp
                                 (pre ++ hole ++ post) (length pre))
  = Some (Next (mk_rle_rstate (mk_rle_static (r - 1) d smp) fp
                              (pre ++ rec ++ post) (length pre + b))).
Proof.
  intros Hr Hload Hhole Hrec. unfold rle_read_body, rle_read_pixel.
  cbn [r_static r_fp r_mem r_buf s_repeat s_direct s_sample].
  destruct (Z.eqb_spec r 0) as [H0|_]; [lia|]. cbn [andb].
  destruct (Z.ltb_spec 0 r) as [_|H0]; [|lia].
  rewrite Hload. cbn [obind]. rewrite (store_hole pre hole post rec Hhole).
  reflexivity.
Qed.

(** A turn inside a direct run reads one record from the stream. *)
Lemma body_direct (b : nat) (d : Z) (smp : list Z) (fp : FILE)
  (pre hole post rec rest : list Z) :
  0 < d -> skipn (pos fp) (content fp) = rec ++ rest ->
  length hole = length rec -> length rec = b -> (1 <= b)%nat ->
  rle_read_body b (mk_rle_rstate (mk_rle_static 0 d smp) fp
                                 (pre ++ hole ++ post) (length pre))
  = Some (Next (mk_rle_rstate (mk_rle_static 0 (d - 1) smp)
                              (mkFILE (content fp) (pos fp + b))
                              (pre ++ rec ++ post) (length pre + b))).
Proof.
  intros Hd Hfp Hhole Hrec Hb. unfold rle_read_body, rle_read_pixel.
  cbn [r_static r_fp r_mem r_buf s_repeat s_direct s_sample].
  destruct (Z.eqb_spec d 0) as [H0|_]; [lia|].
  cbn [Z.eqb andb Z.ltb Z.compare].
  rewrite (fread_record fp b rec rest Hfp Hrec Hb).
  rewrite (store_hole pre hole post rec Hhole). reflexivity.
Qed.

Lemma split_records (l : list Z) (b n : nat) :
  length l = (S n * b)%nat ->
  l = firstn b l ++ skipn b l /\
  length (firstn b l) = b /\ length (skipn b l) = (n * b)%nat.
Proof.
  intros H. rewrite firstn_skipn, length_firstn, length_skipn.
  repeat split; lia.
Qed.

Lemma steps_repeat_run (b n : nat) :
  forall (pre hole post : list Z) (d : Z) (smp : list Z) (fp : FILE)
         (rec : list Z),
    Mem.load smp 0 b = Some rec -> length rec = b ->
    length hole = (n * b)%nat ->
    rle_read_steps n b
      (mk_rle_rstate (mk_rle_static (Z.of_nat n) d smp) fp
                     (pre ++ hole ++ post) (length pre))
    = Some (mk_rle_rstate (mk_rle_static 0 d smp) fp
                          (pre ++ concat (repeat rec n) ++ post)
                          (length pre + n * b)).
Proof.
  induction n as [|n IH]; intros pre hole post d smp fp rec Hload Hrec Hhole.
  - destruct hole; [|discriminate]. simpl.
    now rewrite Nat.add_0_r.
  - destruct (split_records hole b n Hhole) as (Hsplit & Hh1 & Hh2).
    rewrite Hsplit, <- app_assoc.
    cbn [rle_read_steps].
    rewrite (body_repeat b (Z.of_nat (S n)) d smp fp pre (firstn b hole)
               (skipn b hole ++ post) rec) by (try assumption; lia).
    replace (Z.of_nat (S n) - 1) with (Z.of_nat n) by lia.
    replace (length pre + b)%nat with (length (pre ++ rec))
      by (rewrite length_app; lia).
    replace (pre ++ rec ++ skipn b hole ++ post)
      with ((pre ++ rec) ++ skipn b hole ++ post)
      by (now rewrite <- app_assoc).
    rewrite (IH (pre ++ rec) (skipn b hole) post d smp fp rec Hload Hrec Hh2).
    f_equal. f_equal.
    + cbn [repeat concat]. now rewrite <- !app_assoc.
    + rewrite length_app. lia.
Qed.

Lemma steps_direct_run (b n : nat) :
  forall (pre hole post : list Z) (smp : list Z) (fp : FILE)
         (payload rest : list Z),
    (1 <= b)%nat ->
    skipn (pos fp) (content fp) = payload ++ rest ->
    length payload = (n * b)%nat -> length hole = (n * b)%nat ->
    rle_read_steps n b
      (mk_rle_rstate (mk_rle_static 0 (Z.of_nat n) smp) fp
                     (pre ++ hole ++ post) (length pre))
    = Some (mk_rle_rstate (mk_rle_static 0 0 smp)
                          (mkFILE (content fp) (pos fp + n * b))
                          (pre ++ payload ++ post)
                          (length pre + n * b)).
Proof.
  induction n as [|n IH];
    intros pre hole post smp fp payload rest Hb Hfp Hpay Hhole.
  - destruct hole; [|discriminate]. destruct payload; [|discriminate].
    simpl. rewrite !Nat.add_0_r. now destruct fp.
  - destruct (split_records hole b n Hhole) as (Hsplit & Hh1 & Hh2).
    destruct (split_records payload b n Hpay) as (Psplit & Hp1 & Hp2).
    rewrite Hsplit, <- app_assoc.
    cbn [rle_read_steps].
    assert (Hfp1 : skipn (pos fp) (content fp)
                   = firstn b payload ++ (skipn b payload ++ rest)).
    { now rewrite app_assoc, firstn_skipn. }
    rewrite (body_direct b (Z.of_nat (S n)) smp fp pre (firstn b hole)
               (skipn b hole ++ post) (firstn b payload)
               (skipn b payload ++ rest))
      by (try assumption; lia).
    replace (Z.of_nat (S n) - 1) with (Z.of_nat n) by lia.
    set (rec := firstn b payload) in *.
    replace (length pre + b)%nat with (length (pre ++ rec))
      by (rewrite length_app; lia).
    replace (pre ++ rec ++ skipn b hole ++ post)
      with ((pre ++ rec) ++ skipn b hole ++ post)
      by (now rewrite <- app_assoc).
    rewrite (IH (pre ++ rec) (skipn b hole) post smp
               (mkFILE (content fp) (pos fp + b)) (skipn b payload) rest Hb).
    + cbn [content pos]. f_equal. f_equal.
      * f_equal. lia.
      * rewrite Psplit at 2. fold rec. now rewrite <- !app_assoc.
      * rewrite length_app. lia.
    + cbn [content pos]. rewrite <- Hp1 at 1. fold rec.
      now apply skipn_advance.
    + exact Hp2.
    + exact Hh2.
Qed.

(** With both counters at zero the turn first reads a control byte; what
    follows is the turn of a run that has just been opened. *)
Lemma body_head_repeat (b n : nat) (smp : list Z) (fp : FILE)
  (mem : list Z) (off : nat) (rec rest : list Z) :
  (1 <= n)%nat -> (1 <= b <= length smp)%nat -> length rec = b ->
  skipn (pos fp) (content fp) = (127 + Z.of_nat n) :: rec ++ rest ->
  rle_read_body b (mk_rle_rstate (mk_rle_static 0 0 smp) fp mem off)
  = rle_read_body b
      (mk_rle_rstate (mk_rle_static (Z.of_nat n) 0 (rec ++ skipn b smp))
                     (mkFILE (content fp) (pos fp + 1 + b)) mem off).
Proof.
  intros Hn Hb Hrec Hfp. unfold rle_read_body.
  cbn [r_static r_fp r_mem r_buf s_repeat s_direct s_sample].
  rewrite (getc_next fp _ _ Hfp).
  destruct (Z.eqb_spec (Z.of_nat n) 0) as [H0|_]; [lia|].
  cbn [Z.eqb andb].
  destruct (Z.eqb_spec (127 + Z.of_nat n) EOF) as [H0|_];
    [unfold EOF in H0; lia|].
  destruct (Z.leb_spec 128 (127 + Z.of_nat n)) as [_|H0]; [|lia].
  assert (Hfp1 : skipn (pos (mkFILE (content fp) (S (pos fp))))
                       (content (mkFILE (content fp) (S (pos fp))))
                 = rec ++ rest).
  { cbn [pos content].
    apply (skipn_advance (pos fp) (content fp) [127 + Z.of_nat n]) in Hfp.
    cbn [length] in Hfp. now rewrite Nat.add_1_r in Hfp. }
  rewrite (fread_record _ b rec rest Hfp1 Hrec) by lia.
  cbn [pos content].
  unfold Mem.store. rewrite Hrec.
  destruct (Nat.leb_spec (0 + b) (length smp)) as [_|H0]; [|lia].
  cbn [obind firstn app Nat.add Nat.ltb Nat.leb].
  replace (127 + Z.of_nat n - 127) with (Z.of_nat n) by lia.
  replace (S (pos fp + b))%nat with (pos fp + 1 + b)%nat by lia.
  reflexivity.
Qed.

Lemma body_head_direct (b n : nat) (smp : list Z) (fp : FILE)
  (mem : list Z) (off : nat) (rest : list Z) :
  (1 <= n <= 128)%nat ->
  skipn (pos fp) (content fp) = (Z.of_nat n - 1) :: rest ->
  rle_read_body b (mk_rle_rstate (mk_rle_static 0 0 smp) fp mem off)
  = rle_read_body b
      (mk_rle_rstate (mk_rle_static 0 (Z.of_nat n) smp)
                     (mkFILE (content fp) (pos fp + 1)) mem off).
Proof.
  intros Hn Hfp. unfold rle_read_body.
  cbn [r_static r_fp r_mem r_buf s_repeat s_direct s_sample].
  rewrite (getc_next fp _ _ Hfp).
  destruct (Z.eqb_spec (Z.of_nat n) 0) as [H0|_]; [lia|].
  cbn [Z.eqb andb].
  destruct (Z.eqb_spec (Z.of_nat n - 1) EOF) as [H0|_];
    [unfold EOF in H0; lia|].
  destruct (Z.leb_spec 128 (Z.of_nat n - 1)) as [H0|_]; [lia|].
  replace (Z.of_nat n - 1 + 1) with (Z.of_nat n) by lia.
  replace (S (pos fp)) with (pos fp + 1)%nat by lia.
  reflexivity.
Qed.

Lemma steps_body_eq (n b : nat) (s s' : rle_rstate) :
  rle_read_body b s = rle_read_body b s' ->
  rle_read_steps (S n) b s = rle_read_steps (S n) b s'.
Proof. intros H. cbn [rle_read_steps]. now rewrite H. Qed.

(** Decoding one packet. *)
Lemma steps_packet (b : nat) (p : packet) (pre hole post smp : list Z)
  (fp : FILE) (rest : list Z) :
  (1 <= b <= 4)%nat -> length smp = 4%nat -> whole_packet b p ->
  skipn (pos fp) (content fp) = packet_bytes p ++ rest ->
  length hole = (declared_count p * b)%nat ->
  exists smp',
    length smp' = 4%nat /\
    rle_read_steps (declared_count p) b
      (mk_rle_rstate (mk_rle_static 0 0 smp) fp
                     (pre ++ hole ++ post) (length pre))
    = Some (mk_rle_rstate (mk_rle_static 0 0 smp')
              (mkFILE (content fp) (pos fp + length (packet_bytes p)))
              (pre ++ packet_pixels p ++ post)
              (length pre + declared_count p * b)).
Proof.
  intros Hb Hsmp [Hcount Hpay] Hfp Hhole.
  destruct p as [n rec|n pl]; cbn [declared_count packet_payload packet_bytes
    control_byte packet_pixels length] in *.
  - exists (rec ++ skipn b smp). split.
    { rewrite length_app, length_skipn. lia. }
    destruct n as [|n]; [lia|].
    rewrite (steps_body_eq n b _ _
               (body_head_repeat b (S n) smp fp (pre ++ hole ++ post)
                  (length pre) rec rest ltac:(lia) ltac:(lia) Hpay Hfp)).
    rewrite (steps_repeat_run b (S n) pre hole post 0 (rec ++ skipn b smp)
               (mkFILE (content fp) (pos fp + 1 + b)) rec); try assumption.
    + do 3 f_equal. lia.
    + rewrite load_Some by (rewrite length_app, length_skipn; lia).
      cbn [skipn]. rewrite firstn_app, <- Hpay, Nat.sub_diag, firstn_all.
      cbn [firstn]. now rewrite app_nil_r.
  - exists smp. split; [exact Hsmp|].
    destruct n as [|n]; [lia|].
    rewrite (steps_body_eq n b _ _
               (body_head_direct b (S n) smp fp (pre ++ hole ++ post)
                  (length pre) (pl ++ rest) ltac:(lia) Hfp)).
    assert (Hfp1 : skipn (pos (mkFILE (content fp) (pos fp + 1)))
                         (content (mkFILE (content fp) (pos fp + 1)))
                   = pl ++ rest).
    { cbn [pos content].
      now apply (skipn_advance (pos fp) (content fp)
                   [Z.of_nat (S n) - 1]) in Hfp. }
    rewrite (steps_direct_run b (S n) pre hole post smp _ pl rest
               ltac:(lia) Hfp1 Hpay Hhole).
    cbn [pos content]. do 3 f_equal. lia.
Qed.

(** Decoding a sequence of packets. *)
Lemma steps_packets (b : nat) (ps : list packet) :
  forall (pre hole post smp : list Z) (fp : FILE) (rest : list Z),
    (1 <= b <= 4)%nat -> length smp = 4%nat ->
    Forall (whole_packet b) ps ->
    skipn (pos fp) (content fp) = flat_map packet_bytes ps ++ rest ->
    length hole = (total_count ps * b)%nat ->
    exists smp',
      length smp' = 4%nat /\
      rle_read_steps (total_count ps) b
        (mk_rle_rstate (mk_rle_static 0 0 smp) fp
                       (pre ++ hole ++ post) (length pre))
      = Some (mk_rle_rstate (mk_rle_static 0 0 smp')
                (mkFILE (content fp)
                        (pos fp + length (flat_map packet_bytes ps)))
                (pre ++ flat_map packet_pixels ps ++ post)
                (length pre + total_count ps * b)).
Proof.
  induction ps as [|p ps IH];
    intros pre hole post smp fp rest Hb Hsmp Hwf Hfp Hhole.
  - exists smp. split; [exact Hsmp|].
    destruct hole; [|discriminate]. simpl.
    rewrite !Nat.add_0_r. now destruct fp.
  - inversion Hwf as [|p' ps' Hp Hps]; subst p' ps'.
    change (total_count (p :: ps))
      with (declared_count p + total_count ps)%nat in *.
    cbn [flat_map] in *.
    set (c := declared_count p) in *. set (t := total_count ps) in *.
    rewrite Nat.mul_add_distr_r in Hhole.
    assert (Hh : hole = firstn (c * b) hole ++ skipn (c * b) hole)
      by (now rewrite firstn_skipn).
    assert (Hh1 : length (firstn (c * b) hole) = (c * b)%nat)
      by (rewrite length_firstn; lia).
    assert (Hh2 : length (skipn (c * b) hole) = (t * b)%nat)
      by (rewrite length_skipn; lia).
    rewrite <- app_assoc in Hfp.
    destruct (steps_packet b p pre (firstn (c * b) hole)
                (skipn (c * b) hole ++ post) smp fp
                (flat_map packet_bytes ps ++ rest) Hb Hsmp Hp Hfp Hh1)
      as (smp1 & Hsmp1 & Hrun1).
    fold c in Hrun1.
    assert (Hpl : length (packet_pixels p) = (c * b)%nat)
      by (now apply packet_pixels_length).
    destruct (IH (pre ++ packet_pixels p) (skipn (c * b) hole) post smp1
                (mkFILE (content fp) (pos fp + length (packet_bytes p)))
                rest Hb Hsmp1 Hps) as (smp2 & Hsmp2 & Hrun2).
    { cbn [pos content]. now apply skipn_advance. }
    { exact Hh2. }
    exists smp2. split; [exact Hsmp2|].
    rewrite Hh, <- app_assoc.
    apply (steps_app c t b _ _ _ Hrun1).
    replace (length pre + c * b)%nat with (length (pre ++ packet_pixels p))
      by (rewrite length_app; lia).
    replace (pre ++ packet_pixels p ++ skipn (c * b) hole ++ post)
      with ((pre ++ packet_pixels p) ++ skipn (c * b) hole ++ post)
      by (now rewrite <- app_assoc).
    rewrite Hrun2. cbn [pos content].
    f_equal. f_equal.
    + f_equal. rewrite length_app. lia.
    + now rewrite <- !app_assoc.
    + rewrite length_app. lia.
Qed.

(** [rle_read] on a stream positioned at a sequence of whole packets that
    holds exactly one row. *)
Lemma rle_read_packets (b : nat) (ps : list packet) (smp buf : list Z)
  (fp : FILE) (rest : list Z) (info : tga_info) :
  (1 <= b <= 4)%nat -> length smp = 4%nat ->
  Forall (whole_packet b) ps ->
  skipn (pos fp) (content fp) = flat_map packet_bytes ps ++ rest ->
  width info = Z.of_nat (total_count ps) -> bytes info = Z.of_nat b ->
  length buf = (total_count ps * b)%nat ->
  exists smp',
    rle_read (mk_rle_static 0 0 smp) fp buf info
    = Some (0, mk_rle_static 0 0 smp',
            mkFILE (content fp) (pos fp + length (flat_map packet_bytes ps)),
            flat_map packet_pixels ps).
Proof.
  intros Hb Hsmp Hwf Hfp Hw Hbytes Hbuf.
  destruct (steps_packets b ps [] buf [] smp fp rest Hb Hsmp Hwf Hfp Hbuf)
    as (smp' & _ & Hrun).
  exists smp'. unfold rle_read.
  rewrite Hw, Hbytes, !Nat2Z.id.
  cbn [app length] in Hrun. rewrite app_nil_r in Hrun.
  rewrite (steps_loop _ _ _ _ Hrun). cbn [obind r_static r_fp r_mem].
  now rewrite app_nil_r.
Qed.

(** ** Run-length coding: the two theorems *)

(** C8.  For every row of [w >= 1] records of [b] bytes, what [rle_write]
    appends to the file is a sequence of packets, each with a declared
    count between 1 and 128 and made of one control byte followed by
    exactly one whole record (repeat packet) or exactly as many whole
    records as its count (direct packet); the packets cover the [w]
    records of the row in order, so that no packet boundary falls inside
    a record. *)
Theorem rle_write_whole_packets (fp row : list Z) (w b : nat) :
  (1 <= w)%nat -> length row = (w * b)%nat ->
  exists ps : list packet,
    rle_write fp row w b = Some (fp ++ flat_map packet_bytes ps) /\
    Forall (whole_packet b) ps /\
    Forall (fun p => 1 <= declared_count p <= 128)%nat ps /\
    Forall (fun p =>
              match p with
              | Repeat n rec =>
                  control_byte p = 127 + Z.of_nat n /\ length rec = b
              | Direct n payload =>
                  control_byte p = Z.of_nat n - 1 /\
                  length payload = (n * b)%nat
              end) ps /\
    flat_map packet_pixels ps = row /\
    total_count ps = w.
Proof.
  intros Hw Hlen.
  destruct (rle_write_packets fp row w b Hw Hlen) as (ps & Hout & Hwf & Hpx & Ht).
  exists ps. repeat split; try assumption.
  - eapply Forall_impl; [|exact Hwf]. intros p [Hc _]. exact Hc.
  - eapply Forall_impl; [|exact Hwf].
    intros [n rec|n pl] [_ Hp]; simpl in *; split; auto.
Qed.

Lemma rle_write_whole_packets_witness :
  (1 <= 3)%nat /\ length [5; 5; 7] = (3 * 1)%nat /\
  exists ps : list packet,
    rle_write [] [5; 5; 7] 3 1 = Some ([] ++ flat_map packet_bytes ps) /\
    Forall (whole_packet 1) ps /\
    Forall (fun p => 1 <= declared_count p <= 128)%nat ps /\
    Forall (fun p =>
              match p with
              | Repeat n rec =>
                  control_byte p = 127 + Z.of_nat n /\ length rec = 1%nat
              | Direct n payload =>
                  control_byte p = Z.of_nat n - 1 /\
                  length payload = (n * 1)%nat
              end) ps /\
    flat_map packet_pixels ps = [5; 5; 7] /\
    total_count ps = 3%nat.
Proof.
  split; [lia|]. split; [reflexivity|].
  apply (rle_write_whole_packets [] [5; 5; 7] 3 1); [lia | reflexivity].
Defined.

(** C1.  For every row of [w >= 1] records of [b] bytes, [1 <= b <= 4],
    [rle_read] applied to the bytes that [rle_write] produced for the row
    returns 0 and leaves exactly the row in the row buffer, whatever the
    row is made of and whatever surrounds its bytes in the file; the
    stream ends up just after the row and both counters are back at
    zero. *)
Theorem rle_read_rle_write (w b : nat) (row buf smp before after : list Z)
  (info : tga_info) :
  (1 <= w)%nat -> (1 <= b <= 4)%nat ->
  length row = (w * b)%nat -> length buf = (w * b)%nat ->
  length smp = 4%nat ->
  width info = Z.of_nat w -> bytes info = Z.of_nat b ->
  exists (enc smp' : list Z),
    rle_write before row w b = Some (before ++ enc) /\
    rle_read (mk_rle_static 0 0 smp)
             (mkFILE (before ++ enc ++ after) (length before)) buf info
    = Some (0, mk_rle_static 0 0 smp',
            mkFILE (before ++ enc ++ after) (length before + length enc),
            row).
Proof.
  intros Hw Hb Hrow Hbuf Hsmp Hwidth Hbytes.
  destruct (rle_write_packets before row w b Hw Hrow)
    as (ps & Hout & Hwf & Hpx & Ht).
  set (enc := flat_map packet_bytes ps) in *.
  destruct (rle_read_packets b ps smp buf
              (mkFILE (before ++ enc ++ after) (length before)) after info)
    as (smp' & Hread); try assumption.
  - cbn [pos content]. rewrite skipn_app, skipn_all, Nat.sub_diag.
    reflexivity.
  - now rewrite Ht.
  - now rewrite Ht.
  - exists enc, smp'. split; [exact Hout|].
    cbn [pos content] in Hread. now rewrite Hread, Hpx.
Qed.

Lemma rle_read_rle_write_witness :
  (1 <= 3)%nat /\ (1 <= 1 <= 4)%nat /\
  length [5; 5; 7] = (3 * 1)%nat /\ length [0; 0; 0] = (3 * 1)%nat /\
  length [0; 0; 0; 0] = 4%nat /\
  exists (enc smp' : list Z),
    rle_write [] [5; 5; 7] 3 1 = Some ([] ++ enc) /\
    rle_read (mk_rle_static 0 0 [0; 0; 0; 0])
             (mkFILE ([] ++ enc ++ []) (length (@nil Z))) [0; 0; 0]
             (mk_tga_info 0 0 TGA_TYPE_GRAY TGA_COMP_RLE 0 0 0 0 0 3 1 8 1
                          0 0 0)
    = Some (0, mk_rle_static 0 0 smp',
            mkFILE ([] ++ enc ++ []) (length (@nil Z) + length enc),
            [5; 5; 7]).
Proof.
  split; [lia|]. split; [lia|]. do 3 (split; [reflexivity|]).
  apply (rle_read_rle_write 3 1 [5; 5; 7] [0; 0; 0] [0; 0; 0; 0] [] []);
    first [lia | reflexivity].
Defined.

(** ** Upsampling of 5-bit channels *)

Lemma in_bytes_below (n : nat) (z : Z) :
  0 <= z < Z.of_nat n -> In z (bytes_below n).
Proof.
  intros H. unfold bytes_below. apply in_map_iff.
  exists (Z.to_nat z). split; [lia|]. apply in_seq. lia.
Qed.

Lemma upsample_channel_table :
  forallb (fun s0 => forallb (upsample_channel_ok s0) (bytes_below 256))
          (bytes_below 256) = true.
Proof. vm_compute. reflexivity. Qed.

Lemma upsample_pixel_alpha (src0 src1 alpha : Z) (c : nat) :
  (c < 3)%nat ->
  nth c (upsample_pixel src0 src1 alpha) (-1)
  = nth c (upsample_pixel src0 src1 0) (-1).
Proof.
  intros Hc. unfold upsample_pixel.
  destruct (Z.eqb_spec alpha 0) as [_|_]; cbn [Z.eqb];
    destruct c as [|[|[|c]]]; try lia; reflexivity.
Qed.

Lemma upsample_pixel_channel (src0 src1 alpha : Z) (c : nat) :
  0 <= src0 < 256 -> 0 <= src1 < 256 -> (c < 3)%nat ->
  nth c (upsample_pixel src0 src1 alpha) (-1)
  = bit_spread (channel c src0 src1).
Proof.
  intros H0 H1 Hc. rewrite upsample_pixel_alpha by exact Hc.
  pose proof upsample_channel_table as T.
  rewrite forallb_forall in T.
  specialize (T src0 (in_bytes_below 256 src0 H0)).
  rewrite forallb_forall in T.
  specialize (T src1 (in_bytes_below 256 src1 H1)).
  unfold upsample_channel_ok in T. rewrite forallb_forall in T.
  specialize (T 0 (or_introl eq_refl)).
  rewrite forallb_forall in T.
  assert (Hin : In c [0; 1; 2]%nat)
    by (destruct c as [|[|[|c]]]; simpl; auto; lia).
  specialize (T c Hin). now apply Z.eqb_eq in T.
Qed.

Lemma channel_range (c : nat) (src0 src1 : Z) :
  0 <= channel c src0 src1 <= 31.
Proof.
  unfold channel.
  assert (H : 0 <= Z.land (Z.shiftr (src0 + 256 * src1)
                             (5 * (2 - Z.of_nat c))) 31 < 2 ^ 5).
  { change 31 with (Z.ones 5). rewrite Z.land_ones by lia.
    apply Z.mod_pos_bound. lia. }
  change (2 ^ 5) with 32 in H. lia.
Qed.

Lemma bit_spread_eq (v : Z) : bit_spread v = 8 * v + v / 4.
Proof.
  unfold bit_spread. rewrite Z.shiftl_mul_pow2, Z.shiftr_div_pow2 by lia.
  change (2 ^ 3) with 8. change (2 ^ 2) with 4. lia.
Qed.

(** C9.  For each of the three colour channels, the byte that [upsample]
    produces for a pixel is the bit spread of the channel's 5-bit value
    [v]: [v] placed in the top five bits plus its top three bits in the
    low three.  The byte lies in [0, 255], is 0 for [v = 0] and 255 for
    [v = 31], and does not decrease when [v] grows. *)
Theorem upsample_bit_spread (c : nat) (s0 s1 t0 t1 alpha v v' : Z) :
  (c < 3)%nat ->
  0 <= s0 < 256 -> 0 <= s1 < 256 -> 0 <= t0 < 256 -> 0 <= t1 < 256 ->
  channel c s0 s1 = v -> channel c t0 t1 = v' -> v <= v' ->
  let out := nth c (upsample_pixel s0 s1 alpha) (-1) in
  let out' := nth c (upsample_pixel t0 t1 alpha) (-1) in
  0 <= v <= 31 /\
  out = Z.shiftl v 3 + Z.shiftr v 2 /\
  0 <= out <= 255 /\
  out <= out' /\
  (v = 0 -> out = 0) /\
  (v = 31 -> out = 255).
Proof.
  intros Hc Hs0 Hs1 Ht0 Ht1 Hv Hv' Hle out out'. subst out out'.
  rewrite !upsample_pixel_channel by assumption.
  rewrite Hv, Hv'.
  pose proof (channel_range c s0 s1) as R. rewrite Hv in R.
  pose proof (channel_range c t0 t1) as R'. rewrite Hv' in R'.
  split; [exact R|]. split; [reflexivity|].
  rewrite !bit_spread_eq.
  assert (D : v / 4 <= v' / 4) by (apply Z.div_le_mono; lia).
  assert (D0 : 0 <= v / 4) by (apply Z.div_pos; lia).
  assert (D1 : v / 4 <= 31 / 4) by (apply Z.div_le_mono; lia).
  change (31 / 4) with 7 in D1.
  repeat split; try lia.
  - intros ->. reflexivity.
  - intros ->. reflexivity.
Qed.

Lemma upsample_bit_spread_witness :
  let out := nth 0 (upsample_pixel 0 64 0) (-1) in
  let out' := nth 0 (upsample_pixel 0 124 0) (-1) in
  0 <= 16 <= 31 /\
  out = Z.shiftl 16 3 + Z.shiftr 16 2 /\
  0 <= out <= 255 /\
  out <= out' /\
  (16 = 0 -> out = 0) /\
  (16 = 31 -> out = 255).
Proof.
  apply (upsample_bit_spread 0 0 64 0 124 0 16 31);
    first [lia | reflexivity].
Defined.

(** ** Sub-format validation *)

Lemma byte_at_range (a : list Z) (i : nat) :
  Forall is_byte a -> 0 <= byte_at a i < 256.
Proof.
  intros H. unfold byte_at.
  destruct (nth_in_or_default i a 0) as [Hin| ->]; [|lia].
  rewrite Forall_forall in H. exact (H _ Hin).
Qed.

Lemma check_sub_format_table (info : tga_info) :
  imageType info = TGA_TYPE_MAPPED \/ imageType info = TGA_TYPE_COLOR
  \/ imageType info = TGA_TYPE_GRAY ->
  0 <= bpp info < 256 ->
  bytes info = (bpp info + 7) / 8 ->
  check_sub_format info
  = if sub_format_table (imageType info) (bpp info) (alphaBits info)
    then None else Some Unhandled_sub_format.
Proof.
  intros Hty Hbpp Hbytes.
  unfold check_sub_format, sub_format_table. rewrite Hbytes.
  unfold TGA_TYPE_MAPPED, TGA_TYPE_COLOR, TGA_TYPE_GRAY in *.
  destruct Hty as [E | [E | E]]; rewrite E; cbn [Z.eqb Pos.eqb];
    destruct (Z.eqb_spec (bpp info) 8) as [B8|B8];
    destruct (Z.eqb_spec (bpp info) 15) as [B15|B15];
    destruct (Z.eqb_spec (bpp info) 16) as [B16|B16];
    destruct (Z.eqb_spec (bpp info) 24) as [B24|B24];
    destruct (Z.eqb_spec (bpp info) 32) as [B32|B32];
    try lia;
    destruct (Z.eqb_spec (alphaBits info) 0);
    destruct (Z.eqb_spec (alphaBits info) 1);
    destruct (Z.eqb_spec (alphaBits info) 8);
    try lia; cbn [negb andb orb];
    try reflexivity;
    match goal with
    | H : bpp info = _ |- _ => rewrite H; reflexivity
    end.
Qed.

Lemma parse_header_fields (header : list Z) :
  Forall is_byte header ->
  In (byte_at header 2) [1; 2; 3; 9; 10; 11] ->
  let info := fix_alphaBits (parse_header header) in
  (imageType info = TGA_TYPE_MAPPED \/ imageType info = TGA_TYPE_COLOR
   \/ imageType info = TGA_TYPE_GRAY) /\
  0 <= bpp info < 256 /\
  bytes info = (bpp info + 7) / 8.
Proof.
  intros Hb Hcode info.
  assert (Hpres : forall i, imageType (fix_alphaBits i) = imageType i
                            /\ bpp (fix_alphaBits i) = bpp i
                            /\ bytes (fix_alphaBits i) = bytes i).
  { intros i. unfold fix_alphaBits.
    repeat match goal with
           | |- context [if ?c then _ else _] => destruct c
           end; cbn; auto. }
  destruct (Hpres (parse_header header)) as (Hty & Hbp & Hby).
  subst info. rewrite Hty, Hbp, Hby.
  pose proof (byte_at_range header 16 Hb) as H16.
  assert (Hbpp : bpp (parse_header header) = byte_at header 16).
  { unfold parse_header.
    repeat match goal with
           | |- context [if ?c then _ else _] => destruct c
           end; reflexivity. }
  assert (Hbytes : bytes (parse_header header)
                   = uchar ((byte_at header 16 + 7) / 8)).
  { unfold parse_header.
    repeat match goal with
           | |- context [if ?c then _ else _] => destruct c
           end; reflexivity. }
  rewrite Hbpp, Hbytes. split; [|split; [exact H16|]].
  - unfold parse_header. cbn in Hcode.
    destruct Hcode as [E|[E|[E|[E|[E|[E|[]]]]]]]; rewrite <- E; cbn; auto.
  - apply uchar_small.
    assert (0 <= (byte_at header 16 + 7) / 8) by (apply Z.div_pos; lia).
    assert ((byte_at header 16 + 7) / 8 <= 262 / 8)
      by (apply Z.div_le_mono; lia).
    change (262 / 8) with 32 in *. lia.
Qed.

(** C5.  For every 18-byte header with a known type code, once the two
    corrections of the alpha bits have been applied, the sub-format
    checks accept the header exactly when its image type, bits per pixel
    and alpha bits are in the table (Mapped: 8 bits; Truecolor: 15 or 24
    bits with alpha 0, 16 bits with alpha 0 or 1, 32 bits with alpha 8;
    Grayscale: 8 bits, or 15 or 16 bits with alpha 8), and refuse it as
    an unhandled sub-format otherwise: the outcome is a function of
    these three fields. *)
Theorem sub_format_accepts_exactly_table (header : list Z) :
  length header = 18%nat -> Forall is_byte header ->
  In (byte_at header 2) [1; 2; 3; 9; 10; 11] ->
  let info := fix_alphaBits (parse_header header) in
  check_sub_format info
  = (if sub_format_table (imageType info) (bpp info) (alphaBits info)
     then None else Some Unhandled_sub_format) /\
  (check_sub_format info = None <->
   (imageType info = TGA_TYPE_MAPPED /\ bpp info = 8) \/
   (imageType info = TGA_TYPE_COLOR /\
    ((bpp info = 15 \/ bpp info = 24) /\ alphaBits info = 0 \/
     bpp info = 16 /\ (alphaBits info = 0 \/ alphaBits info = 1) \/
     bpp info = 32 /\ alphaBits info = 8)) \/
   (imageType info = TGA_TYPE_GRAY /\
    (bpp info = 8 \/
     (bpp info = 15 \/ bpp info = 16) /\ alphaBits info = 8))).
Proof.
  intros _ Hb Hcode info.
  destruct (parse_header_fields header Hb Hcode) as (Hty & Hbpp & Hbytes).
  fold info in Hty, Hbpp, Hbytes.
  pose proof (check_sub_format_table info Hty Hbpp Hbytes) as E.
  split; [exact E|]. rewrite E. clear E.
  unfold sub_format_table, TGA_TYPE_MAPPED, TGA_TYPE_COLOR, TGA_TYPE_GRAY
    in *.
  destruct Hty as [E | [E | E]]; rewrite E; cbn [Z.eqb Pos.eqb];
    destruct (Z.eqb_spec (bpp info) 8);
    destruct (Z.eqb_spec (bpp info) 15);
    destruct (Z.eqb_spec (bpp info) 16);
    destruct (Z.eqb_spec (bpp info) 24);
    destruct (Z.eqb_spec (bpp info) 32);
    try lia;
    destruct (Z.eqb_spec (alphaBits info) 0);
    destruct (Z.eqb_spec (alphaBits info) 1);
    destruct (Z.eqb_spec (alphaBits info) 8);
    try lia; cbn [orb andb];
    (split; [intros H; try discriminate H; lia | intros H; lia || reflexivity]).
Qed.

Lemma sub_format_accepts_exactly_table_witness :
  let info :=
    fix_alphaBits
      (parse_header [0; 0; 2; 0; 0; 0; 0; 0; 0; 0; 0; 0; 1; 0; 1; 0; 24; 32])
  in
  check_sub_format info
  = (if sub_format_table (imageType info) (bpp info) (alphaBits info)
     then None else Some Unhandled_sub_format) /\
  (check_sub_format info = None <->
   (imageType info = TGA_TYPE_MAPPED /\ bpp info = 8) \/
   (imageType info = TGA_TYPE_COLOR /\
    ((bpp info = 15 \/ bpp info = 24) /\ alphaBits info = 0 \/
     bpp info = 16 /\ (alphaBits info = 0 \/ alphaBits info = 1) \/
     bpp info = 32 /\ alphaBits info = 8)) \/
   (imageType info = TGA_TYPE_GRAY /\
    (bpp info = 8 \/
     (bpp info = 15 \/ bpp info = 16) /\ alphaBits info = 8))).
Proof.
  apply (sub_format_accepts_exactly_table
           [0; 0; 2; 0; 0; 0; 0; 0; 0; 0; 0; 0; 1; 0; 1; 0; 24; 32]).
  - reflexivity.
  - repeat constructor; unfold is_byte; lia.
  - simpl. auto.
Defined.

(** ** Promotion of colour-mapped images *)

Lemma store_length (m : list Z) (off : nat) (v m' : list Z) :
  Mem.store m off v = Some m' -> length m' = length m.
Proof.
  unfold Mem.store.
  destruct (Nat.leb_spec (off + length v) (length m)) as [H|H];
    [|discriminate].
  intros E. inversion E. rewrite !length_app, length_firstn, length_skipn.
  lia.
Qed.

Lemma for_loop_invariant {S : Type} (P : S -> Prop) (body : S -> option S) :
  (forall s s', P s -> body s = Some s' -> P s') ->
  forall n s s', P s -> for_loop n body s = Some s' -> P s'.
Proof.
  intros Hstep. induction n as [|n IH]; intros s s' Hs H; simpl in H.
  - inversion H; subst. exact Hs.
  - destruct (body s) as [s1|] eqn:E; [|discriminate]. simpl in H.
    eapply IH; [|exact H]. eapply Hstep; eauto.
Qed.

Ltac obind_inv H :=
  repeat match type of H with
         | obind ?m _ = Some _ =>
             let a := fresh "a" in
             let E := fresh "E" in
             destruct m as [a|] eqn:E; [cbn [obind] in H | discriminate H]
         | (if ?c then _ else _) = Some _ => destruct c
         end.

Lemma bgr2rgb_length (dest : list Z) (doff : nat) (src : list Z)
  (w nbytes : nat) (alpha : Z) (out : list Z) :
  bgr2rgb dest doff src w nbytes alpha = Some out ->
  length out = length dest.
Proof.
  unfold bgr2rgb. intros H.
  destruct (for_loop w (bgr2rgb_body src nbytes alpha) (dest, doff, 0%nat))
    as [s|] eqn:E; [|discriminate]. cbn [obind] in H. inversion H; subst.
  apply (for_loop_invariant
           (fun s => length (fst (fst s)) = length dest)
           (bgr2rgb_body src nbytes alpha)) with (n := w) (s' := s) in E;
    [exact E| |reflexivity].
  intros [[d1 o1] i1] s' Hlen Hb. cbn [fst] in Hlen.
  unfold bgr2rgb_body in Hb. obind_inv Hb; inversion Hb; subst; cbn [fst];
    erewrite store_length by eassumption; exact Hlen.
Qed.

Lemma upsample_length (dest : list Z) (doff : nat) (src : list Z)
  (w nbytes : nat) (alpha : Z) (out : list Z) :
  upsample dest doff src w nbytes alpha = Some out ->
  length out = length dest.
Proof.
  unfold upsample. intros H.
  destruct (for_loop w (upsample_body src nbytes alpha) (dest, doff, 0%nat))
    as [s|] eqn:E; [|discriminate]. cbn [obind] in H. inversion H; subst.
  apply (for_loop_invariant
           (fun s => length (fst (fst s)) = length dest)
           (upsample_body src nbytes alpha)) with (n := w) (s' := s) in E;
    [exact E| |reflexivity].
  intros [[d1 o1] i1] s' Hlen Hb. cbn [fst] in Hlen.
  unfold upsample_body in Hb. obind_inv Hb; inversion Hb; subst; cbn [fst];
    erewrite store_length by eassumption; exact Hlen.
Qed.

Lemma g_new_length (h : host) (n : nat) : length (g_new h n) = n.
Proof. unfold g_new. now rewrite length_map, length_seq. Qed.

Lemma read_colormap_buffers (h : host) (info : tga_info) (fp fp' : FILE)
  (cs gs : option nat) (cc gc : option (list Z)) :
  imageType info = TGA_TYPE_MAPPED ->
  read_colormap h info fp cs gs = Image (fp', cc, gc) ->
  match cs, gs with
  | Some n, _ => gc = None /\ exists c, cc = Some c /\ length c = n
  | None, Some n => cc = None /\ exists c, gc = Some c /\ length c = n
  | None, None => False
  end.
Proof.
  intros Hty H. unfold read_colormap in H. rewrite Hty in H.
  cbn [Z.eqb TGA_TYPE_MAPPED Pos.eqb] in H.
  destruct (Z.to_nat ((colorMapSize info + 7) / 8) <=? 4)%nat;
    [|discriminate].
  destruct (fread _ 1 fp) as [[tga items] fp1].
  destruct (items =? 1)%nat; [|discriminate].
  destruct cs as [n|]; [|destruct gs as [n|]; [|discriminate]].
  - repeat match type of H with
           | (if ?c then _ else _) = _ => destruct c
           | match ?m with Some _ => _ | None => _ end = _ =>
               destruct m eqn:?
           end; try discriminate; inversion H; subst;
      (split; [reflexivity|eexists; split; [reflexivity|]]).
    + erewrite bgr2rgb_length by eassumption. apply g_new_length.
    + erewrite bgr2rgb_length by eassumption. apply g_new_length.
    + erewrite upsample_length by eassumption. apply g_new_length.
  - repeat match type of H with
           | (if ?c then _ else _) = _ => destruct c
           | match ?m with Some _ => _ | None => _ end = _ =>
               destruct m eqn:?
           end; try discriminate; inversion H; subst;
      (split; [reflexivity|eexists; split; [reflexivity|]]).
    + erewrite bgr2rgb_length by eassumption. apply g_new_length.
    + erewrite upsample_length by eassumption. apply g_new_length.
Qed.

Lemma ReadImage_Image (h : host) (st : rle_static) (fp : FILE)
  (info : tga_info) (img : gimp_image) :
  ReadImage h st fp info = Image img ->
  exists fp' cc gc,
    read_colormap h info fp (snd (fst (image_types info)))
                  (snd (image_types info)) = Image (fp', cc, gc) /\
    img_base_type img = fst (fst (fst (image_types info))) /\
    img_layer_type img = snd (fst (fst (image_types info))) /\
    img_colormap img = option_map (fun c => (c, colorMapLength info)) gc.
Proof.
  unfold ReadImage. destruct (image_types info) as [[[itype dtype] cs] gs].
  cbn [fst snd].
  destruct (read_colormap h info fp cs gs) as [[[fp' cc] gc]|m|];
    try discriminate.
  intros H. exists fp', cc, gc. split; [reflexivity|].
  destruct (if negb (flipVert info =? 0) then _ else _) as [[s sets]|];
    [|discriminate].
  inversion H; subst. cbn. auto.
Qed.

(** C6.  For every colour-mapped image that [ReadImage] delivers: if the
    colormap entries are wider than 24 bits, or the colormap reaches
    beyond index 256, or the resolved alpha bits are positive, the image
    is a direct-colour image whose layer is RGB or RGBA and which has no
    palette; otherwise the image is indexed, its layer is indexed, and
    its palette has three bytes for each of the [colorMapLength]
    entries. *)
Theorem mapped_promotion (h : host) (st : rle_static) (fp : FILE)
  (info : tga_info) (img : gimp_image) :
  imageType info = TGA_TYPE_MAPPED ->
  0 <= colorMapLength info ->
  ReadImage h st fp info = Image img ->
  (if (24 <? colorMapSize info)
      || (256 <? colorMapIndex info + colorMapLength info)
      || (0 <? alphaBits info)
   then
     img_base_type img = GIMP_RGB /\
     (img_layer_type img = GIMP_RGB_IMAGE \/
      img_layer_type img = GIMP_RGBA_IMAGE) /\
     img_colormap img = None
   else
     img_base_type img = GIMP_INDEXED /\
     img_layer_type img = GIMP_INDEXED_IMAGE /\
     exists palette,
       img_colormap img = Some (palette, colorMapLength info) /\
       Z.of_nat (length palette) = 3 * colorMapLength info) /\
  (colorMapSize info <= 24 ->
   256 < colorMapIndex info + colorMapLength info ->
   img_layer_type img = GIMP_RGB_IMAGE).
Proof.
  intros Hty Hlen H.
  destruct (ReadImage_Image h st fp info img H)
    as (fp' & cc & gc & Hcm & Hbase & Hlayer & Hpal).
  apply (read_colormap_buffers h info fp fp' _ _ cc gc Hty) in Hcm.
  unfold image_types in *. rewrite Hty in *.
  cbn [Z.eqb TGA_TYPE_MAPPED Pos.eqb] in *.
  destruct (Z.ltb_spec 24 (colorMapSize info));
    [|destruct (Z.ltb_spec 256 (colorMapIndex info + colorMapLength info));
      [|destruct (Z.ltb_spec 0 (alphaBits info))]];
    cbn [fst snd orb] in *.
  - destruct Hcm as (-> & _). split; [auto|]. intros; lia.
  - destruct Hcm as (-> & _). split; [auto|]. intros; assumption.
  - destruct Hcm as (-> & _). split; [auto|]. intros; lia.
  - destruct Hcm as (_ & c & -> & Hc). split; [|intros; lia].
    repeat split; try assumption.
    exists c. split; [exact Hpal|]. rewrite Hc. lia.
Qed.

(** ** The footer probe *)

Lemma load_from_start_content (h : host) (st : rle_static) (fp fp' : FILE) :
  content fp = content fp' ->
  load_from_start h st fp = load_from_start h st fp'.
Proof.
  intros H. unfold load_from_start, fseek_set, fseek_to.
  cbn [Z.ltb Z.compare Z.to_nat]. now rewrite H.
Qed.

Lemma memcmp_zero_iff (a b : list Z) :
  length a = length b -> (Mem.memcmp a b =? 0) = true <-> a = b.
Proof.
  intros Hlen. rewrite Z.eqb_eq. split.
  - now apply memcmp_zero.
  - intros ->. apply memcmp_refl.
Qed.

Lemma read_footer_cases (file : list Z) :
  Forall is_byte file ->
  (extension_unreadable file /\
   read_footer (fopen file) = Failed Cannot_read_extension) \/
  (~ extension_unreadable file /\
   exists p, read_footer (fopen file) = Image (mkFILE file p)).
Proof.
  intros Hb. unfold read_footer, fseek_end, fseek_to, size, fopen.
  cbn [content pos].
  destruct (Z.ltb_spec (Z.of_nat (length file) + -26) 0) as [Hs|Hs].
  { right. split; [intros (H & _); lia|]. cbn [Z.eqb]. now exists 0%nat. }
  cbn [Z.eqb]. unfold fread. cbn [content pos Nat.eqb].
  replace (Z.to_nat (Z.of_nat (length file) + -26))
    with (length file - 26)%nat by lia.
  rewrite Nat.mul_1_r.
  assert (Hfl : length (footer_of file) = 26%nat)
    by (unfold footer_of; rewrite length_skipn; lia).
  fold (footer_of file).
  rewrite firstn_all2 by lia. rewrite Hfl.
  change (26 / 26)%nat with 1%nat. cbn [Nat.eqb negb].
  fold (extension_offset (footer_of file)).
  assert (Hoff : 0 <= extension_offset (footer_of file)).
  { assert (Hf : Forall is_byte (footer_of file)).
    { unfold footer_of. rewrite Forall_forall in *. intros x Hx.
      apply Hb. rewrite <- (firstn_skipn (length file - 26) file).
      apply in_or_app. now right. }
    unfold extension_offset.
    pose proof (byte_at_range (footer_of file) 0 Hf).
    pose proof (byte_at_range (footer_of file) 1 Hf).
    pose proof (byte_at_range (footer_of file) 2 Hf).
    pose proof (byte_at_range (footer_of file) 3 Hf). lia. }
  destruct (Mem.memcmp (skipn 8 (footer_of file)) magic =? 0) eqn:Hsig.
  2:{ right. split; [|eexists; reflexivity].
      intros (_ & Hm & _). rewrite Hm, memcmp_refl in Hsig. discriminate. }
  apply memcmp_zero_iff in Hsig;
    [|rewrite length_skipn, Hfl; reflexivity].
  destruct (Z.eqb_spec (extension_offset (footer_of file)) 0) as [H0|H0];
    cbn [negb].
  { right. split; [|eexists; reflexivity]. intros (_ & _ & Hn & _). lia. }
  unfold fseek_set, fseek_to.
  destruct (Z.ltb_spec (extension_offset (footer_of file)) 0) as [Hn|_];
    [lia|].
  cbn [Z.eqb negb content pos]. rewrite Nat.mul_1_r.
  set (off := Z.to_nat (extension_offset (footer_of file))).
  assert (Hgot : length (firstn 495 (skipn off file))
                 = Nat.min 495 (length file - off))
    by (now rewrite length_firstn, length_skipn).
  rewrite Hgot.
  destruct (Nat.le_gt_cases 495 (length file - off)) as [Hle|Hgt].
  - right. split; [intros (_ & _ & _ & Hlt); lia|].
    rewrite Nat.min_l by lia. change (495 / 495)%nat with 1%nat.
    cbn [Nat.eqb negb]. eexists; reflexivity.
  - left. split; [repeat split; try assumption; lia|].
    rewrite Nat.min_r by lia. rewrite Nat.div_small by lia.
    reflexivity.
Qed.

(** C3, as the code has it.  A file that is too short for a footer, or
    whose last 26 bytes lack the signature, or whose extension offset is
    zero, or whose 495-byte extension block can be read, is loaded as a
    version-1 file: the load is the one that starts with the re-seek to
    offset 0 and the read of the 18-byte header, and it does not depend
    on the position the probe left behind.  A footer with the signature
    and a non-zero extension offset whose 495-byte block runs past the
    end of the file makes the load give up with "Cannot read
    extension". *)
Theorem footer_probe_outcome (h : host) (st : rle_static) (file : list Z) :
  Forall is_byte file ->
  (extension_unreadable file ->
   load_image h st file = Failed Cannot_read_extension) /\
  (~ extension_unreadable file ->
   load_image h st file = load_from_start h st (fopen file)) /\
  (forall p, load_from_start h st (mkFILE file p)
             = load_from_start h st (fopen file)).
Proof.
  intros Hb. unfold load_image.
  destruct (read_footer_cases file Hb) as [(Hu & ->)|(Hn & p & ->)].
  - split; [|split].
    + reflexivity.
    + intros H. contradiction.
    + intros p. now apply load_from_start_content.
  - split; [|split].
    + intros H. contradiction.
    + intros _. now apply load_from_start_content.
    + intros q. now apply load_from_start_content.
Qed.

(** ** Colormap lookups *)

Lemma get_inside (m : list Z) (i : Z) :
  0 <= i < Z.of_nat (length m) ->
  Mem.get m i = Some (nth (Z.to_nat i) m 0).
Proof.
  intros H. unfold Mem.get.
  destruct (Z.ltb_spec i 0) as [Hn|_]; [lia|].
  apply nth_error_nth'. lia.
Qed.

Lemma get_outside (m : list Z) (i : Z) :
  i < 0 \/ Z.of_nat (length m) <= i -> Mem.get m i = None.
Proof.
  intros H. unfold Mem.get.
  destruct (Z.ltb_spec i 0) as [Hn|Hp]; [reflexivity|].
  apply nth_error_None. lia.
Qed.

Lemma nth_error_middle {A : Type} (done : list A) (v : A) (rest : list A) :
  nth_error (done ++ v :: rest) (length done) = Some v.
Proof.
  rewrite nth_error_app2 by lia. now rewrite Nat.sub_diag.
Qed.

Lemma firstn_app_exact_l {A : Type} (a l : list A) (n : nat) :
  length a = n -> firstn n (a ++ l) = a.
Proof.
  intros <-. rewrite firstn_app, Nat.sub_diag, firstn_all. simpl.
  apply app_nil_r.
Qed.

Lemma skipn_app_exact_l {A : Type} (a l : list A) (m : nat) :
  skipn (length a + m) (a ++ l) = skipn m l.
Proof.
  rewrite skipn_app.
  replace (length a + m - length a)%nat with m by lia.
  rewrite skipn_all2 by lia. reflexivity.
Qed.

Lemma colormap_entry_length (cmap : list Z) (alpha : bool) (e : Z) :
  length (colormap_entry cmap alpha e) = entry_width alpha.
Proof.
  unfold colormap_entry, bytes_below.
  now rewrite !length_map, length_seq.
Qed.

(** The reads of one turn of the loop of [apply_colormap]: they succeed
    exactly when the entry selected lies inside the table. *)
Lemma apply_colormap_reads (cmap : list Z) (alpha : bool) (index v : Z)
  (dest : list Z) (d : nat) (done rest : list Z) :
  apply_colormap_body (done ++ v :: rest) cmap alpha index
                      (dest, d, length done)
  = if entry_inside cmap alpha index v
    then dest' <- Mem.store dest d (colormap_entry cmap alpha (v - index)) ;;
         Some (dest', (d + entry_width alpha)%nat, (length done + 1)%nat)
    else None.
Proof.
  unfold apply_colormap_body. rewrite nth_error_middle. cbn [obind].
  unfold entry_inside.
  destruct alpha; cbn [entry_width];
    destruct (Z.leb_spec 0 ((v - index) * Z.of_nat 4)) as [Hlo4|Hlo4];
    destruct (Z.leb_spec 0 ((v - index) * Z.of_nat 3)) as [Hlo3|Hlo3];
    try lia; cbn [andb].
  - destruct (Z.leb_spec ((v - index) * Z.of_nat 4 + Z.of_nat 4)
                         (Z.of_nat (length cmap))) as [Hhi|Hhi].
    + rewrite !get_inside by lia. cbn [obind].
      unfold colormap_entry. cbn. rewrite Z.add_0_r. reflexivity.
    + destruct (Mem.get cmap ((v - index) * 4)); [|reflexivity].
      cbn [obind].
      destruct (Mem.get cmap ((v - index) * 4 + 1)); [|reflexivity].
      cbn [obind].
      destruct (Mem.get cmap ((v - index) * 4 + 2)); [|reflexivity].
      cbn [obind].
      rewrite (get_outside cmap ((v - index) * 4 + 3)) by lia.
      reflexivity.
  - rewrite (get_outside cmap ((v - index) * 4)) by lia. reflexivity.
  - destruct (Z.leb_spec ((v - index) * Z.of_nat 3 + Z.of_nat 3)
                         (Z.of_nat (length cmap))) as [Hhi|Hhi].
    + rewrite !get_inside by lia. cbn [obind].
      unfold colormap_entry. cbn. rewrite Z.add_0_r. reflexivity.
    + destruct (Mem.get cmap ((v - index) * 3)); [|reflexivity].
      cbn [obind].
      destruct (Mem.get cmap ((v - index) * 3 + 1)); [|reflexivity].
      cbn [obind].
      rewrite (get_outside cmap ((v - index) * 3 + 2)) by lia.
      reflexivity.
  - rewrite (get_outside cmap ((v - index) * 3)) by lia. reflexivity.
Qed.

(** The loop of [apply_colormap] on any table and any destination: it
    ends inside defined behaviour exactly when every entry selected lies
    inside the table and the destination has room for the row. *)
Lemma apply_colormap_loop (cmap : list Z) (alpha : bool) (index : Z)
  (rest : list Z) :
  forall (done dest : list Z) (d : nat),
    for_loop (length rest)
             (apply_colormap_body (done ++ rest) cmap alpha index)
             (dest, d, length done)
    = if forallb (entry_inside cmap alpha index) rest
         && ((length rest =? 0)%nat
             || (d + entry_width alpha * length rest <=? length dest)%nat)
      then Some (firstn d dest
                 ++ flat_map (fun v => colormap_entry cmap alpha (v - index))
                             rest
                 ++ skipn (d + entry_width alpha * length rest) dest,
                 (d + entry_width alpha * length rest)%nat,
                 (length done + length rest)%nat)
      else None.
Proof.
  induction rest as [|v rest IH]; intros done dest d.
  - cbn [length for_loop forallb flat_map Nat.eqb orb andb app].
    rewrite Nat.mul_0_r, !Nat.add_0_r, firstn_skipn. reflexivity.
  - cbn [length for_loop forallb flat_map].
    rewrite (apply_colormap_reads cmap alpha index v dest d done rest).
    destruct (entry_inside cmap alpha index v); cbn [andb obind];
      [|reflexivity].
    set (k := entry_width alpha).
    set (e := colormap_entry cmap alpha (v - index)).
    assert (He : length e = k) by apply colormap_entry_length.
    cbn [Nat.eqb orb]. unfold Mem.store. rewrite He.
    destruct (Nat.leb_spec (d + k) (length dest)) as [Hroom|Hroom].
    2:{ cbn [obind].
        destruct (Nat.leb_spec (d + k * S (length rest)) (length dest));
          [nia|].
        now rewrite andb_false_r. }
    cbn [obind].
    set (dest1 := firstn d dest ++ e ++ skipn (d + k) dest).
    assert (Hl1 : length dest1 = length dest).
    { subst dest1. rewrite !length_app, length_firstn, length_skipn. lia. }
    replace (done ++ v :: rest) with ((done ++ [v]) ++ rest)
      by (now rewrite <- app_assoc).
    replace (length done + 1)%nat with (length (done ++ [v]))
      by (rewrite length_app; reflexivity).
    rewrite (IH (done ++ [v]) dest1 (d + k)%nat). fold k. rewrite Hl1.
    assert (Hcond : ((length rest =? 0)%nat
                     || (d + k + k * length rest <=? length dest)%nat)
                    = (d + k * S (length rest) <=? length dest)%nat).
    { destruct (Nat.eqb_spec (length rest) 0) as [E|E]; cbn [orb].
      - rewrite E. symmetry. apply Nat.leb_le. lia.
      - f_equal. lia. }
    rewrite Hcond.
    destruct (forallb (entry_inside cmap alpha index) rest); cbn [andb];
      [|reflexivity].
    destruct (Nat.leb_spec (d + k * S (length rest)) (length dest))
      as [Hall|Hall]; [|reflexivity].
    assert (Hf : firstn (d + k) dest1 = firstn d dest ++ e).
    { subst dest1. rewrite app_assoc.
      apply firstn_app_exact_l. rewrite length_app, length_firstn. lia. }
    assert (Hs : skipn (d + k + k * length rest) dest1
                 = skipn (d + k * S (length rest)) dest).
    { subst dest1. rewrite app_assoc.
      replace (d + k + k * length rest)%nat
        with (length (firstn d dest ++ e) + k * length rest)%nat
        by (rewrite length_app, length_firstn; lia).
      rewrite skipn_app_exact_l, skipn_skipn. f_equal. lia. }
    rewrite Hf, Hs, length_app, <- !app_assoc. cbn [length].
    f_equal. f_equal; [f_equal|]; lia.
Qed.

(** C4, as the code has it.  [apply_colormap] compares no index byte
    with the colormap range and has no failure of its own.  For each
    index byte it reads the 4 (alpha) or 3 (no alpha) bytes of the table
    at offset [(byte - colorMapIndex) * 4] or [* 3], wherever that
    lands: given room in the destination row, the bytes are copied when
    all of them lie inside the table, and otherwise the read is outside
    the table.  On a table of at most [len] entries of that width, an
    index byte outside [[colorMapIndex, colorMapIndex + len)] always
    reads outside the table. *)
Theorem apply_colormap_unchecked (dest : list Z) (doff : nat)
  (src cmap : list Z) (alpha : bool) (index : Z) :
  apply_colormap dest doff src (length src) cmap alpha index
  = (if forallb (entry_inside cmap alpha index) src
        && ((length src =? 0)%nat
            || (doff + entry_width alpha * length src <=? length dest)%nat)
     then Some (firstn doff dest
                ++ flat_map (fun v => colormap_entry cmap alpha (v - index))
                            src
                ++ skipn (doff + entry_width alpha * length src) dest)
     else None) /\
  (forall (len v : Z),
     Z.of_nat (length cmap) <= Z.of_nat (entry_width alpha) * len ->
     In v src -> index_in_range index len v = false ->
     entry_inside cmap alpha index v = false /\
     apply_colormap dest doff src (length src) cmap alpha index = None).
Proof.
  assert (H : apply_colormap dest doff src (length src) cmap alpha index
              = (if forallb (entry_inside cmap alpha index) src
                    && ((length src =? 0)%nat
                        || (doff + entry_width alpha * length src
                            <=? length dest)%nat)
                 then Some (firstn doff dest
                            ++ flat_map (fun v => colormap_entry cmap alpha
                                                    (v - index)) src
                            ++ skipn (doff + entry_width alpha * length src)
                                     dest)
                 else None)).
  { unfold apply_colormap.
    pose proof (apply_colormap_loop cmap alpha index src [] dest doff) as L.
    cbn [app length] in L. rewrite L.
    destruct (forallb (entry_inside cmap alpha index) src
              && ((length src =? 0)%nat
                  || (doff + entry_width alpha * length src
                      <=? length dest)%nat)); reflexivity. }
  split; [exact H|].
  intros len v Hc Hin Hout. rewrite H.
  assert (Hv : entry_inside cmap alpha index v = false).
  { unfold index_in_range in Hout. unfold entry_inside.
    assert (Hk : 3 <= Z.of_nat (entry_width alpha) <= 4)
      by (destruct alpha; cbn; lia).
    apply andb_false_iff in Hout. apply andb_false_iff.
    destruct Hout as [Hlo|Hhi].
    - left. apply Z.leb_gt. apply Z.leb_gt in Hlo. nia.
    - right. apply Z.leb_gt. apply Z.ltb_ge in Hhi. nia. }
  assert (Hall : forallb (entry_inside cmap alpha index) src = false).
  { apply not_true_is_false. intros Hall.
    rewrite forallb_forall in Hall. rewrite (Hall v Hin) in Hv.
    discriminate. }
  split; [exact Hv|]. rewrite Hall. reflexivity.
Qed.

(** ** Export of indexed drawables with alpha *)

Lemma save_palette_loop (gimp_cmap : list Z) (alpha : bool) (n : nat) :
  forall (fp : list Z) (i : nat),
    ((i + n) * 3 <= length gimp_cmap)%nat ->
    for_loop n (save_palette_body gimp_cmap alpha) (fp, Z.of_nat i)
    = Some (fp ++ flat_map (palette_entry gimp_cmap alpha) (seq i n),
            Z.of_nat (i + n)).
Proof.
  induction n as [|n IH]; intros fp i Hlen.
  - simpl. now rewrite app_nil_r, Nat.add_0_r.
  - cbn [for_loop]. unfold save_palette_body at 1.
    rewrite !get_inside by lia. cbn [obind].
    replace (Z.of_nat i + 1) with (Z.of_nat (S i)) by lia.
    rewrite IH by lia. f_equal. f_equal; [|f_equal; lia].
    cbn [seq flat_map]. unfold palette_entry at 2.
    replace (Z.to_nat (Z.of_nat i * 3 + 2)) with (i * 3 + 2)%nat by lia.
    replace (Z.to_nat (Z.of_nat i * 3 + 1)) with (i * 3 + 1)%nat by lia.
    replace (Z.to_nat (Z.of_nat i * 3 + 0)) with (i * 3)%nat by lia.
    unfold putc. destruct alpha; rewrite <- !app_assoc; reflexivity.
Qed.

(** The palette written for an indexed drawable with alpha: the real
    entries, each followed by 255, then four zero bytes. *)
Lemma save_palette_indexeda (d : drawable) (fp : list Z) :
  d_type d = GIMP_INDEXEDA_IMAGE ->
  0 <= d_num_colors d ->
  3 * d_num_colors d <= Z.of_nat (length (d_cmap d)) ->
  save_palette d fp
  = Some (fp
          ++ flat_map (palette_entry (d_cmap d) true)
                      (seq 0 (Z.to_nat (d_num_colors d)))
          ++ [0; 0; 0; 0]).
Proof.
  intros Hty Hn Hlen. unfold save_palette. rewrite Hty. cbn [is_type].
  change 0 with (Z.of_nat 0) at 1.
  rewrite save_palette_loop by lia. cbn [obind fst].
  unfold putc. rewrite <- !app_assoc. reflexivity.
Qed.

(** The colormap length that the header of an indexed drawable with
    alpha declares. *)
Lemma save_header_indexeda_length (d : drawable) (rle : bool)
  (origin : TgaOrigin) :
  d_type d = GIMP_INDEXEDA_IMAGE ->
  0 <= d_num_colors d < 65535 ->
  byte_at (save_header d rle origin) 5
  + byte_at (save_header d rle origin) 6 * 256 = d_num_colors d + 1.
Proof.
  intros Hty Hn. unfold save_header. rewrite Hty. cbn [is_type].
  unfold byte_at. cbn [app map nth].
  set (n := d_num_colors d + 1) in *.
  assert (Hq : 0 <= Z.quot n 256 < 256).
  { rewrite Z.quot_div_nonneg by lia. split.
    - apply Z.div_pos; lia.
    - apply Z.div_lt_upper_bound; lia. }
  rewrite (uchar_small (Z.quot n 256) Hq).
  unfold uchar. rewrite Z.rem_mod_nonneg by lia.
  rewrite Z.mod_mod by lia.
  rewrite Z.quot_div_nonneg by lia.
  pose proof (Z.div_mod n 256 ltac:(lia)). lia.
Qed.

Lemma palette_skip (gimp_cmap tail : list Z) (k : nat) :
  forall (s n : nat),
    (k <= n)%nat ->
    skipn (4 * k) (flat_map (palette_entry gimp_cmap true) (seq s n) ++ tail)
    = flat_map (palette_entry gimp_cmap true) (seq (s + k) (n - k)) ++ tail.
Proof.
  induction k as [|k IH]; intros s n Hk.
  - now rewrite Nat.add_0_r, Nat.sub_0_r.
  - destruct n as [|n]; [lia|].
    replace (4 * S k)%nat with (4 * k + 4)%nat by lia.
    rewrite <- skipn_skipn. cbn [seq flat_map].
    unfold palette_entry at 1. cbn [app skipn].
    rewrite IH by lia. do 3 f_equal; lia.
Qed.

Lemma entry_at_real (gimp_cmap tail : list Z) (n k : nat) :
  (k < n)%nat ->
  entry_at (flat_map (palette_entry gimp_cmap true) (seq 0 n) ++ tail) k
  = palette_entry gimp_cmap true k.
Proof.
  intros Hk. unfold entry_at. rewrite palette_skip by lia.
  destruct (n - k)%nat as [|m] eqn:E; [lia|].
  cbn [seq flat_map Nat.add]. unfold palette_entry. reflexivity.
Qed.

Lemma entry_at_reserved (gimp_cmap : list Z) (n : nat) :
  entry_at (flat_map (palette_entry gimp_cmap true) (seq 0 n) ++ [0; 0; 0; 0])
           n
  = [0; 0; 0; 0].
Proof.
  unfold entry_at. rewrite palette_skip by lia.
  rewrite Nat.sub_diag. reflexivity.
Qed.

Lemma palette_length (gimp_cmap : list Z) (m : nat) :
  forall s,
    length (flat_map (palette_entry gimp_cmap true) (seq s m))
    = (4 * m)%nat.
Proof.
  induction m as [|m IH]; intros s; [reflexivity|].
  cbn [seq flat_map]. rewrite length_app, IH.
  unfold palette_entry. cbn [length app]. lia.
Qed.

(** ** What the row loop adds to the file *)

Lemma save_header_length (d : drawable) (rle : bool) (origin : TgaOrigin) :
  length (save_header d rle origin) = 18%nat.
Proof.
  unfold save_header. rewrite length_map.
  destruct (d_type d); reflexivity.
Qed.

Ltac crunch H :=
  repeat match type of H with
         | None = Some _ => discriminate H
         | context [obind ?m _] =>
             lazymatch m with
             | context [obind _ _] => fail
             | context [if _ then _ else _] => fail
             | _ => destruct m eqn:?; cbn [obind] in H
             end
         | context [if ?c then _ else _] =>
             lazymatch c with
             | context [if _ then _ else _] => fail
             | context [obind _ _] => fail
             | _ => destruct c eqn:?
             end
         end.

Lemma rle_write_body_appends (data : list Z) (b : nat) (s s' : rle_wstate) :
  rle_write_body data b s = Some s' ->
  exists x, w_out s' = w_out s ++ x.
Proof.
  intros H. unfold rle_write_body, fwrite, putc in H.
  crunch H;
    repeat match goal with
           | E : Some _ = Some _ |- _ => inversion E; subst; clear E
           end;
    cbn [w_out w_repeat w_direct w_from w_buf];
    rewrite <- ?app_assoc;
    first [eexists; reflexivity | exists []; now rewrite app_nil_r].
Qed.

Lemma rle_write_loop_appends (data : list Z) (b n : nat) :
  forall s0 s1, rle_write_loop n data b s0 = Some s1 ->
                exists x, w_out s1 = w_out s0 ++ x.
Proof.
  induction n as [|n IH]; intros s0 s1 H0; simpl in H0.
  - inversion H0; subst. exists []. now rewrite app_nil_r.
  - destruct (rle_write_body data b s0) as [s2|] eqn:E2; [|discriminate].
    cbn [obind] in H0.
    destruct (rle_write_body_appends _ _ _ _ E2) as [x Hx].
    destruct (IH _ _ H0) as [y Hy].
    exists (x ++ y). now rewrite Hy, Hx, app_assoc.
Qed.

Lemma rle_write_appends (fp data : list Z) (w b : nat) (out : list Z) :
  rle_write fp data w b = Some out -> exists x, out = fp ++ x.
Proof.
  unfold rle_write. intros H.
  destruct (rle_write_loop (w - 1) data b (mk_rle_wstate 0 0 0 0 fp))
    as [s|] eqn:E; [|discriminate]. cbn [obind] in H.
  destruct (rle_write_loop_appends _ _ _ _ _ E) as [x Hx].
  cbn [w_out] in Hx. unfold fwrite, putc in H.
  crunch H; inversion H; subst; rewrite Hx, <- ?app_assoc; eauto.
Qed.

(** A turn of the row loop appends to the file. *)
Lemma save_row_appends (d : drawable) (rle : bool) (origin : TgaOrigin)
  (s s' : list Z * list Z * list Z * Z) :
  save_row_body d rle origin s = Some s' ->
  exists x, fst (fst (fst s')) = fst (fst (fst s)) ++ x.
Proof.
  destruct s as [[[fp pixels] data] row]. unfold save_row_body.
  intros H.
  destruct (gegl_buffer_get d _ pixels) as [pixels'|]; [|discriminate].
  cbn [obind] in H.
  destruct (save_convert d pixels' data) as [data'|]; [|discriminate].
  cbn [obind] in H. destruct rle.
  - destruct (rle_write _ _ _ _) as [o|] eqn:E; [|discriminate].
    cbn [obind] in H. inversion H; subst. cbn [fst].
    exact (rle_write_appends _ _ _ _ _ E).
  - unfold fwrite in H.
    destruct (Mem.load _ _ _) as [blk|]; [|discriminate].
    cbn [obind] in H. inversion H; subst. cbn [fst]. eauto.
Qed.

(** The row loop appends to the file, also when it stops early. *)
Lemma save_rows_append (d : drawable) (rle : bool) (origin : TgaOrigin)
  (n : nat) :
  forall s : list Z * list Z * list Z * Z,
    exists x,
      match save_rows n d rle origin s with
      | inl s' => fst (fst (fst s'))
      | inr w => w
      end = fst (fst (fst s)) ++ x.
Proof.
  induction n as [|n IH]; intros s; cbn [save_rows].
  - exists []. now rewrite app_nil_r.
  - destruct (save_row_body d rle origin s) as [s1|] eqn:E.
    + destruct (save_row_appends _ _ _ _ _ E) as [x Hx].
      destruct (IH s1) as [y Hy].
      exists (x ++ y). rewrite Hy, Hx. now rewrite app_assoc.
    + exists []. now rewrite app_nil_r.
Qed.

(** Whatever the row loop does, the bytes written start with the header
    and the palette. *)
Lemma save_image_starts (h : host) (d : drawable) (rle : bool)
  (origin : TgaOrigin) (fp : list Z) :
  save_palette d (save_header d rle origin) = Some fp ->
  exists rest, written (save_image h d rle origin) = fp ++ rest.
Proof.
  intros Hp. unfold save_image. rewrite Hp.
  destruct (save_rows_append d rle origin (Z.to_nat (d_height d))
              (fp, g_new h (Z.to_nat (d_width d) * out_bpp (d_type d)),
               g_new h (Z.to_nat (d_width d) * out_bpp (d_type d)), 0))
    as [x Hx].
  destruct (save_rows _ _ _ _ _) as [[[[fp' p'] d'] r']|w];
    cbn [fst written] in *; subst.
  - exists (x ++ repeat 0 8 ++ magic). now rewrite <- app_assoc.
  - exists x. reflexivity.
Qed.

(** ** The block [pixels] of an indexed drawable with alpha *)

(** The conversion loop reads two bytes for each pixel: on a block that
    ends before the second byte of the last pixel it leaves the
    block. *)
Lemma save_indexeda_overruns (pixels : list Z) (num_colors : Z) (n : nat) :
  forall (data : list Z) (i : nat),
    (length pixels <= (i + n) * 2 + 1)%nat ->
    for_loop (S n) (save_indexeda_body pixels num_colors) (data, i) = None.
Proof.
  induction n as [|n IH]; intros data i Hlen; cbn [for_loop].
  - unfold save_indexeda_body.
    assert (E : nth_error pixels (i * 2 + 1) = None)
      by (apply nth_error_None; lia).
    rewrite E. reflexivity.
  - destruct (save_indexeda_body pixels num_colors (data, i))
      as [[data1 i1]|] eqn:E; [|reflexivity].
    cbn [obind].
    assert (Hi : i1 = S i).
    { unfold save_indexeda_body in E.
      destruct (nth_error pixels (i * 2 + 1)); [|discriminate].
      cbn [obind] in E.
      destruct (if 127 <? z then _ else _); [|discriminate].
      cbn [obind] in E. now inversion E. }
    subst i1. apply IH. lia.
Qed.

(** The first turn of the row loop on an indexed drawable with alpha:
    [pixels] has [width] bytes, and either [gegl_buffer_get] or the
    conversion leaves it. *)
Lemma save_row_indexeda_overruns (d : drawable) (rle : bool)
  (origin : TgaOrigin) (fp pixels data : list Z) (row : Z) :
  d_type d = GIMP_INDEXEDA_IMAGE ->
  1 <= d_width d ->
  length pixels = Z.to_nat (d_width d) ->
  save_row_body d rle origin (fp, pixels, data, row) = None.
Proof.
  intros Hty Hw Hp. unfold save_row_body.
  destruct (gegl_buffer_get d _ pixels) as [pixels'|] eqn:E;
    [|reflexivity].
  cbn [obind].
  assert (Hp' : length pixels' = Z.to_nat (d_width d)).
  { unfold gegl_buffer_get in E.
    rewrite (store_length _ _ _ _ E). exact Hp. }
  unfold save_convert. rewrite Hty. cbn [is_type].
  destruct (Z.to_nat (d_width d)) as [|n] eqn:En; [lia|].
  rewrite (save_indexeda_overruns pixels' (d_num_colors d) n data 0)
    by lia.
  reflexivity.
Qed.

(** C7, as the code has it.  Whenever an indexed drawable with alpha is
    exported, the header written declares a colormap of
    [num_colors + 1] entries, and right after the 18 bytes of the header
    come the [num_colors] real palette entries, each closed by the byte
    255, followed by one more entry of four zero bytes, whose last byte
    is therefore 0 and not 255.  This holds for the bytes written
    whether or not the row loop stays inside its arrays. *)
Theorem indexeda_reserved_slot (h : host) (d : drawable) (rle : bool)
  (origin : TgaOrigin) :
  d_type d = GIMP_INDEXEDA_IMAGE ->
  0 <= d_num_colors d < 65535 ->
  3 * d_num_colors d <= Z.of_nat (length (d_cmap d)) ->
  let n := Z.to_nat (d_num_colors d) in
  let out := written (save_image h d rle origin) in
  let palette := firstn (4 * (n + 1)) (skipn 18 out) in
  byte_at out 5 + byte_at out 6 * 256 = d_num_colors d + 1 /\
  length palette = (4 * (n + 1))%nat /\
  (forall k, (k < n)%nat ->
     entry_at palette k = palette_entry (d_cmap d) true k /\
     nth 3 (entry_at palette k) 0 = 255) /\
  entry_at palette n = [0; 0; 0; 0].
Proof.
  intros Hty Hn Hc n out palette.
  set (header := save_header d rle origin).
  set (P := flat_map (palette_entry (d_cmap d) true) (seq 0 n)
            ++ [0; 0; 0; 0]).
  assert (Hh : length header = 18%nat) by apply save_header_length.
  assert (HP : length P = (4 * (n + 1))%nat).
  { subst P. rewrite length_app, palette_length. cbn [length]. lia. }
  destruct (save_image_starts h d rle origin (header ++ P)) as [rest Hout].
  { apply save_palette_indexeda; [exact Hty | lia | exact Hc]. }
  fold out in Hout.
  assert (Hpal : palette = P).
  { subst palette. rewrite Hout, <- !app_assoc.
    rewrite <- Hh, skipn_app, Nat.sub_diag, skipn_all. cbn [skipn app].
    rewrite <- HP. apply firstn_app_exact_l. reflexivity. }
  split; [|split; [|split]].
  - unfold byte_at. rewrite Hout, <- !app_assoc.
    rewrite !(app_nth1 header) by (rewrite Hh; lia).
    apply (save_header_indexeda_length d rle origin Hty Hn).
  - rewrite Hpal. exact HP.
  - intros k Hk. rewrite Hpal. subst P.
    rewrite entry_at_real by exact Hk. split; reflexivity.
  - rewrite Hpal. subst P. apply entry_at_reserved.
Qed.

(** C10 against the code.  The index byte of a transparent pixel is
    never written: for every indexed drawable with alpha that has at
    least one pixel, [save_image] writes the header (whose colormap
    length is [num_colors + 1]) and the palette, and the first turn of
    the row loop then leaves the block [pixels], which has [width]
    bytes where the conversion reads [pixels[i * 2 + 1]]. *)
Theorem indexeda_pixels_overrun (h : host) (d : drawable) (rle : bool)
  (origin : TgaOrigin) :
  d_type d = GIMP_INDEXEDA_IMAGE ->
  1 <= d_width d -> 1 <= d_height d ->
  0 <= d_num_colors d ->
  3 * d_num_colors d <= Z.of_nat (length (d_cmap d)) ->
  save_image h d rle origin
  = Overrun (save_header d rle origin
             ++ flat_map (palette_entry (d_cmap d) true)
                         (seq 0 (Z.to_nat (d_num_colors d)))
             ++ [0; 0; 0; 0]).
Proof.
  intros Hty Hw Hh Hn Hc. unfold save_image.
  rewrite (save_palette_indexeda d _ Hty Hn Hc).
  destruct (Z.to_nat (d_height d)) as [|m] eqn:Em; [lia|].
  cbn [save_rows].
  rewrite save_row_indexeda_overruns;
    [reflexivity | exact Hty | exact Hw |].
  rewrite g_new_length, Hty. cbn [out_bpp]. lia.
Qed.

(** ** The claims at concrete inputs *)

(** C2 at a concrete input.  The second call of [rle_read] returns [EOF]
    on the truncated stream, and so does the short [fread] of the
    uncompressed file deliver fewer bytes than a row; [load_image]
    nevertheless returns an image, whose second row is what the row
    buffer held. *)
Lemma truncated_pixel_data_still_loads :
  rle_read (mk_rle_static 0 0 [1; 2; 3; 0]) (mkFILE truncated_rle_file 22)
           [1; 2; 3]
           (fix_alphaBits (parse_header (firstn 18 truncated_rle_file)))
  = Some (EOF, mk_rle_static 0 0 [1; 2; 3; 0],
          mkFILE truncated_rle_file 22, [1; 2; 3]) /\
  load_image reference_host rle_static_init truncated_rle_file
  = Image (mk_gimp_image 1 2 GIMP_RGB GIMP_RGB_IMAGE None
             [(0, 2%nat, [3; 2; 1; 3; 2; 1])]) /\
  load_image reference_host rle_static_init truncated_raw_file
  = Image (mk_gimp_image 1 2 GIMP_RGB GIMP_RGB_IMAGE None
             [(0, 2%nat, [3; 2; 1; 3; 2; 9])]).
Proof. repeat split; vm_compute; reflexivity. Qed.

(** C3 fails at a concrete input: the file is a loadable version-1 image,
    yet the probe of its footer makes [load_image] give up. *)
Lemma unreadable_extension_aborts_load :
  load_from_start reference_host rle_static_init
                  (fopen unreadable_extension_file)
  = Image (mk_gimp_image 1 1 GIMP_RGB GIMP_RGB_IMAGE None
             [(0, 1%nat, [3; 2; 1])]) /\
  load_image reference_host rle_static_init unreadable_extension_file
  = Failed Cannot_read_extension.
Proof. split; vm_compute; reflexivity. Qed.

(** C4 fails at a concrete input: the header and the colormap of the
    file are accepted, the index byte 5 lies outside the one-entry
    colormap, and the load ends in a lookup outside the converted table
    instead of a failure. *)
Lemma colormap_index_not_checked :
  let info :=
    fix_alphaBits (parse_header (firstn 18 out_of_range_index_file)) in
  check_sub_format info = None /\
  check_color_map_type info = None /\
  read_colormap reference_host info (mkFILE out_of_range_index_file 18)
                (Some 4%nat) None
  = Image (mkFILE out_of_range_index_file 22, Some [7; 8; 9; 6], None) /\
  index_in_range (colorMapIndex info) (colorMapLength info) 5 = false /\
  apply_colormap [0; 0; 0; 0] 0 [5] 1 [7; 8; 9; 6] true (colorMapIndex info)
  = None /\
  load_image reference_host rle_static_init out_of_range_index_file
  = Undefined /\
  (forall m, load_image reference_host rle_static_init
                        out_of_range_index_file <> Failed m).
Proof.
  repeat split; try (vm_compute; reflexivity).
  intros m. vm_compute. discriminate.
Qed.

(** C7 fails at a concrete input: in the export of a drawable of 2 x 1
    pixels with 8 colours the extra palette entry is four zero bytes, so
    its last byte is 0 and not the 255 that closes the real entries; and
    no pixel is written at all, since the first turn of the row loop
    leaves the block [pixels] after the header and the palette have been
    written. *)
Lemma indexeda_extra_entry_not_opaque :
  exists w,
    save_image reference_host (indexeda_drawable 8) false ORIGIN_TOP_LEFT
    = Overrun w /\
    length w = (18 + 4 * 9)%nat /\
    entry_at (skipn 18 w) 7 = [9; 9; 9; 255] /\
    entry_at (skipn 18 w) 8 = [0; 0; 0; 0] /\
    nth 3 (entry_at (skipn 18 w) 8) 0 <> 255.
Proof.
  eexists. split; [vm_compute; reflexivity|].
  repeat split; try (vm_compute; reflexivity); vm_compute; discriminate.
Qed.

(** An index byte inside the colormap range is no guarantee either.  A
    colormap of 300 entries of 24 bits is converted into a table of 900
    bytes; with 3 alpha bits in the descriptor the lookup reads it 4
    bytes apart, so that the index 224 stays inside the table and the
    index 230 does not. *)
Example in_range_index_outside_table :
  let header := [0; 1; 1; 0; 0; 44; 1; 24; 0; 0; 0; 0; 1; 0; 1; 0; 8; 35] in
  let info := fix_alphaBits (parse_header header) in
  check_sub_format info = None /\
  check_color_map_type info = None /\
  index_in_range (colorMapIndex info) (colorMapLength info) 230 = true /\
  load_image reference_host rle_static_init
             (header ++ repeat 7 900 ++ [224])
  = Image (mk_gimp_image 1 1 GIMP_RGB GIMP_RGB_IMAGE None
             [(0, 1%nat, [7; 7; 7])]) /\
  load_image reference_host rle_static_init
             (header ++ repeat 7 900 ++ [230])
  = Undefined.
Proof. repeat split; vm_compute; reflexivity. Qed.

(** Scenario 3 of the specification: 300 colormap entries of 24 bits. *)
Example colormap_300_promoted_to_rgb :
  load_image reference_host rle_static_init colormap_300_file
  = Image (mk_gimp_image 1 1 GIMP_RGB GIMP_RGB_IMAGE None
             [(0, 1%nat, [7; 7; 7])]).
Proof. vm_compute. reflexivity. Qed.

(** Scenario 2 of the specification: 200 identical 32-bit pixels. *)
Example two_hundred_identical_pixels :
  rle_write [] (concat (repeat [1; 2; 3; 4] 200)) 200 4
  = Some ([255; 1; 2; 3; 4] ++ [199; 1; 2; 3; 4]).
Proof. vm_compute. reflexivity. Qed.

(** Rows of 127, 128 and 129 pixels, all the same and all distinct from
    their neighbours. *)
Example rows_around_128 :
  forallb
    (fun w =>
       forallb
         (fun row =>
            match rle_write [] row w 1 with
            | Some enc =>
                match rle_read rle_static_init (fopen enc) (repeat 0 w)
                        (mk_tga_info 0 0 TGA_TYPE_GRAY TGA_COMP_RLE 0 0 0 0 0
                                     (Z.of_nat w) 1 8 1 0 0 0) with
                | Some (0, _, _, out) =>
                    if list_eq_dec Z.eq_dec out row then true else false
                | _ => false
                end
            | None => false
            end)
         [repeat 7 w; map (fun i => Z.of_nat i mod 2) (seq 0 w);
          map Z.of_nat (seq 0 w)])
    [127; 128; 129; 256]%nat = true.
Proof. vm_compute. reflexivity. Qed.

Lemma mapped_promotion_witness :
  let info := fix_alphaBits (parse_header (firstn 18 colormap_300_file)) in
  exists img,
    imageType info = TGA_TYPE_MAPPED /\
    0 <= colorMapLength info /\
    ReadImage reference_host rle_static_init (mkFILE colormap_300_file 18)
              info = Image img /\
    img_base_type img = GIMP_RGB /\
    (img_layer_type img = GIMP_RGB_IMAGE \/
     img_layer_type img = GIMP_RGBA_IMAGE) /\
    img_colormap img = None.
Proof.
  intros info.
  exists (mk_gimp_image 1 1 GIMP_RGB GIMP_RGB_IMAGE None
            [(0, 1%nat, [7; 7; 7])]).
  assert (H1 : imageType info = TGA_TYPE_MAPPED) by reflexivity.
  assert (H2 : 0 <= colorMapLength info) by (vm_compute; discriminate).
  assert (H3 : ReadImage reference_host rle_static_init
                         (mkFILE colormap_300_file 18) info
               = Image (mk_gimp_image 1 1 GIMP_RGB GIMP_RGB_IMAGE None
                          [(0, 1%nat, [7; 7; 7])]))
    by (vm_compute; reflexivity).
  split; [exact H1|]. split; [exact H2|]. split; [exact H3|].
  exact (proj1 (mapped_promotion reference_host rle_static_init
                  (mkFILE colormap_300_file 18) info _ H1 H2 H3)).
Defined.

Lemma footer_probe_outcome_witness :
  Forall is_byte unreadable_extension_file /\
  (extension_unreadable unreadable_extension_file ->
   load_image reference_host rle_static_init unreadable_extension_file
   = Failed Cannot_read_extension) /\
  (~ extension_unreadable unreadable_extension_file ->
   load_image reference_host rle_static_init unreadable_extension_file
   = load_from_start reference_host rle_static_init
                     (fopen unreadable_extension_file)) /\
  (forall p,
     load_from_start reference_host rle_static_init
                     (mkFILE unreadable_extension_file p)
     = load_from_start reference_host rle_static_init
                       (fopen unreadable_extension_file)).
Proof.
  assert (H : Forall is_byte unreadable_extension_file)
    by (repeat constructor; unfold is_byte; lia).
  split; [exact H|].
  exact (footer_probe_outcome reference_host rle_static_init
           unreadable_extension_file H).
Defined.

Lemma apply_colormap_unchecked_witness :
  (entry_inside [7; 8; 9; 6] true 0 5 = false /\
   apply_colormap (repeat 0 8) 0 [0; 5] (length [0; 5]) [7; 8; 9; 6] true 0
   = None) /\
  apply_colormap (repeat 0 8) 0 [0; 0] (length [0; 0]) [7; 8; 9; 6] true 0
  = Some [7; 8; 9; 6; 7; 8; 9; 6].
Proof.
  split.
  - apply (proj2 (apply_colormap_unchecked (repeat 0 8) 0 [0; 5] [7; 8; 9; 6]
                    true 0) 1 5);
      [cbn; lia | cbn; auto | reflexivity].
  - rewrite (proj1 (apply_colormap_unchecked (repeat 0 8) 0 [0; 0]
                      [7; 8; 9; 6] true 0)).
    reflexivity.
Defined.

Lemma indexeda_reserved_slot_witness :
  let d := indexeda_drawable 8 in
  let n := Z.to_nat (d_num_colors d) in
  let out := written (save_image reference_host d true ORIGIN_BOTTOM_LEFT) in
  let palette := firstn (4 * (n + 1)) (skipn 18 out) in
  byte_at out 5 + byte_at out 6 * 256 = d_num_colors d + 1 /\
  length palette = (4 * (n + 1))%nat /\
  (forall k, (k < n)%nat ->
     entry_at palette k = palette_entry (d_cmap d) true k /\
     nth 3 (entry_at palette k) 0 = 255) /\
  entry_at palette n = [0; 0; 0; 0].
Proof.
  intros d.
  apply (indexeda_reserved_slot reference_host d true ORIGIN_BOTTOM_LEFT);
    [reflexivity | vm_compute; split; discriminate || reflexivity
    | vm_compute; discriminate].
Defined.

Lemma indexeda_pixels_overrun_witness :
  let d := indexeda_drawable 256 in
  save_image reference_host d false ORIGIN_TOP_LEFT
  = Overrun (save_header d false ORIGIN_TOP_LEFT
             ++ flat_map (palette_entry (d_cmap d) true)
                         (seq 0 (Z.to_nat (d_num_colors d)))
             ++ [0; 0; 0; 0]).
Proof.
  intros d.
  apply (indexeda_pixels_overrun reference_host d false ORIGIN_TOP_LEFT);
    [reflexivity | vm_compute; discriminate | vm_compute; discriminate
    | vm_compute; discriminate | vm_compute; discriminate].
Defined.

(** * Further properties of the codec *)

(** ** Files that the loader turns away *)

Lemma fix_alphaBits_set (info : tga_info) :
  exists a, fix_alphaBits info = set_alphaBits info a.
Proof.
  assert (H : forall i a b, set_alphaBits (set_alphaBits i a) b
                            = set_alphaBits i b) by reflexivity.
  assert (H0 : info = set_alphaBits info (alphaBits info))
    by (destruct info; reflexivity).
  unfold fix_alphaBits.
  repeat match goal with
         | |- context [if ?c then _ else _] => destruct c
         end; rewrite ?H; eauto.
Qed.

Lemma parse_header_idLength (header : list Z) :
  idLength (parse_header header) = byte_at header 0.
Proof.
  unfold parse_header.
  repeat match goal with
         | |- context [if ?c then _ else _] => destruct c
         end; reflexivity.
Qed.

(** The load once the footer probe is over, on a file that holds at
    least a header: the checks of the header, then [ReadImage] on the
    stream placed after the image ID field. *)
Lemma load_from_start_header (h : host) (st : rle_static) (file : list Z) :
  (18 <= length file)%nat -> 0 <= byte_at file 0 ->
  load_from_start h st (fopen file)
  = let info := fix_alphaBits (parse_header (firstn 18 file)) in
    match check_sub_format info with
    | Some m => Failed m
    | None =>
        match check_color_map_type info with
        | Some m => Failed m
        | None =>
            ReadImage h st
              (mkFILE file (18 + Z.to_nat (idLength info))) info
        end
    end.
Proof.
  intros Hlen Hb. unfold load_from_start, fseek_set, fseek_to, fopen, fread.
  cbn [content pos Z.ltb Z.compare Z.eqb negb Z.to_nat Nat.eqb skipn].
  rewrite Nat.mul_1_r, length_firstn, Nat.min_l by lia.
  change (18 / 18)%nat with 1%nat. cbn [Nat.eqb negb Nat.add].
  cbv zeta.
  destruct (check_sub_format _); [reflexivity|].
  destruct (check_color_map_type _); [reflexivity|].
  set (info := fix_alphaBits (parse_header (firstn 18 file))).
  assert (Hid : 0 <= idLength info).
  { subst info.
    destruct (fix_alphaBits_set (parse_header (firstn 18 file))) as [a ->].
    cbn [set_alphaBits idLength]. rewrite parse_header_idLength.
    unfold byte_at in *. rewrite nth_firstn.
    destruct (Nat.ltb_spec 0 18); [exact Hb | lia]. }
  destruct (Z.eqb_spec (idLength info) 0) as [E|E]; cbn [negb].
  - cbn [Z.eqb negb]. rewrite E. reflexivity.
  - unfold fseek_cur, fseek_to. cbn [content pos].
    destruct (Z.ltb_spec (Z.of_nat 18 + idLength info) 0) as [Hn|Hp];
      [lia|].
    cbn [Z.eqb negb]. do 2 f_equal. lia.
Qed.

(** X1.  A file of fewer than 18 bytes, the empty file included, is
    refused with "Cannot read header". *)
Theorem short_file_refused (h : host) (st : rle_static) (file : list Z) :
  (length file < 18)%nat ->
  load_image h st file = Failed Cannot_read_header.
Proof.
  intros Hlen.
  unfold load_image, read_footer, fseek_end, fseek_to, size, fopen.
  cbn [content pos].
  destruct (Z.ltb_spec (Z.of_nat (length file) + -26) 0) as [_|Hp]; [|lia].
  cbn [Z.eqb]. unfold load_from_start, fseek_set, fseek_to, fread.
  cbn [content pos Z.ltb Z.compare Z.eqb negb Z.to_nat Nat.eqb skipn].
  rewrite Nat.mul_1_r, length_firstn, Nat.min_r by lia.
  rewrite Nat.div_small by lia. reflexivity.
Qed.

Lemma short_file_refused_witness :
  (length (@nil Z) < 18)%nat /\
  load_image reference_host rle_static_init [] = Failed Cannot_read_header.
Proof.
  split; [simpl; lia|].
  apply (short_file_refused reference_host rle_static_init []). simpl; lia.
Defined.

Lemma parse_header_unknown (header : list Z) :
  ~ In (byte_at header 2) [1; 2; 3; 9; 10; 11] ->
  imageType (parse_header header) = 0.
Proof.
  intros H. unfold parse_header.
  repeat match goal with
         | |- context [?x =? ?y] =>
             let E := fresh "E" in
             destruct (Z.eqb_spec x y) as [E|E];
             [exfalso; apply H; rewrite E; simpl; tauto|]
         end.
  reflexivity.
Qed.

(** X2.  A file whose type code is none of 1, 2, 3, 9, 10 and 11 is
    refused with "Unknown image type", whatever the rest of its header
    says, unless the footer probe has given up before. *)
Theorem unknown_type_refused (h : host) (st : rle_static) (file : list Z) :
  (18 <= length file)%nat -> Forall is_byte file ->
  ~ extension_unreadable file ->
  ~ In (byte_at file 2) [1; 2; 3; 9; 10; 11] ->
  load_image h st file = Failed Unknown_image_type.
Proof.
  intros Hlen Hb Hext Hcode. unfold load_image.
  destruct (read_footer_cases file Hb) as [(Hu & _)|(_ & p & ->)];
    [contradiction|].
  rewrite (load_from_start_content h st (mkFILE file p) (fopen file))
    by reflexivity.
  rewrite (load_from_start_header h st file Hlen)
    by (apply byte_at_range; exact Hb).
  cbv zeta.
  destruct (fix_alphaBits_set (parse_header (firstn 18 file))) as [a ->].
  assert (Hty : imageType (set_alphaBits (parse_header (firstn 18 file)) a)
                = 0).
  { cbn [set_alphaBits imageType]. apply parse_header_unknown.
    unfold byte_at in *. rewrite nth_firstn.
    destruct (Nat.ltb_spec 2 18); [exact Hcode | lia]. }
  unfold check_sub_format. rewrite Hty. reflexivity.
Qed.

Lemma unknown_type_refused_witness :
  load_image reference_host rle_static_init
             [0; 0; 4; 0; 0; 0; 0; 0; 0; 0; 0; 0; 1; 0; 1; 0; 24; 32; 1; 2; 3]
  = Failed Unknown_image_type.
Proof.
  apply (unknown_type_refused reference_host rle_static_init
           [0; 0; 4; 0; 0; 0; 0; 0; 0; 0; 0; 0; 1; 0; 1; 0; 24; 32; 1; 2; 3]).
  - simpl; lia.
  - repeat constructor; unfold is_byte; lia.
  - intros (H & _). simpl in H. lia.
  - simpl. intros H. repeat (destruct H as [H|H]; [discriminate H|]).
    exact H.
Defined.

(** X3.  A colour-mapped image whose colormap cannot be read in full is
    refused as "truncated or corrupted": entries wider than 32 bits, a
    colormap that holds no byte at all (no entry, or entries of 0 bits),
    or fewer bytes left in the file than the colormap needs. *)
Theorem colormap_truncated (h : host) (st : rle_static) (fp : FILE)
  (info : tga_info) :
  imageType info = TGA_TYPE_MAPPED ->
  0 <= colorMapSize info ->
  let need := (Z.to_nat (colorMapLength info)
               * Z.to_nat ((colorMapSize info + 7) / 8))%nat in
  32 < colorMapSize info \/ need = 0%nat
  \/ (length (content fp) - pos fp < need)%nat ->
  ReadImage h st fp info = Failed Truncated_or_corrupted.
Proof.
  intros Hty Hsz need Hcase. unfold ReadImage.
  destruct (image_types info) as [[[itype dtype] cs] gs].
  assert (E : read_colormap h info fp cs gs = Failed Truncated_or_corrupted).
  { unfold read_colormap. rewrite Hty.
    cbn [Z.eqb TGA_TYPE_MAPPED Pos.eqb].
    destruct (Nat.leb_spec (Z.to_nat ((colorMapSize info + 7) / 8)) 4)
      as [Hle|Hgt]; [|reflexivity].
    unfold fread. fold need.
    destruct Hcase as [Hbig|[H0|Hshort]].
    - exfalso.
      assert (5 <= (colorMapSize info + 7) / 8)
        by (apply Z.div_le_lower_bound; lia).
      lia.
    - rewrite H0. reflexivity.
    - destruct (Nat.eqb_spec need 0) as [_|Hn]; [reflexivity|].
      rewrite Nat.mul_1_r, length_firstn, length_skipn.
      rewrite Nat.div_small by lia. reflexivity. }
  rewrite E. reflexivity.
Qed.

Lemma colormap_truncated_witness :
  ReadImage reference_host rle_static_init
            (mkFILE [0; 1; 1; 0; 0; 0; 0; 24; 0; 0; 0; 0; 1; 0; 1; 0; 8; 32;
                     7; 7; 7; 0] 18)
            (fix_alphaBits
               (parse_header [0; 1; 1; 0; 0; 0; 0; 24; 0; 0; 0; 0; 1; 0; 1; 0;
                              8; 32]))
  = Failed Truncated_or_corrupted.
Proof.
  apply (colormap_truncated reference_host rle_static_init);
    [reflexivity | vm_compute; discriminate | right; left; reflexivity].
Defined.

(** ** Edges of the run-length coder *)

(** X4.  When the stream is at its end and no run is open, [rle_read]
    on a row of at least one pixel returns [EOF] and leaves the static
    variables, the stream and the row buffer as they were. *)
Theorem rle_read_at_end_of_stream (smp buf : list Z) (fp : FILE)
  (info : tga_info) :
  1 <= width info -> (length (content fp) <= pos fp)%nat ->
  rle_read (mk_rle_static 0 0 smp) fp buf info
  = Some (EOF, mk_rle_static 0 0 smp, fp, buf).
Proof.
  intros Hw Hend. unfold rle_read.
  destruct (Z.to_nat (width info)) as [|n] eqn:E; [lia|].
  cbn [rle_read_loop]. unfold rle_read_body.
  cbn [r_static r_fp r_mem r_buf s_repeat s_direct Z.eqb andb].
  unfold getc.
  assert (Hn : nth_error (content fp) (pos fp) = None)
    by (apply nth_error_None; exact Hend).
  rewrite Hn. reflexivity.
Qed.

Lemma rle_read_at_end_of_stream_witness :
  rle_read (mk_rle_static 0 0 [0; 0; 0; 0]) (fopen []) [9; 9; 9]
           (mk_tga_info 0 0 TGA_TYPE_COLOR TGA_COMP_RLE 0 0 0 0 0 1 1 24 3
                        0 0 0)
  = Some (EOF, mk_rle_static 0 0 [0; 0; 0; 0], fopen [], [9; 9; 9]).
Proof.
  apply (rle_read_at_end_of_stream [0; 0; 0; 0] [9; 9; 9] (fopen []));
    [simpl; lia | simpl; lia].
Defined.

Lemma packet_bytes_bound (b : nat) (ps : list packet) :
  (1 <= b)%nat -> Forall (whole_packet b) ps ->
  (length ps <= total_count ps)%nat /\
  (length (flat_map packet_bytes ps) <= length ps + total_count ps * b)%nat.
Proof.
  intros Hb. induction 1 as [|p ps [Hc Hp] _ [IH1 IH2]].
  - simpl. split; lia.
  - change (total_count (p :: ps))
      with (declared_count p + total_count ps)%nat.
    cbn [length flat_map]. rewrite length_app.
    unfold packet_bytes at 1. cbn [length]. rewrite Hp.
    split; [lia|].
    destruct p as [n rec|n pl]; cbn [declared_count] in *; nia.
Qed.

(** X5.  Run-length coding never grows a row of [w >= 1] records of
    [b >= 1] bytes by more than one byte per pixel: the bytes appended
    number at most [w * (b + 1)], and at least [b + 1]. *)
Theorem rle_write_size (fp row : list Z) (w b : nat) :
  (1 <= w)%nat -> (1 <= b)%nat -> length row = (w * b)%nat ->
  exists enc,
    rle_write fp row w b = Some (fp ++ enc) /\
    (b + 1 <= length enc <= w * (b + 1))%nat.
Proof.
  intros Hw Hb Hlen.
  destruct (rle_write_packets fp row w b Hw Hlen)
    as (ps & Hout & Hwf & Hpx & Ht).
  exists (flat_map packet_bytes ps). split; [exact Hout|].
  destruct (packet_bytes_bound b ps Hb Hwf) as [H1 H2].
  rewrite Ht in H1, H2. split; [|nia].
  destruct ps as [|p ps]; [unfold total_count in Ht; simpl in Ht; lia|].
  inversion Hwf as [|? ? [Hc Hp] _]; subst.
  cbn [flat_map]. rewrite length_app. unfold packet_bytes at 1.
  cbn [length]. rewrite Hp.
  destruct p as [n rec|n pl]; cbn [declared_count] in *; nia.
Qed.

Lemma rle_write_size_witness :
  exists enc,
    rle_write [] [5; 5; 7] 3 1 = Some ([] ++ enc) /\
    (1 + 1 <= length enc <= 3 * (1 + 1))%nat.
Proof.
  apply (rle_write_size [] [5; 5; 7] 3 1); [lia | lia | reflexivity].
Defined.

(** ** Packets that cross the end of a row *)

Lemma firstn_app_exact {A : Type} (a l : list A) (n : nat) :
  length a = n -> firstn n (a ++ l) = a /\ skipn n (a ++ l) = l.
Proof.
  intros <-. split.
  - rewrite firstn_app, Nat.sub_diag, firstn_all. simpl. apply app_nil_r.
  - rewrite skipn_app, Nat.sub_diag, skipn_all. reflexivity.
Qed.

(** A turn with a repeat run open. *)
Lemma read_step_repeat (b r : nat) (smp : list Z) (fp : FILE)
  (ps : list packet) (rest pre hole post : list Z) :
  (1 <= b <= 4)%nat -> length smp = 4%nat -> Forall (whole_packet b) ps ->
  skipn (pos fp) (content fp) = flat_map packet_bytes ps ++ rest ->
  length hole = b ->
  let pend := concat (repeat (firstn b smp) (S r))
              ++ flat_map packet_pixels ps in
  rle_read_body b (mk_rle_rstate (mk_rle_static (Z.of_nat (S r)) 0 smp) fp
                                 (pre ++ hole ++ post) (length pre))
  = Some (Next (mk_rle_rstate (mk_rle_static (Z.of_nat r) 0 smp) fp
                              (pre ++ firstn b pend ++ post)
                              (length pre + b))) /\
  read_inv b (mk_rle_static (Z.of_nat r) 0 smp) fp (skipn b pend) ps rest.
Proof.
  intros Hb Hsmp Hwf Hfp Hh pend.
  assert (Hrec : length (firstn b smp) = b)
    by (rewrite length_firstn; lia).
  subst pend. cbn [repeat concat]. rewrite <- app_assoc.
  destruct (firstn_app_exact (firstn b smp)
              (concat (repeat (firstn b smp) r) ++ flat_map packet_pixels ps)
              b Hrec) as [-> ->].
  split.
  - rewrite (body_repeat b (Z.of_nat (S r)) 0 smp fp pre hole post
               (firstn b smp)); try lia.
    + do 4 f_equal. lia.
    + rewrite load_Some by lia. reflexivity.
  - split; [exact Hsmp|]. split; [exact Hwf|]. left. exists r.
    cbn [s_repeat s_direct s_sample]. auto.
Qed.

(** A turn with a direct run open. *)
Lemma read_step_direct (b d : nat) (smp : list Z) (fp : FILE)
  (ps : list packet) (payload rest pre hole post : list Z) :
  (1 <= b <= 4)%nat -> length smp = 4%nat -> Forall (whole_packet b) ps ->
  skipn (pos fp) (content fp) = payload ++ flat_map packet_bytes ps ++ rest ->
  length payload = (S d * b)%nat -> length hole = b ->
  let pend := payload ++ flat_map packet_pixels ps in
  rle_read_body b (mk_rle_rstate (mk_rle_static 0 (Z.of_nat (S d)) smp) fp
                                 (pre ++ hole ++ post) (length pre))
  = Some (Next (mk_rle_rstate (mk_rle_static 0 (Z.of_nat d) smp)
                              (mkFILE (content fp) (pos fp + b))
                              (pre ++ firstn b pend ++ post)
                              (length pre + b))) /\
  read_inv b (mk_rle_static 0 (Z.of_nat d) smp)
           (mkFILE (content fp) (pos fp + b)) (skipn b pend) ps rest.
Proof.
  intros Hb Hsmp Hwf Hfp Hpay Hh pend.
  destruct (split_records payload b d Hpay) as (Hsplit & Hp1 & Hp2).
  set (rec := firstn b payload) in *. set (tl := skipn b payload) in *.
  subst pend. rewrite Hsplit, <- app_assoc.
  destruct (firstn_app_exact rec (tl ++ flat_map packet_pixels ps) b Hp1)
    as [-> ->].
  assert (Hfp1 : skipn (pos fp) (content fp)
                 = rec ++ (tl ++ flat_map packet_bytes ps ++ rest))
    by (rewrite Hfp, Hsplit, <- app_assoc; reflexivity).
  split.
  - rewrite (body_direct b (Z.of_nat (S d)) smp fp pre hole post rec
               (tl ++ flat_map packet_bytes ps ++ rest)); try lia;
      try assumption.
    do 4 f_equal. lia.
  - split; [exact Hsmp|]. split; [exact Hwf|].
    assert (Hnext : skipn (pos fp + b) (content fp)
                    = tl ++ flat_map packet_bytes ps ++ rest).
    { rewrite <- Hp1 at 1. now apply skipn_advance. }
    destruct d as [|d].
    + left. exists 0%nat. cbn [s_repeat s_direct s_sample pos content].
      destruct tl; [|simpl in Hp2; lia].
      repeat split; try reflexivity. exact Hnext.
    + right. exists d, tl. cbn [s_repeat s_direct s_sample pos content].
      repeat split; try reflexivity; assumption.
Qed.

Lemma pixels_nonempty (b : nat) (ps : list packet) :
  (1 <= b)%nat -> Forall (whole_packet b) ps ->
  flat_map packet_pixels ps = [] -> ps = [].
Proof.
  intros Hb Hwf H. destruct ps as [|p ps]; [reflexivity|].
  inversion Hwf as [|? ? Hp _]; subst.
  pose proof (packet_pixels_length b p Hp) as L.
  destruct Hp as [Hc _].
  cbn [flat_map] in H. apply app_eq_nil in H. destruct H as [H _].
  rewrite H in L. simpl in L. nia.
Qed.

(** One turn of the loop of [rle_read], whatever run is open. *)
Lemma read_step (b : nat) (st : rle_static) (fp : FILE)
  (pend : list Z) (ps : list packet) (rest pre hole post : list Z) :
  (1 <= b <= 4)%nat -> read_inv b st fp pend ps rest ->
  (b <= length pend)%nat -> length hole = b ->
  exists st' fp' ps',
    rle_read_body b (mk_rle_rstate st fp (pre ++ hole ++ post) (length pre))
    = Some (Next (mk_rle_rstate st' fp' (pre ++ firstn b pend ++ post)
                                (length pre + b))) /\
    read_inv b st' fp' (skipn b pend) ps' rest.
Proof.
  intros Hb (Hsmp & Hwf & Hrun) Hpend Hh.
  destruct st as [rp dr smp]. cbn [s_repeat s_direct s_sample] in *.
  destruct Hrun as [(r & -> & -> & Hfp & ->)
                   |(d & payload & -> & -> & Hpay & Hfp & ->)].
  - destruct r as [|r].
    + (* no run is open: the next packet is opened *)
      cbn [repeat concat app] in *. change (Z.of_nat 0) with 0.
      destruct ps as [|p ps].
      { simpl in Hpend. lia. }
      inversion Hwf as [|p' ps' Hp Hps]; subst p' ps'.
      cbn [flat_map] in Hfp. rewrite <- app_assoc in Hfp.
      destruct Hp as [Hc Hpl]. unfold packet_bytes in Hfp at 1.
      destruct p as [n rec|n pl];
        cbn [declared_count packet_payload control_byte
             packet_pixels flat_map app] in *.
      * destruct n as [|n]; [lia|].
        rewrite (body_head_repeat b (S n) smp fp (pre ++ hole ++ post)
                   (length pre) rec (flat_map packet_bytes ps ++ rest));
          try lia; try assumption.
        assert (Hs : length (rec ++ skipn b smp) = 4%nat)
          by (rewrite length_app, length_skipn; lia).
        assert (Hnext : skipn (pos fp + 1 + b) (content fp)
                        = flat_map packet_bytes ps ++ rest).
        { replace (pos fp + 1 + b)%nat
            with (pos fp + length ((127 + Z.of_nat (S n))%Z :: rec))%nat
            by (simpl; lia).
          apply skipn_advance. exact Hfp. }
        destruct (read_step_repeat b n (rec ++ skipn b smp)
                    (mkFILE (content fp) (pos fp + 1 + b)) ps rest
                    pre hole post Hb Hs Hps Hnext Hh) as [Hbody Hinv].
        assert (Hf : firstn b (rec ++ skipn b smp) = rec)
          by (apply firstn_app_exact; exact Hpl).
        rewrite Hf in Hbody, Hinv.
        eexists _, _, ps. split; [exact Hbody | exact Hinv].
      * destruct n as [|n]; [lia|].
        rewrite (body_head_direct b (S n) smp fp (pre ++ hole ++ post)
                   (length pre) (pl ++ flat_map packet_bytes ps ++ rest));
          try lia; try assumption.
        assert (Hnext : skipn (pos fp + 1) (content fp)
                        = pl ++ flat_map packet_bytes ps ++ rest).
        { apply (skipn_advance (pos fp) (content fp)
                   [Z.of_nat (S n) - 1]). exact Hfp. }
        destruct (read_step_direct b n smp
                    (mkFILE (content fp) (pos fp + 1)) ps pl rest
                    pre hole post Hb Hsmp Hps Hnext Hpl Hh)
          as [Hbody Hinv].
        eexists _, _, ps. split; [exact Hbody | exact Hinv].
    + destruct (read_step_repeat b r smp fp ps rest pre hole post
                  Hb Hsmp Hwf Hfp Hh) as [Hbody Hinv].
      eexists _, _, ps. split; [exact Hbody | exact Hinv].
  - destruct (read_step_direct b d smp fp ps payload rest pre hole post
                Hb Hsmp Hwf Hfp Hpay Hh) as [Hbody Hinv].
    eexists _, _, ps. split; [exact Hbody | exact Hinv].
Qed.

(** [k] turns of the loop. *)
Lemma read_steps_inv (b k : nat) :
  forall (st : rle_static) (fp : FILE) (pend : list Z) (ps : list packet)
         (rest pre hole post : list Z),
    (1 <= b <= 4)%nat -> read_inv b st fp pend ps rest ->
    (k * b <= length pend)%nat -> length hole = (k * b)%nat ->
    exists st' fp' ps',
      rle_read_steps k b
        (mk_rle_rstate st fp (pre ++ hole ++ post) (length pre))
      = Some (mk_rle_rstate st' fp'
                (pre ++ firstn (k * b) pend ++ post)
                (length pre + k * b)) /\
      read_inv b st' fp' (skipn (k * b) pend) ps' rest.
Proof.
  induction k as [|k IH];
    intros st fp pend ps rest pre hole post Hb Hinv Hpend Hh.
  - destruct hole; [|discriminate]. exists st, fp, ps.
    cbn [Nat.mul firstn skipn app rle_read_steps].
    rewrite Nat.add_0_r. split; [reflexivity | exact Hinv].
  - destruct (split_records hole b k Hh) as (Hsplit & Hh1 & Hh2).
    cbn [Nat.mul] in Hpend.
    destruct (read_step b st fp pend ps rest pre (firstn b hole)
                (skipn b hole ++ post) Hb Hinv ltac:(lia) Hh1)
      as (st1 & fp1 & ps1 & Hbody & Hinv1).
    assert (Hf : length (firstn b pend) = b)
      by (rewrite length_firstn; lia).
    destruct (IH st1 fp1 (skipn b pend) ps1 rest (pre ++ firstn b pend)
                (skipn b hole) post Hb Hinv1) as (st2 & fp2 & ps2 & Hrun & Hinv2).
    { rewrite length_skipn. lia. }
    { exact Hh2. }
    exists st2, fp2, ps2. split.
    + rewrite Hsplit, <- app_assoc. cbn [rle_read_steps].
      rewrite Hbody.
      replace (length pre + b)%nat with (length (pre ++ firstn b pend))
        by (rewrite length_app; lia).
      replace (pre ++ firstn b pend ++ skipn b hole ++ post)
        with ((pre ++ firstn b pend) ++ skipn b hole ++ post)
        by (now rewrite <- app_assoc).
      rewrite Hrun. f_equal. f_equal.
      * rewrite <- !app_assoc. f_equal. rewrite app_assoc. f_equal.
        cbn [Nat.mul]. now rewrite firstn_plus.
      * rewrite length_app. cbn [Nat.mul]. lia.
    + cbn [Nat.mul]. rewrite Nat.add_comm, <- skipn_skipn.
      exact Hinv2.
Qed.

(** X6.  The static variables of [rle_read] carry a run over from one
    call to the next.  When the stream holds whole packets for [n + m]
    pixels, a call for a row of [n] pixels followed by a call for a row
    of [m] pixels delivers the first [n] and then the next [m] pixels,
    also when a packet covers the end of the first row and the start of
    the second; afterwards no run is open and the stream stands just
    after the packets. *)
Theorem rle_read_resumes (b n m : nat) (ps : list packet)
  (smp buf1 buf2 : list Z) (fp : FILE) (rest : list Z)
  (info1 info2 : tga_info) :
  (1 <= b <= 4)%nat -> length smp = 4%nat ->
  Forall (whole_packet b) ps ->
  skipn (pos fp) (content fp) = flat_map packet_bytes ps ++ rest ->
  total_count ps = (n + m)%nat ->
  width info1 = Z.of_nat n -> bytes info1 = Z.of_nat b ->
  width info2 = Z.of_nat m -> bytes info2 = Z.of_nat b ->
  length buf1 = (n * b)%nat -> length buf2 = (m * b)%nat ->
  exists st1 fp1 st2 fp2,
    rle_read (mk_rle_static 0 0 smp) fp buf1 info1
    = Some (0, st1, fp1, firstn (n * b) (flat_map packet_pixels ps)) /\
    rle_read st1 fp1 buf2 info2
    = Some (0, st2, fp2, skipn (n * b) (flat_map packet_pixels ps)) /\
    s_repeat st2 = 0 /\ s_direct st2 = 0 /\
    skipn (pos fp2) (content fp2) = rest.
Proof.
  intros Hb Hsmp Hwf Hfp Ht Hw1 Hb1 Hw2 Hb2 Hl1 Hl2.
  set (px := flat_map packet_pixels ps).
  assert (Hpx : length px = ((n + m) * b)%nat)
    by (subst px; rewrite (pixels_length b ps Hwf), Ht; reflexivity).
  assert (Hinv0 : read_inv b (mk_rle_static 0 0 smp) fp px ps rest).
  { split; [exact Hsmp|]. split; [exact Hwf|]. left. exists 0%nat.
    cbn [s_repeat s_direct s_sample repeat concat app]. auto. }
  destruct (read_steps_inv b n (mk_rle_static 0 0 smp) fp px ps rest
              [] buf1 [] Hb Hinv0 ltac:(nia) Hl1)
    as (st1 & fp1 & ps1 & Hrun1 & Hinv1).
  destruct (read_steps_inv b m st1 fp1 (skipn (n * b) px) ps1 rest
              [] buf2 [] Hb Hinv1) as (st2 & fp2 & ps2 & Hrun2 & Hinv2).
  { rewrite length_skipn. nia. }
  { exact Hl2. }
  exists st1, fp1, st2, fp2.
  cbn [app length Nat.add] in Hrun1, Hrun2.
  rewrite !app_nil_r in Hrun1, Hrun2.
  split; [|split].
  - unfold rle_read. rewrite Hw1, Hb1, !Nat2Z.id.
    rewrite (steps_loop _ _ _ _ Hrun1). reflexivity.
  - unfold rle_read. rewrite Hw2, Hb2, !Nat2Z.id.
    rewrite (steps_loop _ _ _ _ Hrun2). cbn [obind r_static r_fp r_mem].
    do 2 f_equal. apply firstn_all2. rewrite length_skipn. nia.
  - rewrite skipn_skipn in Hinv2.
    rewrite skipn_all2 in Hinv2 by nia.
    destruct Hinv2 as (Hs2 & Hwf2 & [(r & Hr & Hd & Hfp2 & Hp)
                                  |(d & payload & _ & _ & Hpay & _ & Hp)]).
    + symmetry in Hp. apply app_eq_nil in Hp. destruct Hp as [Hc Hp2].
      apply (pixels_nonempty b ps2 ltac:(lia) Hwf2) in Hp2. subst ps2.
      destruct r as [|r].
      * cbn [flat_map app] in Hfp2. rewrite Hr, Hd. auto.
      * exfalso. cbn [repeat concat] in Hc. apply app_eq_nil in Hc.
        destruct Hc as [Hc _].
        assert (L : length (firstn b (s_sample st2)) = b)
          by (rewrite length_firstn; lia).
        rewrite Hc in L. simpl in L. lia.
    + exfalso. symmetry in Hp. apply app_eq_nil in Hp.
      destruct Hp as [Hp _]. rewrite Hp in Hpay. simpl in Hpay. nia.
Qed.

Lemma rle_read_resumes_witness :
  let info := mk_tga_info 0 0 TGA_TYPE_GRAY TGA_COMP_RLE 0 0 0 0 0 2 2 8 1
                          0 0 0 in
  exists st1 fp1 st2 fp2,
    rle_read (mk_rle_static 0 0 [0; 0; 0; 0]) (fopen [131; 7]) [0; 0] info
    = Some (0, st1, fp1, [7; 7]) /\
    rle_read st1 fp1 [0; 0] info = Some (0, st2, fp2, [7; 7]) /\
    s_repeat st2 = 0 /\ s_direct st2 = 0 /\
    skipn (pos fp2) (content fp2) = [].
Proof.
  intros info.
  assert (Hwf : Forall (whole_packet 1) [Repeat 4 [7]]).
  { apply Forall_cons; [|apply Forall_nil]. split; [simpl; lia|reflexivity]. }
  exact (rle_read_resumes 1 2 2 [Repeat 4 [7]] [0; 0; 0; 0] [0; 0] [0; 0]
           (fopen [131; 7]) [] info info
           ltac:(lia) eq_refl Hwf eq_refl eq_refl eq_refl eq_refl eq_refl
           eq_refl eq_refl eq_refl).
Defined.

(** ** Horizontal flip *)

Lemma load_hole (pre x post : list Z) :
  Mem.load (pre ++ x ++ post) (length pre) (length x) = Some x.
Proof.
  rewrite load_Some by (rewrite !length_app; lia).
  rewrite skipn_app, skipn_all, Nat.sub_diag. cbn [skipn app].
  rewrite firstn_app, Nat.sub_diag, firstn_all. cbn [firstn].
  now rewrite app_nil_r.
Qed.

Lemma flip_count_step (n : nat) :
  Z.to_nat ((Z.of_nat (S (S n)) + 1) / 2)
  = S (Z.to_nat ((Z.of_nat n + 1) / 2)).
Proof.
  replace (Z.of_nat (S (S n)) + 1) with (Z.of_nat n + 1 + 1 * 2) by lia.
  rewrite Z.div_add by lia.
  assert (0 <= (Z.of_nat n + 1) / 2) by (apply Z.div_pos; lia).
  lia.
Qed.

(** The loop of [flip_line] on the records [recs], which sit between
    [pre] and [post] in the buffer. *)
Lemma flip_line_loop (b : nat) :
  forall (n : nat) (recs pre post : list (list Z)),
    length recs = n ->
    Forall (fun r => length r = b) recs ->
    exists buf' alt',
      for_loop (Z.to_nat ((Z.of_nat n + 1) / 2)) (flip_line_body b)
               (concat pre ++ concat recs ++ concat post,
                length (concat pre),
                Z.of_nat (length (concat pre))
                + Z.of_nat b * (Z.of_nat n - 1))
      = Some (concat pre ++ concat (rev recs) ++ concat post, buf', alt').
Proof.
  induction n as [n IH] using lt_wf_ind. intros recs pre post Hn Hb.
  destruct recs as [|a recs].
  - subst n. simpl. eauto.
  - destruct recs as [|a' recs'].
    + (* the middle record is swapped with itself *)
      subst n. inversion Hb as [|? ? Ha _]; subst.
      change (Z.to_nat ((Z.of_nat (length [a]) + 1) / 2)) with 1%nat.
      cbn [for_loop length concat rev app]. rewrite !app_nil_r.
      unfold flip_line_body.
      replace (Z.of_nat (length (concat pre))
               + Z.of_nat (length a) * (Z.of_nat 1 - 1))
        with (Z.of_nat (length (concat pre))) by lia.
      destruct (Z.ltb_spec (Z.of_nat (length (concat pre))) 0); [lia|].
      rewrite Nat2Z.id, load_hole. cbn [obind].
      rewrite (store_hole (concat pre) a (concat post) a eq_refl).
      cbn [obind].
      rewrite (store_hole (concat pre) a (concat post) a eq_refl).
      cbn [obind]. eauto.
    + destruct (@exists_last _ (a' :: recs') ltac:(discriminate))
        as (mid & c & Hmid).
      rewrite Hmid in *. clear Hmid a' recs'.
      cbn [length] in Hn. rewrite length_app in Hn. cbn [length] in Hn.
      inversion Hb as [|? ? Ha Hb']; subst.
      apply Forall_app in Hb'. destruct Hb' as [Hmidb Hc].
      inversion Hc as [|? ? Hc' _]; subst.
      replace (S (length mid + 1)) with (S (S (length mid))) by lia.
      rewrite flip_count_step. cbn [for_loop].
      cbn [concat]. rewrite concat_app. cbn [concat]. rewrite app_nil_r.
      set (P := concat pre). set (M := concat mid). set (Q := concat post).
      assert (HM : length M = (length mid * length a)%nat).
      { subst M. clear - Hmidb. induction Hmidb as [|x l Hx _ IHl];
          [reflexivity|].
        cbn [concat length]. rewrite length_app, IHl, Hx. lia. }
      unfold flip_line_body at 1.
      set (alt := Z.of_nat (length P)
                  + Z.of_nat (length a) * (Z.of_nat (S (S (length mid))) - 1)).
      assert (Halt : Z.to_nat alt = length (P ++ a ++ M)).
      { subst alt. rewrite !length_app, HM. nia. }
      destruct (Z.ltb_spec alt 0) as [Hneg|_]; [subst alt; nia|].
      rewrite Halt.
      replace (P ++ (a ++ M ++ c) ++ Q) with (P ++ a ++ (M ++ c ++ Q))
        by (now rewrite <- !app_assoc).
      rewrite load_hole. cbn [obind].
      replace (P ++ a ++ M ++ c ++ Q) with ((P ++ a ++ M) ++ c ++ Q)
        by (now rewrite <- !app_assoc).
      replace (Mem.load ((P ++ a ++ M) ++ c ++ Q) (length (P ++ a ++ M))
                        (length a))
        with (Some c) by (rewrite <- Hc'; symmetry; apply load_hole).
      cbn [obind].
      replace ((P ++ a ++ M) ++ c ++ Q) with (P ++ a ++ (M ++ c ++ Q))
        by (now rewrite <- !app_assoc).
      rewrite (store_hole P a (M ++ c ++ Q) c) by lia. cbn [obind].
      replace (P ++ c ++ M ++ c ++ Q) with ((P ++ c ++ M) ++ c ++ Q)
        by (now rewrite <- !app_assoc).
      replace (length (P ++ a ++ M)) with (length (P ++ c ++ M))
        by (rewrite !length_app; lia).
      rewrite (store_hole (P ++ c ++ M) c Q a) by lia. cbn [obind].
      destruct (IH (length mid) ltac:(lia) mid (pre ++ [c]) ([a] ++ post)
                  eq_refl Hmidb) as (buf' & alt' & Hloop).
      rewrite !concat_app in Hloop. cbn [concat] in Hloop.
      rewrite !app_nil_r in Hloop. fold P M Q in Hloop.
      exists buf', alt'.
      replace ((P ++ c ++ M) ++ a ++ Q) with ((P ++ c) ++ M ++ a ++ Q)
        by (now rewrite <- !app_assoc).
      replace (length P + length a)%nat with (length (P ++ c))
        by (rewrite length_app; lia).
      replace (alt - Z.of_nat (length a))
        with (Z.of_nat (length (P ++ c))
              + Z.of_nat (length a) * (Z.of_nat (length mid) - 1))
        by (subst alt; rewrite length_app; nia).
      rewrite Hloop.
      assert (Hrev : concat (rev (a :: mid ++ [c]))
                     = c ++ concat (rev mid) ++ a).
      { cbn [rev]. rewrite rev_app_distr. cbn [rev app concat].
        rewrite concat_app. cbn [concat]. now rewrite !app_nil_r. }
      rewrite Hrev, <- !app_assoc. reflexivity.
Qed.

(** X7.  [flip_line] reverses the order of the pixel records of a row
    and leaves the bytes inside each record in place; flipping the
    flipped row gives the row back. *)
Theorem flip_line_reverses (recs : list (list Z)) (info : tga_info) :
  Forall (fun r => Z.of_nat (length r) = bytes info) recs ->
  width info = Z.of_nat (length recs) ->
  flip_line (concat recs) info = Some (concat (rev recs)) /\
  flip_line (concat (rev recs)) info = Some (concat recs).
Proof.
  intros Hb Hw.
  assert (Hfl : forall rs,
             Forall (fun r => Z.of_nat (length r) = bytes info) rs ->
             length rs = length recs ->
             flip_line (concat rs) info = Some (concat (rev rs))).
  { intros rs Hrs Hlen. unfold flip_line. rewrite Hw, <- Hlen.
    destruct rs as [|r0 rs0]; [reflexivity|].
    set (rs := r0 :: rs0) in *.
    assert (Hpos : 0 <= bytes info)
      by (inversion Hrs; subst; lia).
    assert (Hrs' : Forall (fun r => length r = Z.to_nat (bytes info)) rs).
    { eapply Forall_impl; [|exact Hrs]. simpl. intros r Hr. lia. }
    destruct (flip_line_loop (Z.to_nat (bytes info)) (length rs) rs [] []
                eq_refl Hrs') as (buf' & alt' & Hloop).
    cbn [concat app length] in Hloop. rewrite app_nil_r in Hloop.
    replace (bytes info * (Z.of_nat (length rs) - 1))
      with (Z.of_nat 0
            + Z.of_nat (Z.to_nat (bytes info)) * (Z.of_nat (length rs) - 1))
      by lia.
    fold rs. cbn [length] in Hloop. cbn [length].
    rewrite Hloop. cbn [obind fst]. now rewrite app_nil_r. }
  split.
  - apply Hfl; [exact Hb | reflexivity].
  - rewrite <- (rev_involutive recs) at 2. apply Hfl.
    + apply Forall_rev. exact Hb.
    + apply length_rev.
Qed.

Lemma flip_line_reverses_witness :
  let info := mk_tga_info 0 0 TGA_TYPE_COLOR TGA_COMP_NONE 0 0 0 0 0 3 1 16 2
                          0 1 0 in
  flip_line (concat [[1; 2]; [3; 4]; [5; 6]]) info
  = Some (concat (rev [[1; 2]; [3; 4]; [5; 6]])) /\
  flip_line (concat (rev [[1; 2]; [3; 4]; [5; 6]])) info
  = Some (concat [[1; 2]; [3; 4]; [5; 6]]).
Proof.
  intros info.
  apply (flip_line_reverses [[1; 2]; [3; 4]; [5; 6]] info);
    [repeat constructor | reflexivity].
Defined.

(** ** Exchange of the red and blue bytes *)

Lemma nth_error_inside (pre rec post : list Z) (j : nat) :
  (j < length rec)%nat ->
  nth_error (pre ++ rec ++ post) (length pre + j) = nth_error rec j.
Proof.
  intros H. rewrite nth_error_app2 by lia.
  replace (length pre + j - length pre)%nat with j by lia.
  now rewrite nth_error_app1 by exact H.
Qed.

Lemma bgr2rgb_pixel_length (alpha : Z) (rec : list Z) :
  (bgr2rgb_width alpha <= length rec)%nat ->
  length (bgr2rgb_pixel alpha rec) = bgr2rgb_width alpha.
Proof.
  unfold bgr2rgb_pixel, bgr2rgb_width.
  destruct rec as [|s0 [|s1 [|s2 tl]]]; destruct (alpha =? 0);
    simpl; intros; lia || reflexivity.
Qed.

Lemma bgr2rgb_body_step (alpha : Z) (nbytes : nat)
  (done rec rest pre hole post : list Z) :
  length rec = nbytes -> (bgr2rgb_width alpha <= nbytes)%nat ->
  length hole = bgr2rgb_width alpha ->
  bgr2rgb_body (done ++ rec ++ rest) nbytes alpha
               (pre ++ hole ++ post, length pre, length done)
  = Some (pre ++ bgr2rgb_pixel alpha rec ++ post,
          (length pre + bgr2rgb_width alpha)%nat,
          (length done + nbytes)%nat).
Proof.
  intros Hrec Hk Hh. unfold bgr2rgb_body, bgr2rgb_width in *.
  destruct rec as [|s0 [|s1 [|s2 tl]]];
    try (destruct (alpha =? 0); simpl in Hrec; lia).
  rewrite <- (Nat.add_0_r (length done)) at 1.
  rewrite !nth_error_inside by (simpl; lia). cbn [nth_error obind].
  unfold bgr2rgb_pixel.
  destruct (alpha =? 0).
  - rewrite (store_hole pre hole post) by (rewrite Hh; reflexivity).
    reflexivity.
  - destruct tl as [|s3 tl]; [simpl in Hrec; lia|].
    rewrite nth_error_inside by (simpl; lia). cbn [nth_error obind nth].
    rewrite (store_hole pre hole post) by (rewrite Hh; reflexivity).
    reflexivity.
Qed.

Lemma bgr2rgb_loop (alpha : Z) (nbytes : nat) (recs : list (list Z)) :
  Forall (fun r => length r = nbytes) recs ->
  (bgr2rgb_width alpha <= nbytes)%nat ->
  forall (done pre hole post : list Z),
    length hole = (bgr2rgb_width alpha * length recs)%nat ->
    for_loop (length recs) (bgr2rgb_body (done ++ concat recs) nbytes alpha)
             (pre ++ hole ++ post, length pre, length done)
    = Some (pre ++ flat_map (bgr2rgb_pixel alpha) recs ++ post,
            (length pre + bgr2rgb_width alpha * length recs)%nat,
            (length done + nbytes * length recs)%nat).
Proof.
  intros Hrecs Hk. induction Hrecs as [|rec recs Hrec _ IH];
    intros done pre hole post Hh.
  - destruct hole; [|simpl in Hh; lia]. simpl.
    now rewrite !Nat.mul_0_r, !Nat.add_0_r.
  - cbn [length] in Hh. rewrite Nat.mul_succ_r in Hh.
    set (k := bgr2rgb_width alpha) in *.
    assert (Hsplit : hole = firstn k hole ++ skipn k hole)
      by (now rewrite firstn_skipn).
    assert (H1 : length (firstn k hole) = k)
      by (rewrite length_firstn; clear - Hh; lia).
    assert (H2 : length (skipn k hole) = (k * length recs)%nat)
      by (rewrite length_skipn; clear - Hh; lia).
    cbn [length for_loop concat flat_map].
    rewrite Hsplit, <- !app_assoc.
    rewrite (bgr2rgb_body_step alpha nbytes done rec (concat recs) pre
               (firstn k hole) (skipn k hole ++ post) Hrec Hk H1).
    cbn [obind]. fold k.
    set (e := bgr2rgb_pixel alpha rec).
    assert (He : length e = k)
      by (apply bgr2rgb_pixel_length; rewrite Hrec; exact Hk).
    replace (done ++ rec ++ concat recs) with ((done ++ rec) ++ concat recs)
      by (now rewrite <- app_assoc).
    replace (length done + nbytes)%nat with (length (done ++ rec))
      by (rewrite length_app; lia).
    replace (length pre + k)%nat with (length (pre ++ e))
      by (rewrite length_app; lia).
    replace (pre ++ e ++ skipn k hole ++ post)
      with ((pre ++ e) ++ skipn k hole ++ post)
      by (now rewrite <- app_assoc).
    rewrite (IH (done ++ rec) (pre ++ e) _ post H2).
    rewrite !length_app, <- !app_assoc, He, Hrec.
    f_equal. f_equal; [f_equal|]; rewrite ?Nat.mul_succ_r; lia.
Qed.

(** [bgr2rgb] on a row given by its records. *)
Lemma bgr2rgb_row (alpha : Z) (nbytes : nat) (recs : list (list Z))
  (dest : list Z) (doff : nat) :
  Forall (fun r => length r = nbytes) recs ->
  (bgr2rgb_width alpha <= nbytes)%nat ->
  (doff + bgr2rgb_width alpha * length recs <= length dest)%nat ->
  bgr2rgb dest doff (concat recs) (length recs) nbytes alpha
  = Some (firstn doff dest
          ++ flat_map (bgr2rgb_pixel alpha) recs
          ++ skipn (doff + bgr2rgb_width alpha * length recs) dest).
Proof.
  intros Hrecs Hk Hd. unfold bgr2rgb.
  set (k := (bgr2rgb_width alpha * length recs)%nat) in *.
  assert (Hdest : dest = firstn doff dest ++ firstn k (skipn doff dest)
                         ++ skipn (doff + k) dest).
  { rewrite <- (firstn_skipn doff dest) at 1. f_equal.
    rewrite <- (firstn_skipn k (skipn doff dest)) at 1. f_equal.
    rewrite skipn_skipn. f_equal. lia. }
  assert (Hpre : length (firstn doff dest) = doff)
    by (rewrite length_firstn; lia).
  assert (Hs : (dest, doff, 0%nat)
               = (firstn doff dest ++ firstn k (skipn doff dest)
                  ++ skipn (doff + k) dest,
                  length (firstn doff dest), 0%nat))
    by (rewrite Hpre, <- Hdest; reflexivity).
  rewrite Hs.
  pose proof (bgr2rgb_loop alpha nbytes recs Hrecs Hk []
                (firstn doff dest) (firstn k (skipn doff dest))
                (skipn (doff + k) dest)) as L.
  cbn [app length] in L. rewrite L.
  - reflexivity.
  - rewrite length_firstn, length_skipn. lia.
Qed.

Lemma bgr2rgb_pixel_twice (alpha : Z) (rec : list Z) :
  length rec = bgr2rgb_width alpha ->
  bgr2rgb_pixel alpha (bgr2rgb_pixel alpha rec) = rec.
Proof.
  unfold bgr2rgb_pixel, bgr2rgb_width.
  destruct (alpha =? 0) eqn:E; intros H.
  - destruct rec as [|s0 [|s1 [|s2 [|s3 tl]]]]; try discriminate H.
    rewrite ?E. reflexivity.
  - destruct rec as [|s0 [|s1 [|s2 [|s3 [|s4 tl]]]]]; try discriminate H.
    reflexivity.
Qed.

(** X8.  On a row of 3-byte records (no alpha) or 4-byte records
    (alpha), [bgr2rgb] stays inside both buffers and exchanges the first
    and third byte of each record, leaving the second and the fourth in
    place; applied to its own output it gives the row back. *)
Theorem bgr2rgb_twice (alpha : Z) (recs : list (list Z))
  (dest dest' : list Z) :
  Forall (fun r => length r = bgr2rgb_width alpha) recs ->
  length dest = (bgr2rgb_width alpha * length recs)%nat ->
  length dest' = (bgr2rgb_width alpha * length recs)%nat ->
  let out := flat_map (bgr2rgb_pixel alpha) recs in
  bgr2rgb dest 0 (concat recs) (length recs) (bgr2rgb_width alpha) alpha
  = Some out /\
  bgr2rgb dest' 0 out (length recs) (bgr2rgb_width alpha) alpha
  = Some (concat recs).
Proof.
  intros Hrecs Hd Hd' out.
  assert (H1 : bgr2rgb dest 0 (concat recs) (length recs)
                       (bgr2rgb_width alpha) alpha = Some out).
  { rewrite (bgr2rgb_row alpha (bgr2rgb_width alpha) recs dest 0 Hrecs)
      by lia.
    cbn [firstn app Nat.add]. rewrite <- Hd, skipn_all.
    now rewrite app_nil_r. }
  split; [exact H1|].
  set (recs' := map (bgr2rgb_pixel alpha) recs).
  assert (Hout : out = concat recs')
    by (subst out recs'; apply flat_map_concat_map).
  assert (Hrecs' : Forall (fun r => length r = bgr2rgb_width alpha) recs').
  { subst recs'. rewrite Forall_map. eapply Forall_impl; [|exact Hrecs].
    simpl. intros r Hr. apply bgr2rgb_pixel_length. lia. }
  assert (Hlen : length recs' = length recs)
    by (subst recs'; apply length_map).
  rewrite Hout, <- Hlen.
  rewrite (bgr2rgb_row alpha (bgr2rgb_width alpha) recs' dest' 0 Hrecs')
    by lia.
  cbn [firstn app Nat.add]. rewrite Hlen, <- Hd', skipn_all, app_nil_r.
  f_equal. subst recs'. rewrite flat_map_concat_map, map_map.
  f_equal. rewrite <- (map_id recs) at 2.
  apply map_ext_Forall. eapply Forall_impl; [|exact Hrecs].
  simpl. intros r Hr. now apply bgr2rgb_pixel_twice.
Qed.

Lemma bgr2rgb_twice_witness :
  let out := flat_map (bgr2rgb_pixel 0) [[1; 2; 3]; [4; 5; 6]] in
  bgr2rgb (repeat 0 6) 0 (concat [[1; 2; 3]; [4; 5; 6]])
          (length [[1; 2; 3]; [4; 5; 6]]) (bgr2rgb_width 0) 0
  = Some out /\
  bgr2rgb (repeat 9 6) 0 out (length [[1; 2; 3]; [4; 5; 6]])
          (bgr2rgb_width 0) 0
  = Some (concat [[1; 2; 3]; [4; 5; 6]]).
Proof.
  apply (bgr2rgb_twice 0 [[1; 2; 3]; [4; 5; 6]] (repeat 0 6) (repeat 9 6));
    [repeat constructor | reflexivity | reflexivity].
Defined.

(** ** Files written by the exporter *)

Lemma le16_bytes (x : Z) :
  0 <= x < 65536 ->
  uchar (Z.rem x 256) + uchar (Z.quot x 256) * 256 = x.
Proof.
  intros H. rewrite Z.rem_mod_nonneg, Z.quot_div_nonneg by lia.
  assert (0 <= x / 256 < 256)
    by (split; [apply Z.div_pos | apply Z.div_lt_upper_bound]; lia).
  pose proof (Z.mod_pos_bound x 256 ltac:(lia)).
  rewrite !uchar_small by lia.
  pose proof (Z.div_mod x 256 ltac:(lia)). lia.
Qed.

(** X9.  The header that [save_image] writes for a drawable of at most
    65535 x 65535 pixels is one that the loader accepts: after the
    corrections of the alpha bits the sub-format check and the colormap
    type check pass, and the fields read back are the type, size,
    compression, record size and orientation that were written, with an
    empty image ID. *)
Theorem saved_header_accepted (d : drawable) (rle : bool)
  (origin : TgaOrigin) :
  0 <= d_width d < 65536 -> 0 <= d_height d < 65536 ->
  0 <= d_num_colors d < 65535 ->
  let info := fix_alphaBits (parse_header (save_header d rle origin)) in
  check_sub_format info = None /\
  check_color_map_type info = None /\
  idLength info = 0 /\
  imageType info = tga_type_of (d_type d) /\
  imageCompression info = (if rle then TGA_COMP_RLE else TGA_COMP_NONE) /\
  width info = d_width d /\
  height info = d_height d /\
  bytes info = Z.of_nat (out_bpp (d_type d)) /\
  flipHoriz info = 0 /\
  flipVert info = (if origin_set origin then 1 else 0).
Proof.
  intros Hw Hh Hn info.
  pose proof (le16_bytes (d_width d) Hw) as Ew.
  pose proof (le16_bytes (d_height d) Hh) as Eh.
  subst info. unfold save_header.
  destruct (d_type d), rle, origin;
    cbn [is_type orb origin_set app map tga_type_of out_bpp];
    set (wl := uchar (Z.rem (d_width d) 256)) in *;
    set (wh := uchar (Z.quot (d_width d) 256)) in *;
    set (hl := uchar (Z.rem (d_height d) 256)) in *;
    set (hh := uchar (Z.quot (d_height d) 256)) in *;
    clearbody wl wh hl hh;
    try (set (n0 := uchar (Z.rem _ 256)); clearbody n0);
    try (set (n1 := uchar (Z.quot _ 256)); clearbody n1);
    repeat split; try reflexivity; try (cbn; lia).
Qed.

Lemma saved_header_accepted_witness :
  let d := indexeda_drawable 8 in
  let info := fix_alphaBits
                (parse_header (save_header d true ORIGIN_BOTTOM_LEFT)) in
  check_sub_format info = None /\
  check_color_map_type info = None /\
  idLength info = 0 /\
  imageType info = tga_type_of (d_type d) /\
  imageCompression info = TGA_COMP_RLE /\
  width info = d_width d /\
  height info = d_height d /\
  bytes info = Z.of_nat (out_bpp (d_type d)) /\
  flipHoriz info = 0 /\
  flipVert info = 1.
Proof.
  intros d.
  apply (saved_header_accepted d true ORIGIN_BOTTOM_LEFT);
    vm_compute; split; discriminate || reflexivity.
Defined.

Lemma save_palette_appends (d : drawable) (fp out : list Z) :
  save_palette d fp = Some out -> exists x, out = fp ++ x.
Proof.
  assert (G : forall alpha n s s',
             for_loop n (save_palette_body (d_cmap d) alpha) s = Some s' ->
             exists x, fst s' = fst s ++ x).
  { intros alpha n s s' H.
    apply (for_loop_invariant
             (fun t => exists x, fst t = fst s ++ x)
             (save_palette_body (d_cmap d) alpha)) with (n := n) (s := s);
      [|exists []; now rewrite app_nil_r|exact H].
    intros [f i] t [x Hx] Hb. cbn [fst] in Hx. subst f.
    unfold save_palette_body, putc in Hb.
    crunch Hb; inversion Hb; subst; cbn [fst]; rewrite <- ?app_assoc;
      eauto. }
  unfold save_palette. intros H.
  destruct (is_type (d_type d) GIMP_INDEXED_IMAGE).
  - destruct (for_loop _ _ _) as [s|] eqn:E; [|discriminate].
    cbn [obind] in H. inversion H; subst.
    apply G in E. exact E.
  - destruct (is_type (d_type d) GIMP_INDEXEDA_IMAGE).
    + destruct (for_loop _ _ _) as [s|] eqn:E; [|discriminate].
      cbn [obind] in H. inversion H; subst.
      apply G in E. destruct E as [x Hx]. cbn [fst] in Hx.
      unfold putc. rewrite Hx, <- !app_assoc. eauto.
    + inversion H; subst. exists []. now rewrite app_nil_r.
Qed.

(** The file written starts with the header and ends with the footer. *)
Lemma save_image_layout (h : host) (d : drawable) (rle : bool)
  (origin : TgaOrigin) (file : list Z) :
  save_image h d rle origin = Saved file ->
  exists body, file = save_header d rle origin ++ body ++ repeat 0 8 ++ magic.
Proof.
  unfold save_image. intros H.
  destruct (save_palette d _) as [fp|] eqn:Ep; [|discriminate].
  destruct (save_palette_appends _ _ _ Ep) as [x ->].
  destruct (save_rows_append d rle origin (Z.to_nat (d_height d))
              (save_header d rle origin ++ x,
               g_new h (Z.to_nat (d_width d) * out_bpp (d_type d)),
               g_new h (Z.to_nat (d_width d) * out_bpp (d_type d)), 0))
    as [y Hy].
  destruct (save_rows _ _ _ _ _) as [[[[fp' p'] d'] r']|w];
    [|discriminate].
  cbn [fst] in Hy. subst fp'. inversion H; subst.
  exists (x ++ y). now rewrite <- !app_assoc.
Qed.

(** The footer probe on a file that ends with the footer of
    [save_image]. *)
Lemma read_footer_saved (body : list Z) :
  exists p,
    read_footer (fopen (body ++ repeat 0 8 ++ magic))
    = Image (mkFILE (body ++ repeat 0 8 ++ magic) p).
Proof.
  set (file := body ++ repeat 0 8 ++ magic).
  assert (Hlen : length file = (length body + 26)%nat)
    by (subst file; rewrite length_app; reflexivity).
  unfold read_footer, fseek_end, fseek_to, size, fopen.
  cbn [content pos]. rewrite Hlen.
  destruct (Z.ltb_spec (Z.of_nat (length body + 26) + -26) 0); [lia|].
  cbn [Z.eqb]. unfold fread. cbn [content pos Nat.eqb].
  replace (Z.to_nat (Z.of_nat (length body + 26) + -26))
    with (length body) by lia.
  assert (Hf : skipn (length body) file = repeat 0 8 ++ magic)
    by (subst file; rewrite skipn_app, skipn_all, Nat.sub_diag;
        reflexivity).
  rewrite Hf. cbn. eexists. reflexivity.
Qed.

(** The checks of the header pass on the header that [save_image]
    writes. *)
Lemma saved_header_checks (d : drawable) (rle : bool) (origin : TgaOrigin) :
  0 <= d_width d < 65536 -> 0 <= d_height d < 65536 ->
  0 <= d_num_colors d < 65535 ->
  let info := fix_alphaBits (parse_header (save_header d rle origin)) in
  check_sub_format info = None /\
  check_color_map_type info = None /\
  idLength info = 0.
Proof.
  intros Hw Hh Hn info. subst info. unfold save_header.
  destruct (d_type d), rle, origin;
    cbn [is_type orb origin_set app map];
    repeat (set (u := uchar (Z.rem _ 256)); clearbody u);
    repeat (set (v := uchar (Z.quot _ 256)); clearbody v);
    repeat split; reflexivity.
Qed.

(** The load of a file that starts with a header passing the checks,
    with an empty image ID, and ends with the footer of [save_image]. *)
Lemma load_saved_layout (h : host) (st : rle_static) (header body : list Z) :
  length header = 18%nat ->
  let info := fix_alphaBits (parse_header header) in
  check_sub_format info = None ->
  check_color_map_type info = None ->
  idLength info = 0 ->
  let file := header ++ body ++ repeat 0 8 ++ magic in
  firstn 18 file = header /\
  load_image h st file = ReadImage h st (mkFILE file 18) info.
Proof.
  intros Hl info Hsub Hcm Hid file.
  assert (Hfirst : firstn 18 file = header).
  { subst file. rewrite <- Hl. apply firstn_app_exact. reflexivity. }
  split; [exact Hfirst|].
  assert (Hfooter : exists p, read_footer (fopen file)
                              = Image (mkFILE file p)).
  { subst file. rewrite app_assoc. apply read_footer_saved. }
  destruct Hfooter as [p Hp].
  unfold load_image. rewrite Hp.
  rewrite (load_from_start_content h st (mkFILE file p) (fopen file))
    by reflexivity.
  assert (Hlen : (18 <= length file)%nat)
    by (subst file; rewrite length_app, Hl; lia).
  assert (Hb0 : 0 <= byte_at file 0).
  { replace (byte_at file 0) with (byte_at (firstn 18 file) 0)
      by (unfold byte_at; rewrite nth_firstn; reflexivity).
    rewrite Hfirst.
    replace (byte_at header 0) with (idLength (parse_header header))
      by apply parse_header_idLength.
    destruct (fix_alphaBits_set (parse_header header)) as [a Ha].
    subst info. rewrite Ha in Hid. cbn [set_alphaBits idLength] in Hid.
    lia. }
  rewrite (load_from_start_header h st file Hlen Hb0). cbv zeta.
  rewrite Hfirst. fold info. rewrite Hsub, Hcm, Hid. reflexivity.
Qed.

(** X10.  A file written by [save_image] for a drawable of at most
    65535 x 65535 pixels is never turned away by the loader's footer
    probe or by its checks of the header: [load_image] goes on to
    [ReadImage] with the stream placed just after the 18-byte header
    and with the fields that were written. *)
Theorem saved_file_reaches_ReadImage (h h' : host) (st : rle_static)
  (d : drawable) (rle : bool) (origin : TgaOrigin) (file : list Z) :
  0 <= d_width d < 65536 -> 0 <= d_height d < 65536 ->
  0 <= d_num_colors d < 65535 ->
  save_image h d rle origin = Saved file ->
  firstn 18 file = save_header d rle origin /\
  load_image h' st file
  = ReadImage h' st (mkFILE file 18)
              (fix_alphaBits (parse_header (save_header d rle origin))).
Proof.
  intros Hw Hh Hn Hsave.
  destruct (save_image_layout h d rle origin file Hsave) as [body ->].
  destruct (saved_header_checks d rle origin Hw Hh Hn)
    as (Hsub & Hcm & Hid).
  exact (load_saved_layout h' st (save_header d rle origin) body
           (save_header_length d rle origin) Hsub Hcm Hid).
Qed.

Lemma saved_file_reaches_ReadImage_witness :
  let d := mk_drawable GIMP_GRAYA_IMAGE 2 2 0 [] (fun y => [y; 1; 2; 3]) in
  exists file,
    save_image reference_host d true ORIGIN_TOP_LEFT = Saved file /\
    firstn 18 file = save_header d true ORIGIN_TOP_LEFT /\
    load_image reference_host rle_static_init file
    = ReadImage reference_host rle_static_init (mkFILE file 18)
        (fix_alphaBits (parse_header (save_header d true ORIGIN_TOP_LEFT))).
Proof.
  intros d. eexists. split; [vm_compute; reflexivity|].
  apply (saved_file_reaches_ReadImage reference_host reference_host
           rle_static_init d true ORIGIN_TOP_LEFT);
    [vm_compute; split; discriminate || reflexivity ..
    | vm_compute; reflexivity].
Defined.

(** ** The stripes handed to the host *)

Lemma load_length (m : list Z) (off len : nat) (blk : list Z) :
  Mem.load m off len = Some blk -> length blk = len.
Proof.
  unfold Mem.load.
  destruct (Nat.leb_spec (off + len) (length m)) as [Hle|Hgt];
    [|discriminate].
  intros E. inversion E. rewrite length_firstn, length_skipn. lia.
Qed.

Lemma tiles_plain_cover (max_th : nat) (info : tga_info) (lbpp : nat)
  (cc : option (list Z)) (fuel : nat) :
  forall (i : nat) (s s' : line_state) (acc sets : list (Z * nat * list Z)),
    tiles_plain fuel max_th info lbpp cc i s acc = Some (s', sets) ->
    exists new,
      sets = acc ++ new /\
      flat_map stripe_rows new = seq i (Z.to_nat (height info) - i) /\
      Forall (fun t => length (snd t)
                       = (Z.to_nat (width info) * snd (fst t) * lbpp)%nat)
             new.
Proof.
  induction fuel as [|fuel IH]; intros i s s' acc sets H;
    cbn [tiles_plain] in H;
    destruct (Nat.ltb_spec i (Z.to_nat (height info))) as [Hlt|Hge].
  - discriminate.
  - inversion H; subst. exists []. rewrite app_nil_r.
    replace (Z.to_nat (height info) - i)%nat with 0%nat by lia.
    repeat split; constructor.
  - destruct (read_rows _ _ _ _ _) as [s1|]; [|discriminate].
    cbn [obind] in H.
    destruct (Mem.load _ _ _) as [blk|] eqn:El; [|discriminate].
    cbn [obind] in H.
    destruct (IH _ _ _ _ _ H) as (new & Hsets & Hrows & Hblk).
    set (th := Nat.min max_th (Z.to_nat (height info) - i)) in *.
    exists ((Z.of_nat i, th, blk) :: new). split; [|split].
    + rewrite Hsets, <- app_assoc. reflexivity.
    + cbn [flat_map]. rewrite Hrows. unfold stripe_rows. cbn [fst snd].
      rewrite Nat2Z.id.
      destruct (Nat.le_gt_cases max_th (Z.to_nat (height info) - i)).
      * replace th with max_th by (subst th; lia).
        rewrite <- seq_app. f_equal. lia.
      * replace th with (Z.to_nat (height info) - i)%nat by (subst th; lia).
        replace (Z.to_nat (height info) - (i + max_th))%nat with 0%nat by lia.
        cbn [seq]. now rewrite app_nil_r.
    + constructor; [|exact Hblk]. cbn [fst snd].
      apply load_length in El. exact El.
  - inversion H; subst. exists []. rewrite app_nil_r.
    replace (Z.to_nat (height info) - i)%nat with 0%nat by lia.
    repeat split; constructor.
Qed.

Lemma tiles_flipped_cover (max_th : nat) (info : tga_info) (lbpp : nat)
  (cc : option (list Z)) (fuel : nat) :
  forall (i : nat) (s s' : line_state) (acc sets : list (Z * nat * list Z)),
    tiles_flipped fuel max_th info lbpp cc i s acc = Some (s', sets) ->
    (i <= Z.to_nat (height info))%nat ->
    i = 0%nat \/ Nat.divide max_th (Z.to_nat (height info) - i) ->
    exists new,
      sets = acc ++ new /\
      flat_map stripe_rows (rev new) = seq 0 (Z.to_nat (height info) - i) /\
      Forall (fun t => length (snd t)
                       = (Z.to_nat (width info) * snd (fst t) * lbpp)%nat)
             new.
Proof.
  set (ht := Z.to_nat (height info)).
  induction fuel as [|fuel IH]; intros i s s' acc sets H Hi Hdiv;
    cbn [tiles_flipped] in H; fold ht in H;
    destruct (Nat.ltb_spec i ht) as [Hlt|Hge].
  - discriminate.
  - inversion H; subst. exists []. rewrite app_nil_r.
    replace (ht - i)%nat with 0%nat by lia.
    repeat split; constructor.
  - assert (Hht : Z.of_nat ht = height info) by (subst ht; lia).
    destruct (if negb (i =? 0)%nat then Some max_th
              else if (max_th =? 0)%nat then None
                   else Some (ht mod max_th)%nat) as [th0|] eqn:Eth;
      [|discriminate].
    cbn [obind] in H.
    set (th := if (th0 =? 0)%nat then max_th else th0) in *.
    assert (Hfacts : (1 <= th <= ht - i)%nat /\
                     Nat.divide max_th (ht - (i + th))).
    { destruct (Nat.eqb_spec i 0) as [->|Hi0]; cbn [negb] in Eth.
      - destruct (Nat.eqb_spec max_th 0) as [|Hm]; [discriminate|].
        inversion Eth; subst th0. clear Eth.
        pose proof (Nat.div_mod_eq ht max_th) as Hdm.
        pose proof (Nat.mod_upper_bound ht max_th Hm) as Hub.
        subst th. destruct (Nat.eqb_spec (ht mod max_th) 0) as [E0|E0].
        + rewrite E0 in Hdm.
          assert (Hq : (1 <= ht / max_th)%nat).
          { destruct (ht / max_th)%nat; [lia|lia]. }
          split; [nia|].
          exists (ht / max_th - 1)%nat. nia.
        + split; [lia|]. exists (ht / max_th)%nat. lia.
      - inversion Eth; subst th0. clear Eth.
        destruct Hdiv as [Hz|[k Hk]]; [contradiction|].
        assert (Hm : (1 <= max_th)%nat) by (destruct max_th; lia).
        subst th. destruct (Nat.eqb_spec max_th 0); [lia|].
        assert (Hk1 : (1 <= k)%nat) by (destruct k; lia).
        split; [nia|]. exists (k - 1)%nat. nia. }
    destruct Hfacts as [Hth Hdiv'].
    destruct (read_rows _ _ _ _ _) as [s1|]; [|discriminate].
    cbn [obind] in H.
    destruct (Mem.load _ _ _) as [blk|] eqn:El; [|discriminate].
    cbn [obind] in H.
    destruct (IH _ _ _ _ _ H ltac:(lia) (or_intror Hdiv'))
      as (new & Hsets & Hrows & Hblk).
    exists ((height info - Z.of_nat i - Z.of_nat th, th, blk) :: new).
    split; [|split].
    + rewrite Hsets, <- app_assoc. reflexivity.
    + cbn [rev]. rewrite flat_map_app, Hrows. cbn [flat_map].
      unfold stripe_rows. cbn [fst snd]. rewrite app_nil_r.
      replace (Z.to_nat (height info - Z.of_nat i - Z.of_nat th))
        with (0 + (ht - (i + th)))%nat by lia.
      rewrite <- seq_app. f_equal. lia.
    + constructor; [|exact Hblk]. cbn [fst snd].
      apply load_length in El. exact El.
  - inversion H; subst. exists []. rewrite app_nil_r.
    replace (ht - i)%nat with 0%nat by lia.
    repeat split; constructor.
Qed.

(** X11.  When [ReadImage] delivers an image, the stripes it has passed to
    [gegl_buffer_set] cover every row of the image exactly once: from
    row 0 downwards for a file stored top-down, and from the last row
    upwards for a file stored bottom-up, where the first stripe takes
    the rows left over by whole tiles.  Each stripe carries
    [width * rows * bpp] bytes. *)
Theorem stripes_cover_image (h : host) (st : rle_static) (fp : FILE)
  (info : tga_info) (img : gimp_image) :
  ReadImage h st fp info = Image img ->
  flat_map stripe_rows
           (if flipVert info =? 0 then img_pixels img
            else rev (img_pixels img))
  = seq 0 (Z.to_nat (height info)) /\
  Forall (fun t =>
            length (snd t)
            = (Z.to_nat (width info) * snd (fst t)
               * gimp_drawable_get_bpp h (img_layer_type img))%nat)
         (img_pixels img).
Proof.
  unfold ReadImage. destruct (image_types info) as [[[itype dtype] cs] gs].
  destruct (read_colormap h info fp cs gs) as [[[fp' cc] gc]|m|];
    try discriminate.
  destruct (Z.eqb_spec (flipVert info) 0) as [Ef|Ef]; cbn [negb].
  - destruct (tiles_plain _ _ _ _ _ _ _ _) as [[s' sets]|] eqn:Et;
      [|discriminate].
    intros H. inversion H; subst. cbn [img_pixels img_layer_type].
    destruct (tiles_plain_cover _ _ _ _ _ _ _ _ _ _ Et)
      as (new & Hsets & Hrows & Hblk).
    cbn [app] in Hsets. subst new.
    rewrite Nat.sub_0_r in Hrows. split; assumption.
  - destruct (tiles_flipped _ _ _ _ _ _ _ _) as [[s' sets]|] eqn:Et;
      [|discriminate].
    intros H. inversion H; subst. cbn [img_pixels img_layer_type].
    destruct (tiles_flipped_cover _ _ _ _ _ _ _ _ _ _ Et ltac:(lia)
                (or_introl eq_refl))
      as (new & Hsets & Hrows & Hblk).
    cbn [app] in Hsets. subst new.
    rewrite Nat.sub_0_r in Hrows. split; assumption.
Qed.

Lemma stripes_cover_image_witness :
  let h := mk_host 2 (gimp_drawable_get_bpp reference_host) (fun _ => 0) in
  let header := [0; 0; 3; 0; 0; 0; 0; 0; 0; 0; 0; 0; 1; 0; 5; 0; 8; 0] in
  let info := fix_alphaBits (parse_header header) in
  let fp := mkFILE (header ++ [10; 20; 30; 40; 50]) 18 in
  exists img,
    ReadImage h rle_static_init fp info = Image img /\
    img_pixels img = [(4, 1%nat, [10]); (2, 2%nat, [30; 20]);
                      (0, 2%nat, [50; 40])] /\
    flat_map stripe_rows
             (if flipVert info =? 0 then img_pixels img
              else rev (img_pixels img))
    = seq 0 (Z.to_nat (height info)) /\
    Forall (fun t =>
              length (snd t)
              = (Z.to_nat (width info) * snd (fst t)
                 * gimp_drawable_get_bpp h (img_layer_type img))%nat)
           (img_pixels img).
Proof.
  intros h header info fp. eexists.
  split; [vm_compute; reflexivity|].
  split; [reflexivity|].
  apply (stripes_cover_image h rle_static_init fp info).
  vm_compute. reflexivity.
Defined.

(** ** Export followed by import *)

Lemma records_of (k n : nat) :
  forall l : list Z,
    length l = (n * k)%nat ->
    exists recs,
      l = concat recs /\ length recs = n /\
      Forall (fun r => length r = k) recs.
Proof.
  induction n as [|n IH]; intros l Hl.
  - destruct l; [|discriminate]. exists []. repeat split. constructor.
  - destruct (split_records l k n Hl) as (Hs & H1 & H2).
    destruct (IH _ H2) as (recs & Hc & Hn & Hf).
    exists (firstn k l :: recs). split; [|split].
    + cbn [concat]. rewrite <- Hc. exact Hs.
    + cbn [length]. now rewrite Hn.
    + constructor; assumption.
Qed.

Lemma bgr2rgb_pixel_flag (a a' : Z) (rec : list Z) :
  (a =? 0) = (a' =? 0) -> bgr2rgb_pixel a rec = bgr2rgb_pixel a' rec.
Proof. unfold bgr2rgb_pixel. now intros ->. Qed.

Lemma bgr2rgb_width_flag (a a' : Z) :
  (a =? 0) = (a' =? 0) -> bgr2rgb_width a = bgr2rgb_width a'.
Proof. unfold bgr2rgb_width. now intros ->. Qed.

Lemma flat_map_length_records {A : Type} (k : nat) (f : A -> list Z)
  (recs : list A) :
  Forall (fun r => length (f r) = k) recs ->
  length (flat_map f recs) = (length recs * k)%nat.
Proof.
  induction 1 as [|r recs Hr _ IH]; [reflexivity|].
  cbn [flat_map length]. rewrite length_app, Hr, IH. lia.
Qed.

Lemma concat_length_records (k : nat) (recs : list (list Z)) :
  Forall (fun r => length r = k) recs ->
  length (concat recs) = (length recs * k)%nat.
Proof.
  induction 1 as [|r recs Hr _ IH]; [reflexivity|].
  cbn [concat length]. rewrite length_app, Hr, IH. lia.
Qed.

(** The conversion of a row of a drawable without palette. *)
Lemma save_convert_plain (d : drawable) (w : nat) (pixels data : list Z) :
  is_type (d_type d) GIMP_INDEXEDA_IMAGE = false ->
  Z.to_nat (d_width d) = w ->
  length pixels = (w * out_bpp (d_type d))%nat ->
  length data = (w * out_bpp (d_type d))%nat ->
  exists out,
    save_convert d pixels data = Some out /\
    length out = (w * out_bpp (d_type d))%nat /\
    row_image (d_type d) pixels out.
Proof.
  intros Hp Hw Hpix Hdat. unfold save_convert, row_image, save_alpha.
  rewrite Hw.
  assert (Hcol : forall alpha : Z,
             bgr2rgb_width alpha = out_bpp (d_type d) ->
             exists out,
               bgr2rgb data 0 pixels w (out_bpp (d_type d)) alpha
               = Some out /\
               length out = (w * out_bpp (d_type d))%nat /\
               exists recs,
                 pixels = concat recs /\
                 Forall (fun r => length r = out_bpp (d_type d)) recs /\
                 out = flat_map (bgr2rgb_pixel alpha) recs).
  { intros alpha Hk.
    destruct (records_of (out_bpp (d_type d)) w pixels Hpix)
      as (recs & Hc & Hn & Hf).
    exists (flat_map (bgr2rgb_pixel alpha) recs).
    assert (Hlen : length (flat_map (bgr2rgb_pixel alpha) recs)
                   = (w * out_bpp (d_type d))%nat).
    { rewrite (flat_map_length_records (out_bpp (d_type d))), Hn;
        [reflexivity|].
      eapply Forall_impl; [|exact Hf]. simpl. intros r Hr.
      rewrite <- Hk. apply bgr2rgb_pixel_length. lia. }
    split; [|split; [exact Hlen|]].
    - rewrite Hc, <- Hn.
      rewrite (bgr2rgb_row alpha (out_bpp (d_type d)) recs data 0 Hf)
        by (rewrite ?Hk, ?Hdat, ?Hn; lia).
      cbn [firstn app Nat.add].
      rewrite skipn_all2 by (rewrite Hk, Hdat, Hn; lia).
      now rewrite app_nil_r.
    - exists recs. auto. }
  destruct (d_type d) eqn:Et; try discriminate Hp;
    cbn [is_type orb out_bpp] in *.
  - destruct (Hcol 0 eq_refl) as (out & H1 & H2 & H3). eauto.
  - destruct (Hcol 1 eq_refl) as (out & H1 & H2 & H3). eauto.
  - exists pixels. rewrite load_Some by lia.
    cbn [skipn obind]. rewrite firstn_all2 by lia.
    unfold Mem.store. rewrite Hpix, Hdat, Nat.leb_refl.
    cbn [firstn app Nat.add]. rewrite skipn_all2 by lia.
    rewrite app_nil_r. auto.
  - exists pixels. rewrite load_Some by lia.
    cbn [skipn obind]. rewrite firstn_all2 by lia.
    unfold Mem.store. rewrite Hpix, Hdat, Nat.leb_refl.
    cbn [firstn app Nat.add]. rewrite skipn_all2 by lia.
    rewrite app_nil_r. auto.
  - exists pixels. rewrite load_Some by lia.
    cbn [skipn obind]. rewrite firstn_all2 by lia.
    unfold Mem.store. rewrite Hpix, Hdat, Nat.leb_refl.
    cbn [firstn app Nat.add]. rewrite skipn_all2 by lia.
    rewrite app_nil_r. auto.
Qed.

(** One row as [save_image] writes it: [gegl_buffer_get] fills the
    block [pixels] with the row. *)
Lemma save_row_plain (d : drawable) (rle : bool) (origin : TgaOrigin)
  (w : nat) (fp pixels data : list Z) (r : Z) :
  is_type (d_type d) GIMP_INDEXEDA_IMAGE = false ->
  Z.to_nat (d_width d) = w -> (1 <= w)%nat ->
  length (file_row d origin r) = (w * out_bpp (d_type d))%nat ->
  (is_type (d_type d) GIMP_INDEXED_IMAGE = true ->
   Forall is_byte (file_row d origin r)) ->
  length pixels = (w * out_bpp (d_type d))%nat ->
  length data = (w * out_bpp (d_type d))%nat ->
  exists enc data',
    save_row_body d rle origin (fp, pixels, data, r)
    = Some (fp ++ enc, file_row d origin r, data', r + 1) /\
    length data' = (w * out_bpp (d_type d))%nat /\
    stored_row (d_type d) rle w (file_row d origin r) enc.
Proof.
  intros Hp Hw Hw1 Hrow Hbytes Hpix Hdat. unfold save_row_body.
  assert (Hget : gegl_buffer_get d (if origin_set origin
                                    then d_height d - (r + 1) else r) pixels
                 = Some (file_row d origin r)).
  { unfold gegl_buffer_get, file_row, Mem.store in *.
    destruct (origin_set origin);
      rewrite Hrow, Hpix, Nat.leb_refl; cbn [firstn app Nat.add];
      rewrite skipn_all2 by lia; now rewrite app_nil_r. }
  rewrite Hget. cbn [obind].
  destruct (save_convert_plain d w (file_row d origin r) data Hp Hw Hrow Hdat)
    as (out & Hc & Hlen & Himg).
  rewrite Hc. cbn [obind]. rewrite Hw. destruct rle.
  - destruct (rle_write_packets fp out w (out_bpp (d_type d)) Hw1 Hlen)
      as (ps & Hwr & Hwf & Hpx & Ht).
    rewrite Hwr. cbn [obind].
    exists (flat_map packet_bytes ps), out. split; [reflexivity|].
    split; [exact Hlen|].
    exists out. split; [exact Hrow|]. split; [exact Himg|].
    split; [exact Hlen|]. split; [|exact Hbytes].
    exists ps. auto.
  - unfold fwrite. rewrite Nat.mul_1_r, load_Some by lia.
    cbn [skipn obind]. rewrite firstn_all2 by lia.
    exists out, out. split; [reflexivity|]. split; [exact Hlen|].
    exists out. split; [exact Hrow|]. split; [exact Himg|].
    split; [exact Hlen|]. split; [reflexivity|exact Hbytes].
Qed.

(** The rows [r0 .. r0 + n - 1] as [save_image] writes them: the row
    loop runs to its end. *)
Lemma save_rows_plain (d : drawable) (rle : bool) (origin : TgaOrigin)
  (w : nat) :
  is_type (d_type d) GIMP_INDEXEDA_IMAGE = false ->
  Z.to_nat (d_width d) = w -> (1 <= w)%nat ->
  (forall y, 0 <= y < d_height d ->
             length (d_row d y) = (w * out_bpp (d_type d))%nat) ->
  (is_type (d_type d) GIMP_INDEXED_IMAGE = true ->
   forall y, 0 <= y < d_height d -> Forall is_byte (d_row d y)) ->
  forall (n r0 : nat) (fp pixels data : list Z),
    Z.of_nat (r0 + n) <= d_height d ->
    length pixels = (w * out_bpp (d_type d))%nat ->
    length data = (w * out_bpp (d_type d))%nat ->
    exists encs pixels' data',
      save_rows n d rle origin (fp, pixels, data, Z.of_nat r0)
      = inl (fp ++ concat encs, pixels', data', Z.of_nat (r0 + n)) /\
      Forall2 (stored_row (d_type d) rle w) (file_rows d origin r0 n) encs.
Proof.
  intros Hp Hw Hw1 Hrows Hbytes.
  induction n as [|n IH]; intros r0 fp pixels data Hr Hpix Hdat.
  - exists [], pixels, data. cbn [save_rows concat file_rows seq map].
    rewrite app_nil_r, Nat.add_0_r. split; [reflexivity|constructor].
  - assert (Hrow : length (file_row d origin (Z.of_nat r0))
                   = (w * out_bpp (d_type d))%nat).
    { unfold file_row. destruct (origin_set origin); apply Hrows; lia. }
    assert (Hby : is_type (d_type d) GIMP_INDEXED_IMAGE = true ->
                  Forall is_byte (file_row d origin (Z.of_nat r0))).
    { intros E. unfold file_row.
      destruct (origin_set origin); apply (Hbytes E); lia. }
    destruct (save_row_plain d rle origin w fp pixels data (Z.of_nat r0)
                Hp Hw Hw1 Hrow Hby Hpix Hdat)
      as (enc & data1 & Hb & Hd1 & Hst).
    destruct (IH (S r0) (fp ++ enc) (file_row d origin (Z.of_nat r0)) data1
                ltac:(lia) Hrow Hd1)
      as (encs & pixels2 & data2 & Hl & Hf).
    exists (enc :: encs), pixels2, data2. split.
    + cbn [save_rows]. rewrite Hb.
      replace (Z.of_nat r0 + 1) with (Z.of_nat (S r0)) by lia.
      rewrite Hl. cbn [concat]. rewrite <- app_assoc.
      replace (S r0 + n)%nat with (r0 + S n)%nat by lia. reflexivity.
    + unfold file_rows. cbn [seq map]. constructor; assumption.
Qed.

(** [rle_read] on the packets of one row. *)
Lemma rle_read_row (b : nat) (ps : list packet) (st : rle_static)
  (fp : FILE) (buf rest : list Z) (info : tga_info) :
  (1 <= b <= 4)%nat ->
  s_repeat st = 0 -> s_direct st = 0 -> length (s_sample st) = 4%nat ->
  Forall (whole_packet b) ps ->
  skipn (pos fp) (content fp) = flat_map packet_bytes ps ++ rest ->
  width info = Z.of_nat (total_count ps) -> bytes info = Z.of_nat b ->
  length buf = (total_count ps * b)%nat ->
  exists st' fp',
    rle_read st fp buf info = Some (0, st', fp', flat_map packet_pixels ps) /\
    s_repeat st' = 0 /\ s_direct st' = 0 /\
    length (s_sample st') = 4%nat /\
    skipn (pos fp') (content fp') = rest.
Proof.
  intros Hb Hr Hd Hsmp Hwf Hfp Hw Hby Hl.
  set (px := flat_map packet_pixels ps).
  set (n := total_count ps) in *.
  assert (Hpx : length px = (n * b)%nat)
    by (subst px n; apply (pixels_length b ps Hwf)).
  assert (Hinv0 : read_inv b st fp px ps rest).
  { split; [exact Hsmp|]. split; [exact Hwf|]. left. exists 0%nat.
    cbn [repeat concat app]. auto. }
  destruct (read_steps_inv b n st fp px ps rest [] buf [] Hb Hinv0
              ltac:(lia) Hl) as (st1 & fp1 & ps1 & Hrun & Hinv1).
  cbn [app length Nat.add] in Hrun. rewrite !app_nil_r in Hrun.
  exists st1, fp1. split.
  - unfold rle_read. rewrite Hw, Hby, !Nat2Z.id.
    rewrite (steps_loop _ _ _ _ Hrun). cbn [obind r_static r_fp r_mem].
    do 2 f_equal. apply firstn_all2. lia.
  - rewrite skipn_all2 in Hinv1 by lia.
    destruct Hinv1 as (Hs1 & Hwf1 & [(r & Hr1 & Hd1 & Hfp1 & Hp)
                                   |(d & payload & _ & _ & Hpay & _ & Hp)]).
    + symmetry in Hp. apply app_eq_nil in Hp. destruct Hp as [Hc Hp2].
      apply (pixels_nonempty b ps1 ltac:(lia) Hwf1) in Hp2. subst ps1.
      destruct r as [|r].
      * cbn [flat_map app] in Hfp1. rewrite Hr1, Hd1. auto.
      * exfalso. cbn [repeat concat] in Hc. apply app_eq_nil in Hc.
        destruct Hc as [Hc _].
        assert (L : length (firstn b (s_sample st1)) = b)
          by (rewrite length_firstn; lia).
        rewrite Hc in L. simpl in L. lia.
    + exfalso. symmetry in Hp. apply app_eq_nil in Hp.
      destruct Hp as [Hp _]. rewrite Hp in Hpay. simpl in Hpay. nia.
Qed.

(** [bgr2rgb] on a row that [bgr2rgb] has written gives the row back. *)
Lemma bgr2rgb_back (sa ab : Z) (k : nat) (recs : list (list Z))
  (pre hole post : list Z) :
  (ab =? 0) = (sa =? 0) -> bgr2rgb_width sa = k ->
  Forall (fun r => length r = k) recs ->
  length hole = (length recs * k)%nat ->
  bgr2rgb (pre ++ hole ++ post) (length pre)
          (flat_map (bgr2rgb_pixel sa) recs) (length recs) k ab
  = Some (pre ++ concat recs ++ post).
Proof.
  intros Hab Hk Hf Hh.
  set (recs' := map (bgr2rgb_pixel sa) recs).
  assert (Hf' : Forall (fun r => length r = k) recs').
  { subst recs'. rewrite Forall_map. eapply Forall_impl; [|exact Hf].
    simpl. intros r Hr. rewrite <- Hk. apply bgr2rgb_pixel_length. lia. }
  assert (Hn : length recs' = length recs)
    by (subst recs'; apply length_map).
  assert (Hkb : bgr2rgb_width ab = k)
    by (rewrite (bgr2rgb_width_flag ab sa Hab); exact Hk).
  rewrite flat_map_concat_map. fold recs'. rewrite <- Hn.
  rewrite (bgr2rgb_row ab k recs' (pre ++ hole ++ post) (length pre) Hf')
    by (rewrite ?Hkb, ?length_app, ?Hn; lia).
  rewrite Hkb, Hn.
  replace (k * length recs)%nat with (length hole) by lia.
  destruct (firstn_app_exact pre (hole ++ post) (length pre) eq_refl)
    as [-> _].
  replace (skipn (length pre + length hole) (pre ++ hole ++ post))
    with post
    by (rewrite <- length_app, (app_assoc pre hole post);
        symmetry; apply firstn_app_exact; reflexivity).
  do 3 f_equal. subst recs'. rewrite flat_map_concat_map, map_map.
  f_equal. rewrite <- (map_id recs) at 2.
  apply map_ext_Forall. eapply Forall_impl; [|exact Hf].
  simpl. intros r Hr.
  rewrite (bgr2rgb_pixel_flag ab sa _ Hab).
  apply bgr2rgb_pixel_twice. lia.
Qed.

Lemma out_bpp_range (t : GimpImageType) : (1 <= out_bpp t <= 4)%nat.
Proof. destruct t; simpl; lia. Qed.

Lemma apply_index_loop (index : Z) (rest : list Z) :
  forall (done pre hole post : list Z),
    length hole = length rest ->
    for_loop (length rest) (apply_index_body (done ++ rest) index)
             (pre ++ hole ++ post, length pre, length done)
    = Some (pre ++ map (fun v => uchar (v - index)) rest ++ post,
            (length pre + length rest)%nat,
            (length done + length rest)%nat).
Proof.
  induction rest as [|v rest IH]; intros done pre hole post Hh.
  - destruct hole; [|discriminate]. cbn [length for_loop map app].
    now rewrite !Nat.add_0_r.
  - destruct hole as [|x hole]; [discriminate|].
    cbn [length for_loop]. unfold apply_index_body at 1.
    rewrite nth_error_app2 by lia. rewrite Nat.sub_diag.
    cbn [nth_error obind].
    change (x :: hole ++ post) with ([x] ++ hole ++ post).
    rewrite (store_hole pre [x] (hole ++ post)) by reflexivity.
    cbn [obind].
    replace (done ++ v :: rest) with ((done ++ [v]) ++ rest)
      by (now rewrite <- app_assoc).
    replace (length done + 1)%nat with (length (done ++ [v]))
      by (rewrite length_app; reflexivity).
    replace (length pre + 1)%nat with (length (pre ++ [uchar (v - index)]))
      by (rewrite length_app; reflexivity).
    replace (pre ++ [uchar (v - index)] ++ hole ++ post)
      with ((pre ++ [uchar (v - index)]) ++ hole ++ post)
      by (now rewrite <- app_assoc).
    rewrite (IH (done ++ [v]) (pre ++ [uchar (v - index)]) hole post)
      by (cbn [length] in Hh; lia).
    rewrite !length_app, <- !app_assoc. cbn [length map app].
    f_equal. f_equal; [|lia]. f_equal. lia.
Qed.

(** [apply_index] with the index 0 copies a row of bytes. *)
Lemma apply_index_copy (src pre hole post : list Z) :
  Forall is_byte src -> length hole = length src ->
  apply_index (pre ++ hole ++ post) (length pre) src (length src) 0
  = Some (pre ++ src ++ post).
Proof.
  intros Hb Hh. unfold apply_index.
  pose proof (apply_index_loop 0 src [] pre hole post Hh) as L.
  cbn [app length] in L. rewrite L. cbn [obind fst].
  do 3 f_equal. rewrite <- (map_id src) at 2.
  apply map_ext_Forall. eapply Forall_impl; [|exact Hb].
  simpl. intros v Hv. rewrite Z.sub_0_r. apply uchar_small. exact Hv.
Qed.

(** [read_line] on a row that [save_image] has written. *)
Lemma read_line_plain (t : GimpImageType) (rle : bool) (w : nat)
  (info : tga_info) (s : line_state) (pre hole post row enc rest : list Z) :
  is_type t GIMP_INDEXEDA_IMAGE = false -> (1 <= w)%nat ->
  plain_header t rle w info ->
  line_ready (w * out_bpp t) s (enc ++ rest) ->
  l_data s = pre ++ hole ++ post ->
  length hole = (w * out_bpp t)%nat ->
  stored_row t rle w row enc ->
  exists s',
    read_line s (length pre) info (out_bpp t) None = Some s' /\
    l_data s' = pre ++ row ++ post /\
    line_ready (w * out_bpp t) s' rest.
Proof.
  intros Hp Hw1 (Hty & Hcomp & Hw & Hby & Hbpp & Hfl & Hci & Hal)
         (Hr & Hd & Hsmp & Hfp & Hbuf) Hdat Hh
         (out & Hrow & Himg & Hout & Hcode & Hbytes).
  pose proof (out_bpp_range t) as Hk.
  (* the row buffer after the read *)
  assert (Hread :
            exists st' fp',
              (if imageCompression info =? TGA_COMP_RLE then
                 r <- rle_read (l_static s) (l_fp s) (l_buf s) info ;;
                 let '(_, st, fp, buf) := r in Some (st, fp, buf)
               else
                 let '(got, _, fp) :=
                   fread (Z.to_nat (bytes info)) (Z.to_nat (width info))
                         (l_fp s) in
                 buf <- Mem.store (l_buf s) 0 got ;;
                 Some (l_static s, fp, buf))
              = Some (st', fp', out) /\
              s_repeat st' = 0 /\ s_direct st' = 0 /\
              length (s_sample st') = 4%nat /\
              skipn (pos fp') (content fp') = rest).
  { rewrite Hcomp. unfold row_code in Hcode. destruct rle.
    - destruct Hcode as (ps & -> & Hwf & Hpx & Ht).
      destruct (rle_read_row (out_bpp t) ps (l_static s) (l_fp s) (l_buf s)
                  rest info Hk Hr Hd Hsmp Hwf Hfp
                  ltac:(rewrite Ht; exact Hw) Hby
                  ltac:(rewrite Ht; exact Hbuf))
        as (st' & fp' & Hrd & H1 & H2 & H3 & H4).
      exists st', fp'. change (TGA_COMP_RLE =? TGA_COMP_RLE) with true.
      cbv iota. rewrite Hrd, Hpx. cbn [obind]. auto.
    - subst enc. exists (l_static s), (mkFILE (content (l_fp s))
                                          (pos (l_fp s) + length out)).
      change (TGA_COMP_NONE =? TGA_COMP_RLE) with false. cbv iota.
      unfold fread. rewrite Hfp, Hby, Hw, !Nat2Z.id.
      replace (out_bpp t * w)%nat with (length out) by lia.
      destruct (firstn_app_exact out rest (length out) eq_refl) as [-> _].
      unfold Mem.store. rewrite Hbuf, Hout, Nat.leb_refl.
      cbn [firstn app Nat.add obind]. rewrite skipn_all2 by lia.
      rewrite app_nil_r. cbn [pos content].
      repeat split; try assumption.
      rewrite <- Hout. apply skipn_advance with (a := out). exact Hfp. }
  destruct Hread as (st' & fp' & Hrd & H1 & H2 & H3 & H4).
  exists (mk_line_state st' fp' (pre ++ row ++ post) out).
  split; [|split; [reflexivity|]].
  - unfold read_line. rewrite Hrd. cbn [obind]. rewrite Hfl.
    change (negb (0 =? 0)) with false. cbv iota. cbn [obind].
    rewrite Hty, Hbpp, Hw, Hby, !Nat2Z.id, Hdat.
    unfold row_image in Himg.
    destruct t; try discriminate Hp;
      cbn [is_type orb tga_type_of out_bpp] in *.
    + destruct Himg as (recs & -> & Hf & ->).
      change (TGA_TYPE_COLOR =? TGA_TYPE_COLOR) with true.
      change ((8 * Z.of_nat 3 =? 16) || (8 * Z.of_nat 3 =? 15)) with false.
      cbv iota.
      assert (Hn : length recs = w).
      { rewrite (concat_length_records 3 recs Hf) in Hrow. lia. }
      rewrite <- Hn.
      rewrite (bgr2rgb_back (save_alpha GIMP_RGB_IMAGE) (alphaBits info) 3
                 recs pre hole post (Hal eq_refl) eq_refl Hf) by lia.
      reflexivity.
    + destruct Himg as (recs & -> & Hf & ->).
      change (TGA_TYPE_COLOR =? TGA_TYPE_COLOR) with true.
      change ((8 * Z.of_nat 4 =? 16) || (8 * Z.of_nat 4 =? 15)) with false.
      cbv iota.
      assert (Hn : length recs = w).
      { rewrite (concat_length_records 4 recs Hf) in Hrow. lia. }
      rewrite <- Hn.
      rewrite (bgr2rgb_back (save_alpha GIMP_RGBA_IMAGE) (alphaBits info) 4
                 recs pre hole post (Hal eq_refl) eq_refl Hf) by lia.
      reflexivity.
    + subst out.
      change (TGA_TYPE_GRAY =? TGA_TYPE_COLOR) with false.
      change (TGA_TYPE_GRAY =? TGA_TYPE_MAPPED) with false. cbv iota.
      rewrite load_Some by lia. cbn [skipn obind].
      rewrite firstn_all2 by lia.
      rewrite (store_hole pre hole post row) by lia. reflexivity.
    + subst out.
      change (TGA_TYPE_GRAY =? TGA_TYPE_COLOR) with false.
      change (TGA_TYPE_GRAY =? TGA_TYPE_MAPPED) with false. cbv iota.
      rewrite load_Some by lia. cbn [skipn obind].
      rewrite firstn_all2 by lia.
      rewrite (store_hole pre hole post row) by lia. reflexivity.
    + subst out.
      change (TGA_TYPE_MAPPED =? TGA_TYPE_COLOR) with false.
      change (TGA_TYPE_MAPPED =? TGA_TYPE_MAPPED) with true.
      change (1 =? 1)%nat with true. cbv iota. rewrite Hci.
      replace w with (length row) by lia.
      rewrite (apply_index_copy row pre hole post (Hbytes eq_refl))
        by lia.
      reflexivity.
  - unfold line_ready. cbn [l_static l_fp l_buf]. auto.
Qed.

Lemma stored_rows_length (t : GimpImageType) (rle : bool) (w : nat)
  (rows encs : list (list Z)) :
  Forall2 (stored_row t rle w) rows encs ->
  length (concat rows) = (length rows * (w * out_bpp t))%nat.
Proof.
  induction 1 as [|row enc rows encs (out & Hrow & _) _ IH];
    [reflexivity|].
  cbn [concat length]. rewrite length_app, Hrow, IH. lia.
Qed.

Lemma stored_rows_records (t : GimpImageType) (rle : bool) (w : nat)
  (rows encs : list (list Z)) :
  Forall2 (stored_row t rle w) rows encs ->
  Forall (fun r => length r = (w * out_bpp t)%nat) rows.
Proof.
  induction 1 as [|row enc rows encs (out & Hrow & _) _ IH];
    constructor; assumption.
Qed.

(** The rows of a tile read from its first row downwards. *)
Lemma read_rows_up (t : GimpImageType) (rle : bool) (w : nat)
  (info : tga_info) :
  is_type t GIMP_INDEXEDA_IMAGE = false -> (1 <= w)%nat ->
  plain_header t rle w info ->
  forall rows encs : list (list Z),
    Forall2 (stored_row t rle w) rows encs ->
    forall (j : nat) (s : line_state) (pre hole post rest : list Z),
      line_ready (w * out_bpp t) s (concat encs ++ rest) ->
      l_data s = pre ++ hole ++ post ->
      length pre = (w * out_bpp t * j)%nat ->
      length hole = (length rows * (w * out_bpp t))%nat ->
      exists s',
        read_rows info (out_bpp t) None
                  (map (fun y => w * out_bpp t * y)%nat
                       (seq j (length rows))) s
        = Some s' /\
        l_data s' = pre ++ concat rows ++ post /\
        line_ready (w * out_bpp t) s' rest.
Proof.
  intros Hp Hw1 Hinfo rows encs HF.
  induction HF as [|row enc rows encs Hst _ IH];
    intros j s pre hole post rest Hready Hdat Hpre Hh.
  - destruct hole; [|discriminate]. exists s.
    cbn [length seq map read_rows concat app] in *. auto.
  - cbn [length] in Hh.
    destruct (split_records hole (w * out_bpp t) (length rows) Hh)
      as (Hs & H1 & H2).
    cbn [concat] in Hready. rewrite <- app_assoc in Hready.
    rewrite Hs, <- app_assoc in Hdat.
    destruct (read_line_plain t rle w info s pre
                (firstn (w * out_bpp t) hole)
                (skipn (w * out_bpp t) hole ++ post) row enc
                (concat encs ++ rest) Hp Hw1 Hinfo Hready Hdat H1 Hst)
      as (s1 & Hrl & Hd1 & Hr1).
    assert (Hrow : length row = (w * out_bpp t)%nat)
      by (destruct Hst as (out & Hrow & _); exact Hrow).
    destruct (IH (S j) s1 (pre ++ row) (skipn (w * out_bpp t) hole) post
                rest Hr1) as (s2 & Hrr & Hd2 & Hr2).
    { rewrite Hd1, <- app_assoc. reflexivity. }
    { rewrite length_app, Hpre, Hrow. lia. }
    { rewrite H2. lia. }
    exists s2. split; [|split; [|exact Hr2]].
    + cbn [length seq map read_rows]. rewrite <- Hpre, Hrl.
      cbn [obind]. exact Hrr.
    + rewrite Hd2. cbn [concat]. now rewrite <- !app_assoc.
Qed.

(** The rows of a tile read from its last row upwards. *)
Lemma read_rows_down (t : GimpImageType) (rle : bool) (w : nat)
  (info : tga_info) :
  is_type t GIMP_INDEXEDA_IMAGE = false -> (1 <= w)%nat ->
  plain_header t rle w info ->
  forall rows encs : list (list Z),
    Forall2 (stored_row t rle w) rows encs ->
    forall (s : line_state) (hole post rest : list Z),
      line_ready (w * out_bpp t) s (concat encs ++ rest) ->
      l_data s = hole ++ post ->
      length hole = (length rows * (w * out_bpp t))%nat ->
      exists s',
        read_rows info (out_bpp t) None
                  (map (fun y => w * out_bpp t * (length rows - y))%nat
                       (seq 1 (length rows))) s
        = Some s' /\
        l_data s' = concat (rev rows) ++ post /\
        line_ready (w * out_bpp t) s' rest.
Proof.
  intros Hp Hw1 Hinfo rows encs HF.
  induction HF as [|row enc rows encs Hst _ IH];
    intros s hole post rest Hready Hdat Hh.
  - destruct hole; [|discriminate]. exists s.
    cbn [length seq map read_rows concat app rev] in *. auto.
  - cbn [length] in Hh.
    set (n := length rows) in *. set (wk := (w * out_bpp t)%nat) in *.
    assert (Hlo : length (firstn (n * wk) hole) = (n * wk)%nat)
      by (rewrite length_firstn; lia).
    assert (Hhi : length (skipn (n * wk) hole) = wk)
      by (rewrite length_skipn; lia).
    cbn [concat] in Hready. rewrite <- app_assoc in Hready.
    rewrite <- (firstn_skipn (n * wk) hole), <- app_assoc in Hdat.
    destruct (read_line_plain t rle w info s (firstn (n * wk) hole)
                (skipn (n * wk) hole) post row enc
                (concat encs ++ rest) Hp Hw1 Hinfo Hready Hdat Hhi Hst)
      as (s1 & Hrl & Hd1 & Hr1).
    destruct (IH s1 (firstn (n * wk) hole) (row ++ post) rest Hr1 Hd1 Hlo)
      as (s2 & Hrr & Hd2 & Hr2).
    exists s2. split; [|split; [|exact Hr2]].
    + cbn [length seq map read_rows]. fold n.
      replace (wk * (S n - 1))%nat with (length (firstn (n * wk) hole))
        by (rewrite Hlo; lia).
      rewrite Hrl. cbn [obind].
      rewrite <- seq_shift, map_map. exact Hrr.
    + rewrite Hd2. cbn [rev]. rewrite concat_app. cbn [concat].
      now rewrite app_nil_r, <- app_assoc.
Qed.

Lemma file_rows_app (d : drawable) (origin : TgaOrigin) (r a b : nat) :
  file_rows d origin r (a + b)
  = file_rows d origin r a ++ file_rows d origin (r + a) b.
Proof. unfold file_rows. now rewrite seq_app, map_app. Qed.

Lemma file_rows_length (d : drawable) (origin : TgaOrigin) (r n : nat) :
  length (file_rows d origin r n) = n.
Proof. unfold file_rows. now rewrite length_map, length_seq. Qed.

Lemma map_seq_from {A : Type} (f : nat -> A) (n : nat) :
  forall i, map f (seq i n) = map (fun j => f (i + j)%nat) (seq 0 n).
Proof.
  induction n as [|n IH]; intros i; [reflexivity|].
  cbn [seq map]. rewrite Nat.add_0_r. f_equal.
  rewrite IH, <- seq_shift, map_map.
  apply map_ext. intros j. f_equal. lia.
Qed.

Lemma rev_map_seq {A : Type} (f : nat -> A) (i n : nat) :
  rev (map f (seq i n))
  = map (fun j => f (i + n - 1 - j)%nat) (seq 0 n).
Proof.
  induction n as [|n IH]; [reflexivity|].
  rewrite seq_S, map_app, rev_app_distr. cbn [map rev app seq].
  f_equal; [f_equal; lia|].
  rewrite IH, <- seq_shift, map_map.
  apply map_ext_in. intros j Hj. apply in_seq in Hj. f_equal. lia.
Qed.

(** The loop over tiles on the rows of a file written top-down. *)
Lemma tiles_plain_rows (d : drawable) (rle : bool) (origin : TgaOrigin)
  (w max_th : nat) (info : tga_info) :
  is_type (d_type d) GIMP_INDEXEDA_IMAGE = false -> (1 <= w)%nat ->
  (1 <= max_th)%nat ->
  plain_header (d_type d) rle w info ->
  origin_set origin = false ->
  forall (fuel i : nat) (s : line_state) (acc : list (Z * nat * list Z))
         (encs : list (list Z)) (rest : list Z),
    (Z.to_nat (height info) - i <= fuel)%nat ->
    Forall2 (stored_row (d_type d) rle w)
            (file_rows d origin i (Z.to_nat (height info) - i)) encs ->
    line_ready (w * out_bpp (d_type d)) s (concat encs ++ rest) ->
    length (l_data s) = (w * max_th * out_bpp (d_type d))%nat ->
    exists s' new,
      tiles_plain fuel max_th info (out_bpp (d_type d)) None i s acc
      = Some (s', acc ++ new) /\
      Forall (stripe_of d) new.
Proof.
  intros Hp Hw1 Hm Hinfo Ho.
  pose proof Hinfo as (_ & _ & Hw & _).
  set (ht := Z.to_nat (height info)). set (k := out_bpp (d_type d)) in *.
  induction fuel as [|fuel IH]; intros i s acc encs rest Hfuel HF Hready Hlen;
    cbn [tiles_plain]; fold ht;
    destruct (Nat.ltb_spec i ht) as [Hlt|Hge];
    try (exists s, []; rewrite app_nil_r; split; [reflexivity|constructor]).
  - lia.
  - rewrite Hw, Nat2Z.id.
    set (th := Nat.min max_th (ht - i)).
    assert (Hth : (1 <= th <= max_th)%nat) by (subst th; lia).
    replace (ht - i)%nat with (th + (ht - (i + max_th)))%nat in HF
      by (subst th; lia).
    rewrite file_rows_app in HF.
    apply Forall2_app_inv_l in HF.
    destruct HF as (e1 & e2 & HF1 & HF2 & ->).
    rewrite concat_app, <- app_assoc in Hready.
    set (rows := file_rows d origin i th) in *.
    assert (Hrl : length rows = th) by apply file_rows_length.
    set (hole := firstn (th * (w * k)) (l_data s)).
    set (post := skipn (th * (w * k)) (l_data s)).
    assert (Hhole : length hole = (length rows * (w * k))%nat).
    { subst hole. rewrite length_firstn, Hlen, Hrl. nia. }
    destruct (read_rows_up (d_type d) rle w info Hp Hw1 Hinfo rows e1 HF1
                0%nat s [] hole post (concat e2 ++ rest) Hready)
      as (s1 & Hrr & Hd1 & Hr1).
    { subst hole post. cbn [app]. now rewrite firstn_skipn. }
    { cbn [length]. lia. }
    { exact Hhole. }
    rewrite Hrl in Hrr. fold k in Hrr. rewrite Hrr. cbn [obind].
    cbn [app] in Hd1.
    assert (Hcl : length (concat rows) = (w * th * k)%nat).
    { rewrite (stored_rows_length _ _ _ _ _ HF1), Hrl. fold k. lia. }
    pose proof (load_hole [] (concat rows) post) as Hload.
    cbn [app length] in Hload. rewrite Hcl, <- Hd1 in Hload.
    rewrite Hload. cbn [obind].
    assert (HF2' : Forall2 (stored_row (d_type d) rle w)
                     (file_rows d origin (i + max_th)
                                (ht - (i + max_th))) e2).
    { destruct (Nat.le_gt_cases max_th (ht - i)).
      - replace (i + th)%nat with (i + max_th)%nat in HF2
          by (subst th; lia).
        exact HF2.
      - replace (ht - (i + max_th))%nat with 0%nat in * by lia.
        exact HF2. }
    destruct (IH (i + max_th)%nat s1
                (acc ++ [(Z.of_nat i, th, concat rows)]) e2 rest
                ltac:(lia) HF2' Hr1) as (s2 & new & Hrun & Hnew).
    { rewrite Hd1, length_app, Hcl. subst post.
      rewrite length_skipn, Hlen. nia. }
    exists s2, ((Z.of_nat i, th, concat rows) :: new). split.
    + rewrite Hrun, <- app_assoc. reflexivity.
    + constructor; [|exact Hnew].
      unfold stripe_of. cbn [fst snd]. f_equal.
      subst rows. unfold file_rows. rewrite map_seq_from.
      apply map_ext. intros j. unfold file_row. rewrite Ho.
      f_equal. lia.
Qed.

(** The height of a stripe of an image stored bottom-up. *)
Lemma flipped_stripe (max_th ht i : nat) :
  (1 <= max_th)%nat -> (i < ht)%nat ->
  i = 0%nat \/ Nat.divide max_th (ht - i) ->
  exists th0,
    (if negb (i =? 0)%nat then Some max_th
     else if (max_th =? 0)%nat then None
          else Some (ht mod max_th)%nat) = Some th0 /\
    let th := if (th0 =? 0)%nat then max_th else th0 in
    (1 <= th <= max_th)%nat /\ (th <= ht - i)%nat /\
    Nat.divide max_th (ht - (i + th)).
Proof.
  intros Hm Hlt Hdiv.
  destruct (Nat.eqb_spec i 0) as [->|Hi0]; cbn [negb].
  - destruct (Nat.eqb_spec max_th 0) as [|_]; [lia|].
    exists (ht mod max_th)%nat. split; [reflexivity|]. cbv zeta.
    pose proof (Nat.div_mod_eq ht max_th) as Hdm.
    pose proof (Nat.mod_upper_bound ht max_th ltac:(lia)) as Hub.
    destruct (Nat.eqb_spec (ht mod max_th) 0) as [E0|E0].
    + rewrite E0 in Hdm.
      assert (Hq : (1 <= ht / max_th)%nat)
        by (destruct (ht / max_th)%nat; lia).
      split; [lia|]. split; [nia|].
      exists (ht / max_th - 1)%nat. nia.
    + split; [lia|]. split; [lia|]. exists (ht / max_th)%nat. lia.
  - exists max_th. split; [reflexivity|]. cbv zeta.
    destruct Hdiv as [Hz|[q Hq]]; [contradiction|].
    destruct (Nat.eqb_spec max_th 0); [lia|].
    assert (Hq1 : (1 <= q)%nat) by (destruct q; lia).
    split; [lia|]. split; [nia|]. exists (q - 1)%nat. nia.
Qed.

(** The loop over tiles on the rows of a file written bottom-up. *)
Lemma tiles_flipped_rows (d : drawable) (rle : bool) (origin : TgaOrigin)
  (w max_th : nat) (info : tga_info) :
  is_type (d_type d) GIMP_INDEXEDA_IMAGE = false -> (1 <= w)%nat ->
  (1 <= max_th)%nat ->
  plain_header (d_type d) rle w info ->
  origin_set origin = true ->
  height info = d_height d ->
  forall (fuel i : nat) (s : line_state) (acc : list (Z * nat * list Z))
         (encs : list (list Z)) (rest : list Z),
    (Z.to_nat (height info) - i <= fuel)%nat ->
    i = 0%nat \/ Nat.divide max_th (Z.to_nat (height info) - i) ->
    Forall2 (stored_row (d_type d) rle w)
            (file_rows d origin i (Z.to_nat (height info) - i)) encs ->
    line_ready (w * out_bpp (d_type d)) s (concat encs ++ rest) ->
    length (l_data s) = (w * max_th * out_bpp (d_type d))%nat ->
    exists s' new,
      tiles_flipped fuel max_th info (out_bpp (d_type d)) None i s acc
      = Some (s', acc ++ new) /\
      Forall (stripe_of d) new.
Proof.
  intros Hp Hw1 Hm Hinfo Ho Hht.
  pose proof Hinfo as (_ & _ & Hw & _).
  set (ht := Z.to_nat (height info)). set (k := out_bpp (d_type d)) in *.
  induction fuel as [|fuel IH];
    intros i s acc encs rest Hfuel Hdiv HF Hready Hlen;
    cbn [tiles_flipped]; fold ht;
    destruct (Nat.ltb_spec i ht) as [Hlt|Hge];
    try (exists s, []; rewrite app_nil_r; split; [reflexivity|constructor]).
  - lia.
  - rewrite Hw, Nat2Z.id.
    destruct (flipped_stripe max_th ht i Hm Hlt Hdiv)
      as (th0 & -> & Hth & Hle & Hdiv').
    cbn [obind].
    set (th := if (th0 =? 0)%nat then max_th else th0) in *.
    replace (ht - i)%nat with (th + (ht - (i + th)))%nat in HF by lia.
    rewrite file_rows_app in HF.
    apply Forall2_app_inv_l in HF.
    destruct HF as (e1 & e2 & HF1 & HF2 & ->).
    rewrite concat_app, <- app_assoc in Hready.
    set (rows := file_rows d origin i th) in *.
    assert (Hrl : length rows = th) by apply file_rows_length.
    set (hole := firstn (th * (w * k)) (l_data s)).
    set (post := skipn (th * (w * k)) (l_data s)).
    assert (Hhole : length hole = (length rows * (w * k))%nat).
    { subst hole. rewrite length_firstn, Hlen, Hrl. nia. }
    destruct (read_rows_down (d_type d) rle w info Hp Hw1 Hinfo rows e1 HF1
                s hole post (concat e2 ++ rest) Hready)
      as (s1 & Hrr & Hd1 & Hr1).
    { subst hole post. now rewrite firstn_skipn. }
    { exact Hhole. }
    rewrite Hrl in Hrr. fold k in Hrr. rewrite Hrr. cbn [obind].
    assert (Hcl : length (concat (rev rows)) = (w * th * k)%nat).
    { rewrite (concat_length_records (w * k) (rev rows)),
        length_rev, Hrl; [lia|].
      apply Forall_rev. exact (stored_rows_records _ _ _ _ _ HF1). }
    pose proof (load_hole [] (concat (rev rows)) post) as Hload.
    cbn [app length] in Hload. rewrite Hcl, <- Hd1 in Hload.
    rewrite Hload. cbn [obind].
    destruct (IH (i + th)%nat s1
                (acc ++ [(height info - Z.of_nat i - Z.of_nat th, th,
                          concat (rev rows))]) e2 rest
                ltac:(lia) (or_intror Hdiv') HF2 Hr1)
      as (s2 & new & Hrun & Hnew).
    { rewrite Hd1, length_app, Hcl. subst post.
      rewrite length_skipn, Hlen. nia. }
    exists s2, ((height info - Z.of_nat i - Z.of_nat th, th,
                 concat (rev rows)) :: new). split.
    + rewrite Hrun, <- app_assoc. reflexivity.
    + constructor; [|exact Hnew].
      unfold stripe_of. cbn [fst snd]. f_equal.
      subst rows. unfold file_rows. rewrite rev_map_seq.
      apply map_ext_in. intros j Hj. apply in_seq in Hj.
      unfold file_row. rewrite Ho. f_equal. subst ht. lia.
Qed.

(** The header of a drawable without palette as the loader reads it. *)
Lemma saved_header_plain (d : drawable) (rle : bool) (origin : TgaOrigin) :
  without_palette (d_type d) = true ->
  0 <= d_width d < 65536 -> 0 <= d_height d < 65536 ->
  let info := fix_alphaBits (parse_header (save_header d rle origin)) in
  (check_sub_format info = None /\
   check_color_map_type info = None /\
   idLength info = 0) /\
  plain_header (d_type d) rle (Z.to_nat (d_width d)) info /\
  height info = d_height d /\
  flipVert info = (if origin_set origin then 1 else 0) /\
  exists itype, image_types info = (itype, d_type d, None, None).
Proof.
  intros Hp Hw Hh info.
  pose proof (le16_bytes (d_width d) Hw) as Ew.
  pose proof (le16_bytes (d_height d) Hh) as Eh.
  unfold plain_header. rewrite Z2Nat.id by lia.
  subst info. unfold save_header.
  destruct (d_type d); try discriminate Hp; destruct rle, origin;
    cbn [is_type orb origin_set app map tga_type_of out_bpp save_alpha];
    set (wl := uchar (Z.rem (d_width d) 256)) in *;
    set (wh := uchar (Z.quot (d_width d) 256)) in *;
    set (hl := uchar (Z.rem (d_height d) 256)) in *;
    set (hh := uchar (Z.quot (d_height d) 256)) in *;
    clearbody wl wh hl hh;
    repeat split; try reflexivity; try (cbn; lia);
    try (intros E; first [discriminate E | reflexivity]);
    eexists; reflexivity.
Qed.

Lemma save_palette_plain (d : drawable) (fp : list Z) :
  without_palette (d_type d) = true -> save_palette d fp = Some fp.
Proof.
  unfold save_palette. destruct (d_type d); try discriminate; reflexivity.
Qed.

Lemma without_palette_types (t : GimpImageType) :
  without_palette t = true ->
  is_type t GIMP_INDEXEDA_IMAGE = false /\
  is_type t GIMP_INDEXED_IMAGE = false.
Proof. destruct t; try discriminate; auto. Qed.

(** The two loops over tiles on the rows that [save_image] has written:
    each stripe holds the rows of the drawable at its place, and the
    stripes cover every row once. *)
Lemma tiles_rows (d : drawable) (rle : bool) (origin : TgaOrigin)
  (w max_th : nat) (info : tga_info) (s : line_state)
  (encs : list (list Z)) (rest : list Z) :
  is_type (d_type d) GIMP_INDEXEDA_IMAGE = false -> (1 <= w)%nat ->
  (1 <= max_th)%nat ->
  plain_header (d_type d) rle w info ->
  height info = d_height d ->
  flipVert info = (if origin_set origin then 1 else 0) ->
  Forall2 (stored_row (d_type d) rle w)
          (file_rows d origin 0 (Z.to_nat (d_height d))) encs ->
  line_ready (w * out_bpp (d_type d)) s (concat encs ++ rest) ->
  length (l_data s) = (w * max_th * out_bpp (d_type d))%nat ->
  exists s' sets,
    (if negb (flipVert info =? 0) then
       tiles_flipped (Z.to_nat (height info)) max_th info
                     (out_bpp (d_type d)) None 0 s []
     else
       tiles_plain (Z.to_nat (height info)) max_th info
                   (out_bpp (d_type d)) None 0 s [])
    = Some (s', sets) /\
    Forall (stripe_of d) sets /\
    flat_map stripe_rows (if origin_set origin then rev sets else sets)
    = seq 0 (Z.to_nat (d_height d)).
Proof.
  intros Hp Hw1 Hm Hinfo Hht Hfv HF Hready Hdata.
  replace (Z.to_nat (d_height d)) with (Z.to_nat (height info) - 0)%nat
    in HF by (rewrite Hht; lia).
  rewrite Hfv. destruct (origin_set origin) eqn:Ho.
  - change (negb (1 =? 0)) with true. cbv iota.
    destruct (tiles_flipped_rows d rle origin w max_th info
                Hp Hw1 Hm Hinfo Ho Hht (Z.to_nat (height info))
                0%nat s [] encs rest ltac:(lia)
                (or_introl eq_refl) HF Hready Hdata)
      as (s' & new & Ht & Hnew).
    cbn [app] in Ht.
    destruct (tiles_flipped_cover _ _ _ _ _ _ _ _ _ _ Ht ltac:(lia)
                (or_introl eq_refl)) as (new' & Hn' & Hcov & _).
    cbn [app] in Hn'. subst new'.
    rewrite Nat.sub_0_r, Hht in Hcov. exists s', new. auto.
  - change (negb (0 =? 0)) with false. cbv iota.
    destruct (tiles_plain_rows d rle origin w max_th info
                Hp Hw1 Hm Hinfo Ho (Z.to_nat (height info))
                0%nat s [] encs rest ltac:(lia) HF Hready Hdata)
      as (s' & new & Ht & Hnew).
    cbn [app] in Ht.
    destruct (tiles_plain_cover _ _ _ _ _ _ _ _ _ _ Ht)
      as (new' & Hn' & Hcov & _).
    cbn [app] in Hn'. subst new'.
    rewrite Nat.sub_0_r, Hht in Hcov. exists s', new. auto.
Qed.

(** X12.  Export followed by import gives the pixels back.  For a drawable
    without palette (RGB, RGBA, grey, grey with alpha) of at most
    65535 x 65535 pixels, [save_image] writes a file, with or without
    run-length coding and with either origin, that [load_image] accepts
    and turns into an image of the same size and layer type and without
    colormap; every stripe passed to [gegl_buffer_set] holds the rows of
    the drawable that belong at its place, and the stripes cover each
    row once.  The host's bytes per pixel are those that [save_image]
    writes, and no run of [rle_read] is open when the load starts. *)
Theorem export_import_round_trip (h h' : host) (st : rle_static)
  (d : drawable) (rle : bool) (origin : TgaOrigin) :
  without_palette (d_type d) = true ->
  1 <= d_width d < 65536 -> 0 <= d_height d < 65536 ->
  (forall y, 0 <= y < d_height d ->
             length (d_row d y)
             = (Z.to_nat (d_width d) * out_bpp (d_type d))%nat) ->
  (1 <= gimp_tile_height h')%nat ->
  gimp_drawable_get_bpp h' (d_type d) = out_bpp (d_type d) ->
  s_repeat st = 0 -> s_direct st = 0 -> length (s_sample st) = 4%nat ->
  exists file img,
    save_image h d rle origin = Saved file /\
    load_image h' st file = Image img /\
    img_width img = d_width d /\
    img_height img = d_height d /\
    img_layer_type img = d_type d /\
    img_colormap img = None /\
    Forall (stripe_of d) (img_pixels img) /\
    flat_map stripe_rows
             (if origin_set origin then rev (img_pixels img)
              else img_pixels img)
    = seq 0 (Z.to_nat (d_height d)).
Proof.
  intros Hp Hw Hh Hrows Hm Hbpp Hr Hd Hsmp.
  destruct (without_palette_types _ Hp) as [Hpa Hpi].
  set (w := Z.to_nat (d_width d)) in *.
  set (k := out_bpp (d_type d)) in *.
  set (header := save_header d rle origin).
  destruct (saved_header_plain d rle origin Hp ltac:(lia) Hh)
    as ((Hsub & Hcm & Hid) & Hinfo & Hht & Hfv & itype & Hty).
  fold header w in Hsub, Hcm, Hid, Hinfo, Hht, Hfv, Hty.
  set (info := fix_alphaBits (parse_header header)) in *.
  (* the file *)
  destruct (save_rows_plain d rle origin w Hpa eq_refl ltac:(lia) Hrows
              ltac:(rewrite Hpi; discriminate)
              (Z.to_nat (d_height d)) 0%nat header
              (g_new h (w * k)) (g_new h (w * k)) ltac:(lia)
              (g_new_length h (w * k)) (g_new_length h (w * k)))
    as (encs & pixels' & data' & Hloop & HF).
  set (file := header ++ concat encs ++ repeat 0 8 ++ magic).
  assert (Hsave : save_image h d rle origin = Saved file).
  { unfold save_image. fold header. rewrite (save_palette_plain d _ Hp).
    fold w k. change 0 with (Z.of_nat 0). rewrite Hloop.
    subst file. now rewrite <- app_assoc. }
  (* the load *)
  destruct (load_saved_layout h' st header (concat encs)
              (save_header_length d rle origin) Hsub Hcm Hid)
    as (Hfirst & Hload).
  fold file info in Hfirst, Hload.
  pose proof Hinfo as (Hit & _ & Hwi & Hby & _).
  assert (Hnm : (imageType info =? TGA_TYPE_MAPPED) = false)
    by (rewrite Hit; destruct (d_type d); try discriminate Hp; reflexivity).
  set (data := g_new h' (w * gimp_tile_height h' * k)).
  set (buf := g_new h' (w * k)).
  set (s := mk_line_state st (mkFILE file 18) data buf).
  assert (Hready : line_ready (w * k) s
                     (concat encs ++ repeat 0 8 ++ magic)).
  { unfold line_ready. subst s. cbn [l_static l_fp l_buf pos content].
    repeat split; try assumption.
    - subst file. rewrite <- (save_header_length d rle origin).
      apply firstn_app_exact. reflexivity.
    - apply g_new_length. }
  assert (Hdata : length (l_data s) = (w * gimp_tile_height h' * k)%nat)
    by apply g_new_length.
  destruct (tiles_rows d rle origin w (gimp_tile_height h') info s encs
              (repeat 0 8 ++ magic) Hpa ltac:(lia) Hm Hinfo Hht Hfv HF
              Hready Hdata) as (s' & sets & Ht & Hsets & Hcov).
  fold k in Ht.
  exists file, (mk_gimp_image (width info) (height info) itype
                  (d_type d) None sets).
  split; [exact Hsave|]. split.
  { rewrite Hload. unfold ReadImage. rewrite Hty. unfold read_colormap.
    rewrite Hnm, Hbpp, Hwi, Hby, !Nat2Z.id. fold k data buf s.
    rewrite Ht. reflexivity. }
  cbn [img_width img_height img_layer_type img_colormap img_pixels].
  rewrite Hwi, Hht. subst w. rewrite Z2Nat.id by lia. auto 10.
Qed.

Lemma export_import_round_trip_witness :
  let d := mk_drawable GIMP_RGBA_IMAGE 2 3 0 []
             (fun y => map (fun j => 10 * y + j) [0; 1; 2; 3; 4; 4; 4; 4]) in
  let h' := mk_host 2 (gimp_drawable_get_bpp reference_host) (fun _ => 0) in
  exists file img,
    save_image reference_host d true ORIGIN_BOTTOM_LEFT = Saved file /\
    load_image h' rle_static_init file = Image img /\
    img_width img = d_width d /\
    img_height img = d_height d /\
    img_layer_type img = d_type d /\
    img_colormap img = None /\
    Forall (stripe_of d) (img_pixels img) /\
    flat_map stripe_rows
             (if origin_set ORIGIN_BOTTOM_LEFT then rev (img_pixels img)
              else img_pixels img)
    = seq 0 (Z.to_nat (d_height d)).
Proof.
  intros d h'.
  apply (export_import_round_trip reference_host h' rle_static_init d true
           ORIGIN_BOTTOM_LEFT);
    [reflexivity | cbn; lia | cbn; lia | intros y Hy; reflexivity
    | cbn; lia | reflexivity | reflexivity | reflexivity | reflexivity].
Defined.

(** ** Export and import of an indexed drawable *)

(** The header of an indexed drawable as the loader reads it. *)
Lemma saved_header_indexed (d : drawable) (rle : bool) (origin : TgaOrigin) :
  d_type d = GIMP_INDEXED_IMAGE ->
  0 <= d_width d < 65536 -> 0 <= d_height d < 65536 ->
  0 <= d_num_colors d < 65536 ->
  let info := fix_alphaBits (parse_header (save_header d rle origin)) in
  (check_sub_format info = None /\
   check_color_map_type info = None /\
   idLength info = 0) /\
  plain_header (d_type d) rle (Z.to_nat (d_width d)) info /\
  height info = d_height d /\
  flipVert info = (if origin_set origin then 1 else 0) /\
  colorMapSize info = 24 /\
  colorMapLength info = d_num_colors d /\
  alphaBits info = 0.
Proof.
  intros Ht Hw Hh Hn info.
  pose proof (le16_bytes (d_width d) Hw) as Ew.
  pose proof (le16_bytes (d_height d) Hh) as Eh.
  pose proof (le16_bytes (d_num_colors d) Hn) as En.
  unfold plain_header. rewrite Z2Nat.id by lia.
  subst info. unfold save_header. rewrite Ht.
  destruct rle, origin;
    cbn [is_type orb origin_set app map tga_type_of out_bpp save_alpha];
    set (wl := uchar (Z.rem (d_width d) 256)) in *;
    set (wh := uchar (Z.quot (d_width d) 256)) in *;
    set (hl := uchar (Z.rem (d_height d) 256)) in *;
    set (hh := uchar (Z.quot (d_height d) 256)) in *;
    set (nl := uchar (Z.rem (d_num_colors d) 256)) in *;
    set (nh := uchar (Z.quot (d_num_colors d) 256)) in *;
    clearbody wl wh hl hh nl nh;
    repeat split; try reflexivity; try (cbn; lia);
    intros E; discriminate E.
Qed.

(** The palette of an indexed drawable as [save_image] writes it. *)
Lemma save_palette_indexed (d : drawable) (fp : list Z) :
  d_type d = GIMP_INDEXED_IMAGE ->
  (Z.to_nat (d_num_colors d) * 3 <= length (d_cmap d))%nat ->
  save_palette d fp
  = Some (fp ++ flat_map (palette_entry (d_cmap d) false)
                         (seq 0 (Z.to_nat (d_num_colors d)))).
Proof.
  intros Ht Hlen. unfold save_palette. rewrite Ht. cbn [is_type].
  change 0 with (Z.of_nat 0).
  rewrite (save_palette_loop (d_cmap d) false (Z.to_nat (d_num_colors d))
             fp 0%nat) by (cbn [Nat.add]; exact Hlen).
  reflexivity.
Qed.

(** Reading the written palette back gives the colours in the order of
    the host. *)
Lemma palette_back (cmap : list Z) :
  Forall is_byte cmap ->
  forall n i : nat,
    ((i + n) * 3 <= length cmap)%nat ->
    flat_map (fun j => bgr2rgb_pixel 0 (palette_entry cmap false j))
             (seq i n)
    = firstn (n * 3) (skipn (i * 3) cmap).
Proof.
  intros Hb. induction n as [|n IH]; intros i Hlen; [reflexivity|].
  cbn [seq flat_map]. rewrite (IH (S i)) by lia.
  change (S n * 3)%nat with (3 + n * 3)%nat.
  rewrite firstn_plus, skipn_skipn.
  change (S i * 3)%nat with (3 + i * 3)%nat.
  f_equal.
  set (l := skipn (i * 3) cmap).
  assert (Hl : (3 <= length l)%nat)
    by (subst l; rewrite length_skipn; lia).
  assert (Hnth : forall j, nth j l 0 = nth (i * 3 + j) cmap 0)
    by (intros j; subst l; apply nth_skipn).
  assert (Hbl : Forall is_byte l).
  { rewrite <- (firstn_skipn (i * 3) cmap) in Hb.
    apply Forall_app in Hb. exact (proj2 Hb). }
  unfold palette_entry. cbn [app bgr2rgb_pixel Z.eqb].
  replace (nth (i * 3) cmap 0) with (nth 0 l 0)
    by (rewrite Hnth; f_equal; lia).
  rewrite <- !Hnth.
  destruct l as [|a [|b [|c tl]]]; try (simpl in Hl; lia).
  inversion Hbl as [|? ? Ha Hbl1]; subst.
  inversion Hbl1 as [|? ? Hb' Hbl2]; subst.
  inversion Hbl2 as [|? ? Hc _]; subst.
  cbn. rewrite !uchar_small by assumption. reflexivity.
Qed.

(** The block "Handle colormap" on the palette of an indexed drawable. *)
Lemma read_colormap_indexed (h : host) (info : tga_info) (fp : FILE)
  (cmap rest : list Z) (n : nat) :
  imageType info = TGA_TYPE_MAPPED ->
  colorMapSize info = 24 -> colorMapLength info = Z.of_nat n ->
  (1 <= n)%nat -> length cmap = (n * 3)%nat -> Forall is_byte cmap ->
  skipn (pos fp) (content fp)
  = flat_map (palette_entry cmap false) (seq 0 n) ++ rest ->
  read_colormap h info fp None (Some (n * 3)%nat)
  = Image (mkFILE (content fp) (pos fp + n * 3), None, Some cmap).
Proof.
  intros Hty Hsz Hlen Hn Hc Hb Hfp. unfold read_colormap.
  rewrite Hty, Hsz, Hlen, Nat2Z.id.
  change (TGA_TYPE_MAPPED =? TGA_TYPE_MAPPED) with true.
  change (Z.to_nat ((24 + 7) / 8)) with 3%nat.
  change (3 <=? 4)%nat with true. cbv iota.
  set (recs := map (palette_entry cmap false) (seq 0 n)).
  assert (Hrecs : Forall (fun r => length r = 3%nat) recs).
  { subst recs. rewrite Forall_map. apply Forall_forall.
    intros j _. reflexivity. }
  assert (Hrl : length recs = n)
    by (subst recs; now rewrite length_map, length_seq).
  assert (Hpal : length (concat recs) = (n * 3)%nat)
    by (rewrite (concat_length_records 3 recs Hrecs), Hrl; reflexivity).
  rewrite flat_map_concat_map in Hfp. fold recs in Hfp.
  unfold fread. rewrite Hfp, Nat.mul_1_r.
  rewrite <- Hpal.
  destruct (firstn_app_exact (concat recs) rest (length (concat recs))
              eq_refl) as [-> _].
  rewrite Hpal.
  destruct (Nat.eqb_spec (n * 3) 0) as [E|_]; [lia|].
  rewrite Nat.div_same by lia. cbn [Nat.eqb]. cbv iota.
  change (24 =? 24) with true. cbv iota.
  rewrite <- Hrl at 2.
  rewrite (bgr2rgb_row 0 3 recs (g_new h (n * 3)) 0 Hrecs)
    by (rewrite ?g_new_length, ?Hrl; cbn; lia).
  cbn [firstn app Nat.add].
  rewrite skipn_all2 by (rewrite g_new_length, Hrl; cbn; lia).
  rewrite app_nil_r. subst recs.
  rewrite flat_map_concat_map, map_map, <- flat_map_concat_map.
  rewrite (palette_back cmap Hb n 0) by lia.
  cbn [Nat.mul skipn]. rewrite <- Hc, firstn_all. reflexivity.
Qed.

(** X13.  Export followed by import gives an indexed image back.  For an
    indexed drawable without alpha, with 1 to 256 colours and at most
    65535 x 65535 pixels, [save_image] writes a file, with or without
    run-length coding and with either origin, that [load_image] accepts
    and turns into an indexed image of the same size whose colormap is
    the palette of the drawable; every stripe passed to
    [gegl_buffer_set] holds the index bytes of the rows that belong at
    its place, and the stripes cover each row once. *)
Theorem indexed_round_trip (h h' : host) (st : rle_static)
  (d : drawable) (rle : bool) (origin : TgaOrigin) :
  d_type d = GIMP_INDEXED_IMAGE ->
  1 <= d_width d < 65536 -> 0 <= d_height d < 65536 ->
  1 <= d_num_colors d <= 256 ->
  Z.of_nat (length (d_cmap d)) = 3 * d_num_colors d ->
  Forall is_byte (d_cmap d) ->
  (forall y, 0 <= y < d_height d ->
             length (d_row d y) = Z.to_nat (d_width d) /\
             Forall is_byte (d_row d y)) ->
  (1 <= gimp_tile_height h')%nat ->
  gimp_drawable_get_bpp h' GIMP_INDEXED_IMAGE = 1%nat ->
  s_repeat st = 0 -> s_direct st = 0 -> length (s_sample st) = 4%nat ->
  exists file img,
    save_image h d rle origin = Saved file /\
    load_image h' st file = Image img /\
    img_width img = d_width d /\
    img_height img = d_height d /\
    img_base_type img = GIMP_INDEXED /\
    img_layer_type img = GIMP_INDEXED_IMAGE /\
    img_colormap img = Some (d_cmap d, d_num_colors d) /\
    Forall (stripe_of d) (img_pixels img) /\
    flat_map stripe_rows
             (if origin_set origin then rev (img_pixels img)
              else img_pixels img)
    = seq 0 (Z.to_nat (d_height d)).
Proof.
  intros Hty Hw Hh Hn Hcl Hcb Hrows Hm Hbpp Hr Hd Hsmp.
  assert (Hpa : is_type (d_type d) GIMP_INDEXEDA_IMAGE = false)
    by (rewrite Hty; reflexivity).
  set (w := Z.to_nat (d_width d)) in *.
  set (n := Z.to_nat (d_num_colors d)).
  assert (Hk : out_bpp (d_type d) = 1%nat) by (rewrite Hty; reflexivity).
  set (header := save_header d rle origin).
  destruct (saved_header_indexed d rle origin Hty ltac:(lia) Hh ltac:(lia))
    as ((Hsub & Hcm & Hid) & Hinfo & Hht & Hfv & Hcs & Hcn & Hab).
  fold header w in Hsub, Hcm, Hid, Hinfo, Hht, Hfv, Hcs, Hcn, Hab.
  set (info := fix_alphaBits (parse_header header)) in *.
  set (palette := flat_map (palette_entry (d_cmap d) false) (seq 0 n)).
  (* the file *)
  assert (Hrl : forall y, 0 <= y < d_height d ->
                          length (d_row d y)
                          = (w * out_bpp (d_type d))%nat)
    by (intros y Hy; rewrite Hk, Nat.mul_1_r; apply Hrows; exact Hy).
  destruct (save_rows_plain d rle origin w Hpa eq_refl ltac:(lia) Hrl
              ltac:(intros _ y Hy; apply Hrows; exact Hy)
              (Z.to_nat (d_height d)) 0%nat (header ++ palette)
              (g_new h (w * out_bpp (d_type d)))
              (g_new h (w * out_bpp (d_type d))) ltac:(lia)
              (g_new_length h _) (g_new_length h _))
    as (encs & pixels' & data' & Hloop & HF).
  set (file := header ++ (palette ++ concat encs) ++ repeat 0 8 ++ magic).
  assert (Hsave : save_image h d rle origin = Saved file).
  { unfold save_image. fold header.
    rewrite (save_palette_indexed d _ Hty) by (fold n; lia).
    fold w n palette. change 0 with (Z.of_nat 0).
    rewrite Hloop. subst file.
    now rewrite <- !app_assoc. }
  (* the load *)
  destruct (load_saved_layout h' st header (palette ++ concat encs)
              (save_header_length d rle origin) Hsub Hcm Hid)
    as (Hfirst & Hload).
  fold file info in Hfirst, Hload.
  pose proof Hinfo as (Hit & _ & Hwi & Hby & _ & _ & Hci & _).
  rewrite Hty in Hit. cbn [tga_type_of] in Hit.
  assert (Hcn' : colorMapLength info = Z.of_nat n) by (subst n; lia).
  assert (Htypes : image_types info
                   = (GIMP_INDEXED, GIMP_INDEXED_IMAGE, None,
                      Some (n * 3)%nat)).
  { unfold image_types. rewrite Hit, Hcs, Hci, Hcn', Hab, Nat2Z.id.
    change (TGA_TYPE_MAPPED =? TGA_TYPE_MAPPED) with true.
    change (24 <? 24) with false. change (0 <? 0) with false.
    destruct (Z.ltb_spec 256 (0 + Z.of_nat n)); [lia|]. reflexivity. }
  assert (H18 : skipn 18 file
                = palette ++ concat encs ++ repeat 0 8 ++ magic).
  { subst file. rewrite <- (save_header_length d rle origin).
    rewrite <- app_assoc. apply firstn_app_exact. reflexivity. }
  assert (Hcmap : read_colormap h' info (mkFILE file 18) None
                                (Some (n * 3)%nat)
                  = Image (mkFILE file (18 + n * 3), None,
                           Some (d_cmap d))).
  { apply (read_colormap_indexed h' info (mkFILE file 18) (d_cmap d)
             (concat encs ++ repeat 0 8 ++ magic) n Hit Hcs Hcn');
      [lia | lia | exact Hcb | exact H18]. }
  set (data := g_new h' (w * gimp_tile_height h' * 1)).
  set (buf := g_new h' (w * 1)).
  set (s := mk_line_state st (mkFILE file (18 + n * 3)) data buf).
  assert (Hpl : length palette = (n * 3)%nat).
  { subst palette. rewrite (flat_map_length_records 3).
    - now rewrite length_seq.
    - apply Forall_forall. intros j _. reflexivity. }
  assert (Hready : line_ready (w * out_bpp (d_type d)) s
                     (concat encs ++ repeat 0 8 ++ magic)).
  { unfold line_ready. subst s. cbn [l_static l_fp l_buf pos content].
    repeat split; try assumption.
    - rewrite <- Hpl. apply skipn_advance with (a := palette). exact H18.
    - rewrite Hk. apply g_new_length. }
  assert (Hdata : length (l_data s)
                  = (w * gimp_tile_height h' * out_bpp (d_type d))%nat)
    by (rewrite Hk; apply g_new_length).
  destruct (tiles_rows d rle origin w (gimp_tile_height h') info s encs
              (repeat 0 8 ++ magic) Hpa ltac:(lia) Hm Hinfo Hht Hfv HF
              Hready Hdata) as (s' & sets & Ht & Hsets & Hcov).
  rewrite Hk in Ht.
  exists file, (mk_gimp_image (width info) (height info) GIMP_INDEXED
                  GIMP_INDEXED_IMAGE
                  (Some (d_cmap d, colorMapLength info)) sets).
  split; [exact Hsave|]. split.
  { rewrite Hload. unfold ReadImage. rewrite Htypes, Hcmap.
    rewrite Hbpp, Hwi, Hby, Hk, !Nat2Z.id. fold data buf s.
    rewrite Ht. reflexivity. }
  cbn [img_width img_height img_base_type img_layer_type img_colormap
       img_pixels].
  rewrite Hwi, Hht, Hcn. subst w. rewrite Z2Nat.id by lia. auto 10.
Qed.

Lemma indexed_round_trip_witness :
  let d := mk_drawable GIMP_INDEXED_IMAGE 3 3 2 [10; 20; 30; 40; 50; 60]
             (fun y => [y; 1; 1]) in
  let h' := mk_host 2 (gimp_drawable_get_bpp reference_host) (fun _ => 0) in
  exists file img,
    save_image reference_host d true ORIGIN_TOP_LEFT = Saved file /\
    load_image h' rle_static_init file = Image img /\
    img_width img = d_width d /\
    img_height img = d_height d /\
    img_base_type img = GIMP_INDEXED /\
    img_layer_type img = GIMP_INDEXED_IMAGE /\
    img_colormap img = Some (d_cmap d, d_num_colors d) /\
    Forall (stripe_of d) (img_pixels img) /\
    flat_map stripe_rows
             (if origin_set ORIGIN_TOP_LEFT then rev (img_pixels img)
              else img_pixels img)
    = seq 0 (Z.to_nat (d_height d)).
Proof.
  intros d h'.
  apply (indexed_round_trip reference_host h' rle_static_init d true
           ORIGIN_TOP_LEFT);
    [reflexivity | cbn; lia | cbn; lia | cbn; lia | reflexivity
    | repeat constructor; cbn; lia
    | intros y Hy; split; [reflexivity|];
      repeat constructor; unfold is_byte; cbn in Hy; lia
    | cbn; lia | reflexivity | reflexivity | reflexivity | reflexivity].
Defined.
